(** * graphql_apollo_starter: the request pipeline, shallowly embedded

    The development follows the TypeScript sources:
    - [src/utils/jwt.ts] and [src/middleware/auth.ts]: bearer extraction,
      context creation, the [requireAuth] family of helpers;
    - [src/schema/resolvers/*.ts]: the resolvers that call those helpers;
    - [src/plugins/complexityAnalysis.ts]: the cost gate;
    - [src/plugins/caching.ts]: the response cache.

    JavaScript values that travel through [any]-typed parameters are kept
    dynamic ([JsVal]); documents and configuration are records. Numbers
    that are stored, compared as numbers or printed are IEEE 754 doubles
    ([Number]). *)

Set Warnings "-register-all".
From Stdlib Require Import ZArith QArith Qround String Ascii List Bool Lia.
From Stdlib Require Import DecimalString DecimalPos DecimalN DecimalZ DecimalFacts.
From stdpp Require Import gmap strings.
Import ListNotations.

Local Open Scope string_scope.
Local Open Scope Z_scope.

(* ===================================================================== *)
(** ** JavaScript values, exceptions, completions *)
(* ===================================================================== *)

(** A JavaScript number: an IEEE 754 double. [Finite s m e] is
    [(-1)^s * m * 2^e]. *)
Inductive Number : Type :=
| NaN
| Infinity (negative : bool)
| Zero (negative : bool)
| Finite (negative : bool) (mantissa : positive) (exponent : Z).

Inductive JsVal : Type :=
| JsUndefined
| JsNull
| JsBool (b : bool)
| JsNum (x : Number)
| JsStr (s : string)
| JsArr (items : list JsVal)
| JsObj (props : list (string * JsVal)).

(** Errors thrown by the code. [AuthenticationError] is the
    apollo-server-express class whose [extensions.code] is
    [UNAUTHENTICATED]; a [GraphQLError] carries its own extensions. *)
Inductive JsError : Type :=
| TypeError (message : string)
| AuthenticationError (message : string)
| GraphQLError (message : string) (extensions : list (string * JsVal))
| StoreError (message : string).

Inductive Completion (A : Type) : Type :=
| Return (a : A)
| Throw (e : JsError).
Arguments Return {A} a.
Arguments Throw {A} e.

Definition bindC {A B} (c : Completion A) (k : A -> Completion B) : Completion B :=
  match c with
  | Return a => k a
  | Throw e => Throw e
  end.

Definition tryCatch {A} (body : Completion A) (handler : JsError -> Completion A)
  : Completion A :=
  match body with
  | Return a => Return a
  | Throw e => handler e
  end.

Declare Scope js_scope.
Delimit Scope js_scope with js.
Notation "'let*' x ':=' c 'in' k" := (bindC c (fun x => k))
  (at level 10, x name, c at level 100, k at level 200) : js_scope.

(** Digest, compression and parsing are library calls ([crypto], [zlib],
    [JSON.parse]), and so is the engine's reading of a string as a number
    ([StringToNumber], applied when a string meets an arithmetic
    operator); the cache plugin is written against this interface. *)
Class CodecLib : Type := {
  sha256_hex : string -> string;
  gzip_length : string -> nat;
  gzip_base64 : string -> string;
  gunzip_base64 : string -> Completion string;
  JSON_parse : string -> Completion JsVal;
  StringToNumber : string -> Number
}.

(* ===================================================================== *)
(** ** Numbers *)
(* ===================================================================== *)

Module Num.

(** The doubles: 53 bits of mantissa, exponents from [-1074] to [971],
    a short mantissa only at the least exponent. *)
Definition valid (x : Number) : bool :=
  match x with
  | Finite _ m e =>
      (Z.leb (2 ^ 52) (Zpos m) && Z.ltb (Zpos m) (2 ^ 53)
       && Z.leb (-1074) e && Z.leb e 971)
      || (Z.ltb (Zpos m) (2 ^ 52) && Z.eqb e (-1074))
  | _ => true
  end.

Definition isFinite (x : Number) : bool :=
  match x with
  | Zero _ | Finite _ _ _ => true
  | NaN | Infinity _ => false
  end.

Definition isNaN (x : Number) : bool :=
  match x with
  | NaN => true
  | _ => false
  end.

Definition isZero (x : Number) : bool :=
  match x with
  | Zero _ => true
  | _ => false
  end.

Definition sign (x : Number) : bool :=
  match x with
  | NaN => false
  | Infinity s | Zero s | Finite s _ _ => s
  end.

Definition eqb (x y : Number) : bool :=
  match x, y with
  | NaN, NaN => true
  | Infinity s, Infinity t | Zero s, Zero t => Bool.eqb s t
  | Finite s m e, Finite t m' e' => Bool.eqb s t && Pos.eqb m m' && Z.eqb e e'
  | _, _ => false
  end.

(** [num / (den * 2^e)] as a fraction of integers. *)
Definition shift (num den e : Z) : Z * Z :=
  if 0 <=? e then (num, den * 2 ^ e) else (num * 2 ^ (- e), den).

(** The integer [l] with [2^l <= num / den < 2^(l+1)]. *)
Definition log2floor (num den : Z) : Z :=
  let l := Z.log2 num - Z.log2 den in
  let (a, b) := shift num den l in
  if b <=? a then l else l - 1.

(** The integer nearest to [a / b], the even one of two at equal
    distance. *)
Definition nearestEven (a b : Z) : Z :=
  let q := a / b in
  let r := a mod b in
  match 2 * r ?= b with
  | Lt => q
  | Gt => q + 1
  | Eq => if Z.even q then q else q + 1
  end.

(** The double nearest to [num / den] (round to nearest, ties to
    even), with the given sign; what every arithmetic operation of the
    language returns on the exact result. *)
Definition round (negative : bool) (num den : Z) : Number :=
  let e := Z.max (log2floor num den - 52) (-1074) in
  let (a, b) := shift num den e in
  let m := nearestEven a b in
  let (m, e) := if m =? 2 ^ 53 then (2 ^ 52, e + 1) else (m, e) in
  if 971 <? e then Infinity negative
  else match m with
       | Zpos p => Finite negative p e
       | _ => Zero negative
       end.

(** [m * 2^e] as a fraction. *)
Definition fraction (m e : Z) : Z * Z := shift m 1 (- e).

(** The value of a finite number, as a signed fraction. *)
Definition exact (x : Number) : Z * Z :=
  match x with
  | Finite s m e =>
      let (a, b) := fraction (Zpos m) e in (if s then - a else a, b)
  | _ => (0, 1)
  end.

(** The double nearest to [a / b]; an exact 0 is [+0]. *)
Definition ofExact (a b : Z) : Number := round (a <? 0) (Z.abs a) b.

Definition ofZ (z : Z) : Number := ofExact z 1.

Definition opp (x : Number) : Number :=
  match x with
  | NaN => NaN
  | Infinity s => Infinity (negb s)
  | Zero s => Zero (negb s)
  | Finite s m e => Finite (negb s) m e
  end.

(** [x + y]. *)
Definition add (x y : Number) : Number :=
  match x, y with
  | NaN, _ | _, NaN => NaN
  | Infinity s, Infinity t => if Bool.eqb s t then x else NaN
  | Infinity _, _ => x
  | _, Infinity _ => y
  | Zero s, Zero t => Zero (s && t)
  | Zero _, _ => y
  | _, Zero _ => x
  | Finite _ _ _, Finite _ _ _ =>
      let (a, b) := exact x in
      let (c, d) := exact y in
      ofExact (a * d + c * b) (b * d)
  end.

(** [x - y]. *)
Definition sub (x y : Number) : Number := add x (opp y).

(** [x / y]. *)
Definition div (x y : Number) : Number :=
  match x, y with
  | NaN, _ | _, NaN => NaN
  | Infinity _, Infinity _ => NaN
  | Zero _, Zero _ => NaN
  | Infinity s, _ => Infinity (xorb s (sign y))
  | _, Infinity t => Zero (xorb (sign x) t)
  | Zero s, _ => Zero (xorb s (sign y))
  | _, Zero t => Infinity (xorb (sign x) t)
  | Finite s m e, Finite t m' e' =>
      let (a, b) := fraction (Zpos m) e in
      let (c, d) := fraction (Zpos m') e' in
      round (xorb s t) (a * d) (b * c)
  end.

(** [x < y]; [false] when either is [NaN]. *)
Definition ltb (x y : Number) : bool :=
  match x, y with
  | NaN, _ | _, NaN => false
  | Infinity s, Infinity t => s && negb t
  | Infinity s, _ => s
  | _, Infinity t => negb t
  | _, _ =>
      let (a, b) := exact x in
      let (c, d) := exact y in
      a * d <? c * b
  end.

(** [Math.floor(x)]. *)
Definition floor (x : Number) : Number :=
  match x with
  | Finite s m e =>
      if 0 <=? e then x
      else
        let q := Zpos m / 2 ^ (- e) in
        let r := Zpos m mod 2 ^ (- e) in
        if s then ofZ (- (if r =? 0 then q else q + 1)) else ofZ q
  | _ => x
  end.

(** *** [Number::toString] *)

Definition digitsOf (z : Z) : string :=
  NilEmpty.string_of_uint (N.to_uint (Z.to_N z)).

Definition digitValue (c : ascii) : Z := Z.of_N (N_of_ascii c) - 48.

Fixpoint digitsValueFrom (acc : Z) (s : string) : Z :=
  match s with
  | EmptyString => acc
  | String c rest => digitsValueFrom (10 * acc + digitValue c) rest
  end.

(** The integer a string of digits writes. *)
Definition digitsValue (s : string) : Z := digitsValueFrom 0 s.

Definition len (s : string) : Z := Z.of_nat (String.length s).

Fixpoint zeros (n : nat) : string :=
  match n with
  | O => ""
  | S k => String "0" (zeros k)
  end.

(** A string of digits without its zeros at the end. *)
Fixpoint stripZeros (s : string) : string :=
  match s with
  | EmptyString => ""
  | String c rest =>
      match stripZeros rest with
      | EmptyString => if Ascii.eqb c "0" then "" else String c ""
      | kept => String c kept
      end
  end.

(** [s * 10^p] as a fraction. *)
Definition decimalFraction (s p : Z) : Z * Z :=
  if 0 <=? p then (s * 10 ^ p, 1) else (s, 10 ^ (- p)).

(** The decimal [0.D * 10^n], for a string of digits [D]. *)
Definition readDecimal (D : string) (n : Z) : Number :=
  let (a, b) := decimalFraction (digitsValue D) (n - len D) in
  round false a b.

(** The exact decimal expansion of [m * 2^e]: an integer [P] and
    an exponent [q] with [m * 2^e = P * 10^q]. *)
Definition expansion (m e : Z) : Z * Z :=
  if 0 <=? e then (m * 2 ^ e, 0) else (m * 5 ^ (- e), e).

(** A decimal [s * 10^p], as its digits without zeros at the end and
    the position [n] of the decimal point: [0.D * 10^n]. *)
Definition normal (s p : Z) : string * Z :=
  (stripZeros (digitsOf s), len (digitsOf s) + p).

Definition reads (x : Number) (c : string * Z) : bool :=
  eqb (readDecimal (fst c) (snd c)) x.

(** The digits [Number::toString] prints for a positive [x = m * 2^e]:
    the least number [k] of digits such that some decimal of [k] digits
    is nearer to [x] than to any other double, and of those decimals
    the one nearest to [x]. The decimals of [k] digits on either side
    of [x] are the first [k] digits of its expansion and their
    successor. Seventeen digits always suffice; the expansion itself
    stands at the end of the search. *)
Fixpoint shortest (fuel : nat) (k : Z) (x : Number) (P dP q : Z) : string * Z :=
  match fuel with
  | O => normal P q
  | S fuel' =>
      if dP <=? k then normal P q
      else
        let scale := 10 ^ (dP - k) in
        let s := P / scale in
        let r := P mod scale in
        let below := normal s (q + dP - k) in
        let above := normal (s + 1) (q + dP - k) in
        if reads x below && reads x above
        then match 2 * r ?= scale with
             | Lt => below
             | Gt => above
             | Eq => if Z.even s then below else above
             end
        else if reads x below then below
        else if reads x above then above
        else shortest fuel' (k + 1) x P dP q
  end.

Definition shortestDigits (m : positive) (e : Z) : string * Z :=
  let (P, q) := expansion (Zpos m) e in
  shortest 17 1 (Finite false m e) P (len (digitsOf P)) q.

Definition head (s : string) : string :=
  match s with
  | EmptyString => ""
  | String c _ => String c ""
  end.

Definition tail (s : string) : string :=
  match s with
  | EmptyString => ""
  | String _ rest => rest
  end.

Fixpoint take (n : nat) (s : string) : string :=
  match n, s with
  | S k, String c rest => String c (take k rest)
  | _, _ => ""
  end.

Fixpoint drop (n : nat) (s : string) : string :=
  match n, s with
  | S k, String _ rest => drop k rest
  | _, _ => s
  end.

(** The text of the decimal [0.D * 10^n], as the language lays it out:
    plain digits up to 21 places, a leading [0.] down to six zeros,
    else the exponent form. *)
Definition layout (D : string) (n : Z) : string :=
  let k := len D in
  if (k <=? n) && (n <=? 21) then D ++ zeros (Z.to_nat (n - k))
  else if (0 <? n) && (n <=? 21)
  then take (Z.to_nat n) D ++ "." ++ drop (Z.to_nat n) D
  else if (-6 <? n) && (n <=? 0) then "0." ++ zeros (Z.to_nat (- n)) ++ D
  else
    let exponent := (if n - 1 <? 0 then "-" else "+") ++ digitsOf (Z.abs (n - 1)) in
    if k =? 1 then D ++ "e" ++ exponent
    else head D ++ "." ++ tail D ++ "e" ++ exponent.

(** [Number::toString(x)], radix 10. *)
Definition toString (x : Number) : string :=
  match x with
  | NaN => "NaN"
  | Infinity s => if s then "-Infinity" else "Infinity"
  | Zero _ => "0"
  | Finite s m e =>
      let (D, n) := shortestDigits m e in
      (if s then "-" else "") ++ layout D n
  end.

(** *** Predicates on fractions

    Used to state what [round] and [log2floor] compute. *)

(** [2^l <= a / b < 2^(l+1)], with the exponents made non-negative. *)
Definition between (a b l : Z) : Prop :=
  forall K, 0 <= K -> 0 <= K + l ->
    b * 2 ^ (K + l) <= a * 2 ^ K < 2 * (b * 2 ^ (K + l)).

(** [a / b = m * 2^e]. *)
Definition represents (m e a b : Z) : Prop :=
  a * snd (fraction m e) = fst (fraction m e) * b.

(** A positive integer below [2^53] as a mantissa of 53 bits and an
    exponent. *)
Definition mantissaOf (z : Z) : Z := z * 2 ^ (52 - Z.log2 z).
Definition exponentOf (z : Z) : Z := Z.log2 z - 52.

(** *** Reading a number's text back

    The functions below are not part of the program: they read what
    [layout] writes and are used to show that it loses nothing. *)

Definition isDigit (c : ascii) : bool :=
  let n := N_of_ascii c in N.leb 48 n && N.leb n 57.

Fixpoint digitsOnly (s : string) : bool :=
  match s with
  | EmptyString => true
  | String c rest => isDigit c && digitsOnly rest
  end.

(** The characters a number's text is made of. *)
Definition isNumberChar (c : ascii) : bool :=
  isDigit c || Ascii.eqb c "." || Ascii.eqb c "e" || Ascii.eqb c "+"
  || Ascii.eqb c "-".

Fixpoint numberChars (s : string) : bool :=
  match s with
  | EmptyString => true
  | String c rest => isNumberChar c && numberChars rest
  end.

Fixpoint occurs (c : ascii) (s : string) : bool :=
  match s with
  | EmptyString => false
  | String d rest => Ascii.eqb d c || occurs c rest
  end.

(** A text up to the first [c], and what follows it. *)
Fixpoint splitAt (c : ascii) (s : string) : string * option string :=
  match s with
  | EmptyString => ("", None)
  | String d rest =>
      if Ascii.eqb d c then ("", Some rest)
      else let (a, b) := splitAt c rest in (String d a, b)
  end.

Fixpoint leadingZeros (s : string) : nat :=
  match s with
  | String c rest => if Ascii.eqb c "0" then S (leadingZeros rest) else O
  | EmptyString => O
  end.

Definition signedValue (s : string) : Z :=
  match s with
  | String c rest =>
      if Ascii.eqb c "-" then - digitsValue rest
      else if Ascii.eqb c "+" then digitsValue rest
      else digitsValue s
  | EmptyString => 0
  end.

(** The digits and the position of the point that a text lays out. *)
Definition decode (text : string) : string * Z :=
  let (mantissa, exponent) := splitAt "e" text in
  let (integer, fraction) := splitAt "." mantissa in
  match exponent with
  | Some x =>
      (integer ++ match fraction with Some f => f | None => "" end,
       signedValue x + 1)
  | None =>
      match fraction with
      | Some f =>
          if String.eqb integer "0"
          then (drop (leadingZeros f) f, - Z.of_nat (leadingZeros f))
          else (integer ++ f, len integer)
      | None => (stripZeros integer, len integer)
      end
  end.

(** Digits as [shortestDigits] gives them: some, the first and the
    last of them not 0. *)
Definition normalDigits (D : string) : Prop :=
  stripZeros D = D /\ digitsOnly D = true
  /\ exists c rest, D = String c rest /\ Ascii.eqb c "0" = false.

End Num.

(* ===================================================================== *)
(** ** Operations of the language on values *)
(* ===================================================================== *)

Module Js.

(** [!v] is [negb (truthy v)]. *)
Definition truthy (v : JsVal) : bool :=
  match v with
  | JsUndefined | JsNull => false
  | JsBool b => b
  | JsNum x => negb (Num.isZero x || Num.isNaN x)
  | JsStr s => negb (String.eqb s "")
  | JsArr _ | JsObj _ => true
  end.

Fixpoint assoc (k : string) (props : list (string * JsVal)) : JsVal :=
  match props with
  | [] => JsUndefined
  | (k', v) :: rest => if String.eqb k' k then v else assoc k rest
  end.

(** Property read [v.k]: a [TypeError] on [undefined] and [null], the
    property (or [undefined]) on an object, [undefined] on a primitive
    that has no such own or inherited data property. *)
Definition getProp (v : JsVal) (k : string) : Completion JsVal :=
  match v with
  | JsUndefined =>
      Throw (TypeError ("Cannot read properties of undefined (reading '" ++ k ++ "')"))
  | JsNull =>
      Throw (TypeError ("Cannot read properties of null (reading '" ++ k ++ "')"))
  | JsObj props => Return (assoc k props)
  | _ => Return JsUndefined
  end.

(** Decimal rendering of an integer, as an array index is written. *)
Definition decimal (n : Z) : string :=
  match Z.to_int n with
  | Decimal.Pos d => NilEmpty.string_of_uint d
  | Decimal.Neg d => String "-" (NilEmpty.string_of_uint d)
  end.

(** [String(v)]: an array prints its elements separated by commas, with
    [null] and [undefined] elements printed as nothing; a plain object
    prints as [[object Object]]. *)
Fixpoint stringOf (v : JsVal) : string :=
  match v with
  | JsUndefined => "undefined"
  | JsNull => "null"
  | JsBool true => "true"
  | JsBool false => "false"
  | JsNum x => Num.toString x
  | JsStr s => s
  | JsArr items =>
      (fix commaSeparated (first : bool) (l : list JsVal) : string :=
         match l with
         | [] => EmptyString
         | x :: rest =>
             (if first then EmptyString else ",")
               ++ match x with
                  | JsUndefined | JsNull => EmptyString
                  | _ => stringOf x
                  end
               ++ commaSeparated false rest
         end) true items
  | JsObj _ => "[object Object]"
  end.

(** [ToNumber(v)], the coercion the arithmetic and relational operators
    apply to an operand: a string is read by the engine, an array or an
    object through its text. *)
Definition toNumber `{CodecLib} (v : JsVal) : Number :=
  match v with
  | JsUndefined => NaN
  | JsNull => Zero false
  | JsBool b => if b then Num.ofZ 1 else Zero false
  | JsNum x => x
  | JsStr s => StringToNumber s
  | JsArr _ | JsObj _ => StringToNumber (stringOf v)
  end.

(** Method call [v.toString()]. *)
Definition toString (v : JsVal) : Completion string :=
  match v with
  | JsUndefined =>
      Throw (TypeError "Cannot read properties of undefined (reading 'toString')")
  | JsNull =>
      Throw (TypeError "Cannot read properties of null (reading 'toString')")
  | _ => Return (stringOf v)
  end.

(** [v === s] for a string literal [s]. *)
Definition strictEqStr (v : JsVal) (s : string) : bool :=
  match v with
  | JsStr t => String.eqb t s
  | _ => false
  end.

(** [xs.includes(v)] on an array of strings. *)
Definition includes (xs : list string) (v : JsVal) : bool :=
  existsb (strictEqStr v) xs.

Fixpoint join (sep : string) (xs : list string) : string :=
  match xs with
  | [] => ""
  | [x] => x
  | x :: rest => x ++ sep ++ join sep rest
  end.

(** [s.split(" ")]. *)
Fixpoint splitSpace (s : string) : list string :=
  match s with
  | EmptyString => [""]
  | String c rest =>
      if Ascii.eqb c " "%char then "" :: splitSpace rest
      else match splitSpace rest with
           | [] => [String c ""]
           | p :: ps => String c p :: ps
           end
  end.

End Js.

(* ===================================================================== *)
(** ** Documents and the store ([src/types/index.ts], the models) *)
(* ===================================================================== *)

Inductive UserRole : Type := USER | ADMIN | MODERATOR.

Definition UserRole_value (r : UserRole) : string :=
  match r with
  | USER => "USER"
  | ADMIN => "ADMIN"
  | MODERATOR => "MODERATOR"
  end.

Record IUser : Type := mkUser {
  _id : string;
  username : string;
  email : string;
  password : string;
  role : UserRole;
  refreshToken : option string
}.

Record IPost : Type := mkPost {
  post_id : string;
  title : string;
  content : string;
  author : string;
  tags : list string;
  published : bool
}.

Record IComment : Type := mkComment {
  comment_id : string;
  comment_content : string;
  comment_author : string;
  comment_post : string
}.

Record GraphQLContext : Type := mkContext {
  user : option IUser;
  isAuthenticated : bool
}.

Record TokenPayload : Type := mkPayload {
  userId : string;
  payload_username : string;
  payload_email : string;
  payload_role : UserRole
}.

(** The document store: three collections keyed by [_id], and whether the
    backend answers at all (a call on an unreachable store rejects). *)
Record Db : Type := mkDb {
  users : gmap string IUser;
  posts : gmap string IPost;
  comments : gmap string IComment;
  reachable : bool
}.

(** A user document as the resolvers see it after [User.findById]:
    [password] and [refreshToken] are declared [select: false]. *)
Definition user_js (u : IUser) : JsVal :=
  JsObj [("_id", JsStr (_id u));
         ("username", JsStr (username u));
         ("email", JsStr (email u));
         ("role", JsStr (UserRole_value (role u)))].

(** The context object: [{ isAuthenticated: false }] or
    [{ user, isAuthenticated: true }]. *)
Definition context_js (c : GraphQLContext) : JsVal :=
  JsObj (match user c with
         | Some u => [("user", user_js u)]
         | None => []
         end ++ [("isAuthenticated", JsBool (isAuthenticated c))]).

Definition anonymous : GraphQLContext :=
  {| user := None; isAuthenticated := false |}.

Definition authenticated (u : IUser) : GraphQLContext :=
  {| user := Some u; isAuthenticated := true |}.

(** Store-backed computations: the store is threaded, and a throw keeps
    the writes made before it. *)
Definition DbM (A : Type) : Type := Db -> Completion A * Db.

Definition retM {A} (a : A) : DbM A := fun db => (Return a, db).
Definition throwM {A} (e : JsError) : DbM A := fun db => (Throw e, db).
Definition liftM {A} (c : Completion A) : DbM A := fun db => (c, db).
Definition bindM {A B} (m : DbM A) (k : A -> DbM B) : DbM B :=
  fun db => match m db with
            | (Return a, db') => k a db'
            | (Throw e, db') => (Throw e, db')
            end.
Definition tryCatchM {A} (body : DbM A) (handler : JsError -> DbM A) : DbM A :=
  fun db => match body db with
            | (Return a, db') => (Return a, db')
            | (Throw e, db') => handler e db'
            end.

Declare Scope db_scope.
Delimit Scope db_scope with db.
Notation "'do*' x '<-' c ';' k" := (bindM c (fun x => k))
  (at level 10, x name, c at level 100, k at level 200) : db_scope.

Module Store.

Definition unreachable : JsError := StoreError "store unreachable".

Definition guard {A} (f : Db -> A * Db) : DbM A :=
  fun db => if reachable db
            then let (a, db') := f db in (Return a, db')
            else (Throw unreachable, db).

Definition User_findById (id : string) : DbM (option IUser) :=
  guard (fun db => (users db !! id, db)).

Definition clearRefreshToken (u : IUser) : IUser :=
  {| _id := _id u; username := username u; email := email u;
     password := password u; role := role u; refreshToken := None |}.

(** [User.findByIdAndUpdate(id, { $unset: { refreshToken: 1 } })]. *)
Definition User_unsetRefreshToken (id : string) : DbM unit :=
  guard (fun db =>
    (tt, {| users := alter clearRefreshToken id (users db);
            posts := posts db; comments := comments db;
            reachable := reachable db |})).

Definition Post_findById (id : string) : DbM (option IPost) :=
  guard (fun db => (posts db !! id, db)).

(** [Comment.deleteMany({ post: id })]. *)
Definition Comment_deleteMany_post (id : string) : DbM unit :=
  guard (fun db =>
    (tt, {| users := users db; posts := posts db;
            comments := filter (fun kc => comment_post (snd kc) <> id) (comments db);
            reachable := reachable db |})).

Definition Post_findByIdAndDelete (id : string) : DbM unit :=
  guard (fun db =>
    (tt, {| users := users db; posts := delete id (posts db);
            comments := comments db; reachable := reachable db |})).

End Store.

(* ===================================================================== *)
(** ** Token utilities ([src/utils/jwt.ts]) *)
(* ===================================================================== *)

(** The [jsonwebtoken] package is an external collaborator:
    [jwt_verify token secret] returns the decoded payload or throws
    (bad signature, expired, wrong issuer or audience, malformed). *)
Class JwtLib : Type := {
  jwt_verify : string -> string -> Completion TokenPayload
}.

Module JWTUtils.

Definition accessTokenSecret : string := "access-secret".
Definition refreshTokenSecret : string := "refresh-secret".

Definition verifyAccessToken `{JwtLib} (token : string) : option TokenPayload :=
  match jwt_verify token accessTokenSecret with
  | Return decoded => Some decoded
  | Throw _ => None
  end.

Definition verifyRefreshToken `{JwtLib} (token : string) : option TokenPayload :=
  match jwt_verify token refreshTokenSecret with
  | Return decoded => Some decoded
  | Throw _ => None
  end.

Definition extractTokenFromHeader (authHeader : option string) : option string :=
  match authHeader with
  | None => None
  | Some h =>
      if String.eqb h "" then None
      else match Js.splitSpace h with
           | [p0; p1] => if String.eqb p0 "Bearer" then Some p1 else None
           | _ => None
           end
  end.

End JWTUtils.

(* ===================================================================== *)
(** ** Authentication middleware ([src/middleware/auth.ts]) *)
(* ===================================================================== *)

Module Auth.

(** The inbound request, reduced to its header table. *)
Record Request : Type := mkRequest {
  headers : list (string * string)
}.

Fixpoint header (name : string) (hs : list (string * string)) : option string :=
  match hs with
  | [] => None
  | (k, v) :: rest => if String.eqb k name then Some v else header name rest
  end.

(** [a || b] on possibly absent strings. *)
Definition orElse (a b : option string) : option string :=
  match a with
  | Some s => if String.eqb s "" then b else Some s
  | None => b
  end.

(** [req.headers.authorization || req.headers.Authorization]. *)
Definition authHeaderOf (req : Request) : option string :=
  orElse (header "authorization" (headers req))
         (header "Authorization" (headers req)).

Definition createContext `{JwtLib} (req : Request) : DbM GraphQLContext :=
  let authHeader := authHeaderOf req in
  match JWTUtils.extractTokenFromHeader authHeader with
  | None => retM anonymous
  | Some token =>
      if String.eqb token "" then retM anonymous
      else
        tryCatchM
          (match JWTUtils.verifyAccessToken token with
           | None => retM anonymous
           | Some payload =>
               (do* found <- Store.User_findById (userId payload);
                match found with
                | None => retM anonymous
                | Some u => retM (authenticated u)
                end)%db
           end)
          (fun _ => retM anonymous)
  end.

Definition requireAuth (context : JsVal) : Completion JsVal :=
  if negb (Js.truthy context)
  then Throw (AuthenticationError "You must be logged in to perform this action")
  else Js.getProp context "user".

Definition requireRole (user : JsVal) (requiredRoles : list string)
  : Completion JsVal :=
  (let* _ := requireAuth user in
   let* r := Js.getProp user "role" in
   if negb (Js.includes requiredRoles r)
   then Throw (AuthenticationError
                 ("Insufficient permissions. Required roles: "
                  ++ Js.join ", " requiredRoles))
   else Return user)%js.

Definition requireAdmin (user : JsVal) : Completion JsVal :=
  requireRole user ["admin"].

Definition requireOwnership (user : JsVal) (resourceUserId : string)
  : Completion JsVal :=
  (let* _ := requireAuth user in
   let* r := Js.getProp user "role" in
   let* mismatch :=
     if negb (Js.strictEqStr r "admin")
     then (let* id := Js.getProp user "_id" in
           let* s := Js.toString id in
           Return (negb (String.eqb s resourceUserId)))
     else Return false in
   if mismatch
   then Throw (AuthenticationError "You can only access your own resources")
   else Return user)%js.


End Auth.

(* ===================================================================== *)
(** ** Resolvers ([src/schema/resolvers]) *)
(* ===================================================================== *)

Module AuthResolver.

(** [Query.me]. *)
Definition me (context : GraphQLContext) : Completion JsVal :=
  (let* user := Auth.requireAuth (context_js context) in
   Return user)%js.

(** [Mutation.logout]. An [_id] that is not an identifier matches no
    document, and the update then changes nothing. *)
Definition logout (context : GraphQLContext) : DbM bool :=
  tryCatchM
    (do* user <- liftM (Auth.requireAuth (context_js context));
     do* id <- liftM (Js.getProp user "_id");
     do* _ <- match id with
              | JsStr i => Store.User_unsetRefreshToken i
              | _ => Store.guard (fun db => (tt, db))
              end;
     retM true)%db
    (fun _ => throwM (GraphQLError "Logout failed"
                        [("code", JsStr "LOGOUT_FAILED")])).

Definition invalidRefreshToken : JsError :=
  GraphQLError "Invalid refresh token" [("code", JsStr "INVALID_REFRESH_TOKEN")].

Definition isGraphQLError (e : JsError) : bool :=
  match e with
  | GraphQLError _ _ => true
  | _ => false
  end.

(** [Mutation.refreshToken]: the stored refresh token is read with
    [select("+refreshToken")] and compared with the presented one. The
    result is the payload the new access token is signed over. *)
Definition refreshToken_ `{JwtLib} (presented : string) : DbM TokenPayload :=
  tryCatchM
    (match JWTUtils.verifyRefreshToken presented with
     | None => throwM invalidRefreshToken
     | Some payload =>
         (do* found <- Store.User_findById (userId payload);
          match found with
          | None => throwM invalidRefreshToken
          | Some u =>
              match refreshToken u with
              | Some stored =>
                  if String.eqb stored presented
                  then retM {| userId := _id u;
                               payload_username := username u;
                               payload_email := email u;
                               payload_role := role u |}
                  else throwM invalidRefreshToken
              | None => throwM invalidRefreshToken
              end
          end)%db
     end)
    (fun e => if isGraphQLError e then throwM e
              else throwM (GraphQLError "Token refresh failed"
                             [("code", JsStr "TOKEN_REFRESH_FAILED")])).

End AuthResolver.

Module UserResolver.

(** The guard that opens [Mutation.deleteUser] and
    [Mutation.updateUserRole]: [const adminUser = requireAdmin(context)]. *)
Definition adminGate (context : GraphQLContext) : Completion JsVal :=
  Auth.requireAdmin (context_js context).

End UserResolver.

Module PostResolver.

Definition postNotFound : JsError :=
  GraphQLError "Post not found" [("code", JsStr "POST_NOT_FOUND")].

(** The role test the resolvers write inline:
    [user.role !== "ADMIN"] in [Query.post] and its siblings. *)
Definition roleIsAdmin (u : IUser) : bool :=
  Js.strictEqStr (Js.assoc "role" match user_js u with
                                  | JsObj props => props
                                  | _ => []
                                  end) "ADMIN".

(** [Query.post]: the unpublished-post visibility rule.
    [populate("author")] replaces the reference by the author's
    document, or by [null] when there is none; [populated] is what
    [toString()] yields on such a document. The comparison reads
    [user._id], then [post.author.toString()], and the role last. *)
Definition post (populated : IUser -> string) (id : string)
  (context : GraphQLContext) : DbM IPost :=
  (do* found <- Store.Post_findById id;
   match found with
   | None => throwM postNotFound
   | Some p =>
       do* authorDoc <- Store.User_findById (author p);
       if negb (published p) then
         if negb (isAuthenticated context) then throwM postNotFound
         else match user context with
              | None => throwM (TypeError
                  "Cannot read properties of undefined (reading '_id')")
              | Some u =>
                  match authorDoc with
                  | None => throwM (TypeError
                      "Cannot read properties of null (reading 'toString')")
                  | Some a =>
                      if negb (String.eqb (_id u) (populated a))
                         && negb (roleIsAdmin u)
                      then throwM postNotFound
                      else retM p
                  end
              end
       else retM p
   end)%db.

(** [Mutation.deletePost]. *)
Definition deletePost (id : string) (context : GraphQLContext) : DbM bool :=
  (do* found <- Store.Post_findById id;
   match found with
   | None => throwM postNotFound
   | Some p =>
       do* _ <- liftM (Auth.requireOwnership (context_js context) (author p));
       do* _ <- Store.Comment_deleteMany_post id;
       do* _ <- Store.Post_findByIdAndDelete id;
       retM true
   end)%db.

End PostResolver.

(* ===================================================================== *)
(** ** [JSON.stringify] *)
(* ===================================================================== *)

Module Json.

Definition dquote : ascii := "034"%char.
Definition backslash : ascii := "092"%char.

Definition hexDigit (n : N) : ascii :=
  if N.ltb n 10 then ascii_of_N (48 + n) else ascii_of_N (87 + n).

(** [QuoteJSONString] on one code unit: the two-character escapes, then
    [\u00xx] for the remaining control characters, else the unit itself. *)
Definition escapeChar (c : ascii) : string :=
  let n := N_of_ascii c in
  if Ascii.eqb c dquote then String backslash (String dquote "")
  else if Ascii.eqb c backslash then String backslash (String backslash "")
  else if N.eqb n 8 then String backslash "b"
  else if N.eqb n 9 then String backslash "t"
  else if N.eqb n 10 then String backslash "n"
  else if N.eqb n 12 then String backslash "f"
  else if N.eqb n 13 then String backslash "r"
  else if N.ltb n 32 then
    String backslash
      (String "u" (String "0" (String "0"
        (String (hexDigit (N.div n 16)) (String (hexDigit (N.modulo n 16)) "")))))
  else String c "".

Fixpoint escape (s : string) : string :=
  match s with
  | EmptyString => ""
  | String c rest => escapeChar c ++ escape rest
  end.

Definition quote (s : string) : string :=
  String dquote (escape s ++ String dquote "").

Definition isUndefined (v : JsVal) : bool :=
  match v with
  | JsUndefined => true
  | _ => false
  end.

(** [JSON.stringify] on a value in element or property position
    ([undefined] prints as [null] inside an array; a property whose value
    is [undefined] is left out). A finite number prints as
    [Number::toString] has it, so [-0] prints as [0]; [NaN] and the
    infinities print as [null]. *)
Fixpoint stringify (v : JsVal) : string :=
  match v with
  | JsUndefined | JsNull => "null"
  | JsBool true => "true"
  | JsBool false => "false"
  | JsNum x => if Num.isFinite x then Num.toString x else "null"
  | JsStr s => quote s
  | JsArr items =>
      "[" ++ (fix elements (first : bool) (l : list JsVal) : string :=
                match l with
                | [] => ""
                | x :: rest =>
                    (if first then "" else ",") ++ stringify x
                      ++ elements false rest
                end) true items ++ "]"
  | JsObj props =>
      "{" ++ (fix members (first : bool) (l : list (string * JsVal)) : string :=
                match l with
                | [] => ""
                | (k, x) :: rest =>
                    if isUndefined x then members first rest
                    else (if first then "" else ",") ++ quote k ++ ":"
                           ++ stringify x ++ members false rest
                end) true props ++ "}"
  end.

Fixpoint elements (first : bool) (l : list JsVal) : string :=
  match l with
  | [] => ""
  | x :: rest =>
      (if first then "" else ",") ++ stringify x ++ elements false rest
  end.

Fixpoint members (first : bool) (l : list (string * JsVal)) : string :=
  match l with
  | [] => ""
  | (k, x) :: rest =>
      if isUndefined x then members first rest
      else (if first then "" else ",") ++ quote k ++ ":"
             ++ stringify x ++ members false rest
  end.

(** Values with no [undefined] anywhere and whose numbers are doubles;
    what [JSON.parse] produces is of this kind. *)
Fixpoint isJson (v : JsVal) : bool :=
  match v with
  | JsUndefined => false
  | JsNull | JsBool _ | JsStr _ => true
  | JsNum x => Num.valid x
  | JsArr items => forallb isJson items
  | JsObj props => forallb (fun kv => isJson (snd kv)) props
  end.

(** What [stringify] keeps of a value: the sign of a zero is dropped,
    and a number that is not finite becomes [null]. *)
Fixpoint normalize (v : JsVal) : JsVal :=
  match v with
  | JsNum x =>
      if Num.isFinite x
      then if Num.isZero x then JsNum (Zero false) else v
      else JsNull
  | JsArr items => JsArr (List.map normalize items)
  | JsObj props =>
      JsObj (List.map (fun kv => (fst kv, normalize (snd kv))) props)
  | _ => v
  end.

(** Values that [stringify] keeps as they are: every number finite and
    no [-0]. *)
Fixpoint lossless (v : JsVal) : bool :=
  match v with
  | JsNum x => Num.isFinite x && negb (Num.eqb x (Zero true))
  | JsArr items => forallb lossless items
  | JsObj props => forallb (fun kv => lossless (snd kv)) props
  | _ => true
  end.

(** *** Reading the output back

    The functions below are not part of the program: they decode what
    [stringify] writes and are used to show that it loses nothing. *)

Definition hexValue (c : ascii) : N :=
  let n := N_of_ascii c in
  if N.ltb n 58 then n - 48 else n - 87.

(** One source character off the front of an escaped string; [None] at
    the closing quote. *)
Definition unescapeChar (s : string) : option (ascii * string) :=
  match s with
  | EmptyString => None
  | String c rest =>
      if Ascii.eqb c dquote then None
      else if Ascii.eqb c backslash then
        match rest with
        | String e rest' =>
            if Ascii.eqb e dquote then Some (dquote, rest')
            else if Ascii.eqb e backslash then Some (backslash, rest')
            else if Ascii.eqb e "b" then Some (ascii_of_N 8, rest')
            else if Ascii.eqb e "t" then Some (ascii_of_N 9, rest')
            else if Ascii.eqb e "n" then Some (ascii_of_N 10, rest')
            else if Ascii.eqb e "f" then Some (ascii_of_N 12, rest')
            else if Ascii.eqb e "r" then Some (ascii_of_N 13, rest')
            else match rest' with
                 | String _ (String _ (String h (String l rest''))) =>
                     Some (ascii_of_N (16 * hexValue h + hexValue l), rest'')
                 | _ => None
                 end
        | EmptyString => None
        end
      else Some (c, rest)
  end.

Inductive Kind : Type := KNull | KTrue | KFalse | KNum | KStr | KArr | KObj.

Definition kindOf (v : JsVal) : Kind :=
  match v with
  | JsUndefined | JsNull => KNull
  | JsBool true => KTrue
  | JsBool false => KFalse
  | JsNum x => if Num.isFinite x then KNum else KNull
  | JsStr _ => KStr
  | JsArr _ => KArr
  | JsObj _ => KObj
  end.

(** The kind of value a text starts, judged by its first character. *)
Definition charKind (c : ascii) : option Kind :=
  if Ascii.eqb c "n" then Some KNull
  else if Ascii.eqb c "t" then Some KTrue
  else if Ascii.eqb c "f" then Some KFalse
  else if Ascii.eqb c dquote then Some KStr
  else if Ascii.eqb c "[" then Some KArr
  else if Ascii.eqb c "{" then Some KObj
  else if Ascii.eqb c "-" || Num.isDigit c then Some KNum
  else None.

(** What may follow a value: nothing, or a character that starts no
    value and continues no number. *)
Definition delimited (r : string) : bool :=
  match r with
  | EmptyString => true
  | String c _ =>
      match charKind c with
      | Some _ => false
      | None => negb (Num.isNumberChar c)
      end
  end.

Definition defined (kv : string * JsVal) : bool := negb (isUndefined (snd kv)).

(** A value whose text, followed by a delimiter, can only have come
    from a value with the same normal form. *)
Definition uniquelyReadable (v1 : JsVal) : Prop :=
  forall v2 r1 r2,
    isJson v1 = true -> isJson v2 = true ->
    delimited r1 = true -> delimited r2 = true ->
    stringify v1 ++ r1 = stringify v2 ++ r2 ->
    normalize v1 = normalize v2 /\ r1 = r2.

End Json.

(* ===================================================================== *)
(** ** The operation document and the request *)
(* ===================================================================== *)

(** A field of the parsed operation: its name, the [complexity] number
    the schema attaches to the field definition, if any, and its
    selection set. *)
Inductive Selection : Type :=
| Field (fieldName : string) (extension : option Z)
        (selectionSet : list Selection).

Inductive OperationType : Type := OpQuery | OpMutation | OpSubscription.

(** The operation the server resolved in the document: its kind, its
    name ([null] for an anonymous operation) and its selection set. *)
Record Document : Type := mkDocument {
  operation : OperationType;
  name : option string;
  selections : list Selection
}.

Record GraphQLRequest : Type := mkGraphQLRequest {
  query : option string;
  variables : option JsVal;
  operationName : option string
}.

(** A header value; the plugins pass strings only. *)
Inductive HeaderValue : Type :=
| Text (s : string).

Record Http : Type := mkHttp {
  status : option Z;
  http_headers : list (string * HeaderValue)
}.

Inductive ResponseBody : Type :=
| Single (singleResult : JsVal)
| Incremental.

Record GraphQLResponse : Type := mkResponse {
  body : ResponseBody;
  http : option Http
}.

(* ===================================================================== *)
(** ** The cost gate ([src/plugins/complexityAnalysis.ts]) *)
(* ===================================================================== *)

Module ComplexityAnalysis.

Record ComplexityAnalysisConfig : Type := mkConfig {
  maximumComplexity : Z;
  maximumDepth : Z;
  scalarCost : Z;
  objectCost : Z;
  listFactor : Z;
  introspectionCost : Z;
  createError : Z -> Z -> JsError;
  onComplete : option (Z -> Z -> Completion unit)
}.

(** [Partial<ComplexityAnalysisConfig>]. *)
Record PartialConfig : Type := mkPartial {
  p_maximumComplexity : option Z;
  p_maximumDepth : option Z;
  p_scalarCost : option Z;
  p_objectCost : option Z;
  p_listFactor : option Z;
  p_introspectionCost : option Z;
  p_createError : option (Z -> Z -> JsError);
  p_onComplete : option (Z -> Z -> Completion unit)
}.

Definition defaultCreateError (max actual : Z) : JsError :=
  GraphQLError
    ("Query complexity limit of " ++ Num.toString (Num.ofZ max)
       ++ " exceeded, found " ++ Num.toString (Num.ofZ actual) ++ ".")
    [("code", JsStr "QUERY_COMPLEXITY_LIMIT_EXCEEDED");
     ("complexity", JsNum (Num.ofZ actual));
     ("maxComplexity", JsNum (Num.ofZ max))].

Definition defaultConfig : ComplexityAnalysisConfig :=
  {| maximumComplexity := 1000;
     maximumDepth := 10;
     scalarCost := 1;
     objectCost := 2;
     listFactor := 10;
     introspectionCost := 1000;
     createError := defaultCreateError;
     onComplete := None |}.

(** [{ ...defaultConfig, ...config }]. *)
Definition finalConfig (config : PartialConfig) : ComplexityAnalysisConfig :=
  {| maximumComplexity :=
       default (maximumComplexity defaultConfig) (p_maximumComplexity config);
     maximumDepth := default (maximumDepth defaultConfig) (p_maximumDepth config);
     scalarCost := default (scalarCost defaultConfig) (p_scalarCost config);
     objectCost := default (objectCost defaultConfig) (p_objectCost config);
     listFactor := default (listFactor defaultConfig) (p_listFactor config);
     introspectionCost :=
       default (introspectionCost defaultConfig) (p_introspectionCost config);
     createError := default (createError defaultConfig) (p_createError config);
     onComplete := p_onComplete config |}.

Definition emptyPartial : PartialConfig :=
  mkPartial None None None None None None None None.

(** The configuration [src/app.ts] installs. *)
Definition appConfig : PartialConfig :=
  mkPartial (Some 500) None None None None None None None.

(** [getComplexity] with the estimator chain
    [fieldExtensionsEstimator(), simpleEstimator({defaultComplexity})]:
    a field costs the number its definition carries, else the default,
    plus the cost of its selection set. The cost of a selection set is
    the sum over its fields, and never below 0: the library returns
    [Math.max(sum, 0)] for every selection set, the operation's own
    included. *)
Fixpoint fieldComplexity (defaultComplexity : Z) (s : Selection) : Z :=
  match s with
  | Field _ ext sel =>
      default defaultComplexity ext
      + Z.max ((fix sum (l : list Selection) : Z :=
                  match l with
                  | [] => 0
                  | x :: rest => fieldComplexity defaultComplexity x + sum rest
                  end) sel) 0
  end.

Fixpoint sumComplexity (defaultComplexity : Z) (l : list Selection) : Z :=
  match l with
  | [] => 0
  | x :: rest =>
      fieldComplexity defaultComplexity x + sumComplexity defaultComplexity rest
  end.

Definition nodeComplexity (defaultComplexity : Z) (l : list Selection) : Z :=
  Z.max (sumComplexity defaultComplexity l) 0.

Definition getComplexity (defaultComplexity : Z) (d : Document) : Z :=
  nodeComplexity defaultComplexity (selections d).

(** Nesting depth as [graphql-depth-limit] measures it: a leaf field is
    at depth 0, a field with a selection set is one deeper than its
    deepest child. *)
Fixpoint fieldDepth (s : Selection) : nat :=
  match s with
  | Field _ _ sel =>
      match sel with
      | [] => O
      | _ => S ((fix deepest (l : list Selection) : nat :=
                   match l with
                   | [] => O
                   | x :: rest => Nat.max (fieldDepth x) (deepest rest)
                   end) sel)
      end
  end.

Fixpoint deepest (l : list Selection) : nat :=
  match l with
  | [] => O
  | x :: rest => Nat.max (fieldDepth x) (deepest rest)
  end.

Definition queryDepth (d : Document) : nat := deepest (selections d).

Definition isGraphQLError (e : JsError) : bool :=
  match e with
  | GraphQLError _ _ => true
  | _ => false
  end.

(** The [didResolveOperation] hook. The depth rule is built
    ([depthValidationRules]) and not used afterwards; the completion
    callback, when the configuration has one, is called inside the
    [try], so what it throws goes through the [catch] as well. *)
Definition didResolveOperation (cfg : ComplexityAnalysisConfig)
  (request : GraphQLRequest) (document : Document) : Completion unit :=
  tryCatch
    (let complexity := getComplexity (scalarCost cfg) document in
     if Z.ltb (maximumComplexity cfg) complexity
     then Throw (createError cfg (maximumComplexity cfg) complexity)
     else
       let depthValidationRules := [maximumDepth cfg] in
       match onComplete cfg with
       | Some callback =>
           (let* _ := callback complexity (maximumDepth cfg) in Return tt)%js
       | None => Return tt
       end)
    (fun error =>
       if isGraphQLError error then Throw error
       else Throw (GraphQLError "Query complexity analysis failed"
                     [("code", JsStr "COMPLEXITY_ANALYSIS_ERROR")])).

End ComplexityAnalysis.

(* ===================================================================== *)
(** ** The response cache ([src/plugins/caching.ts]) *)
(* ===================================================================== *)

Module Caching.

(** The Redis keyspace: a value and the instant (in milliseconds) at
    which the server drops it. *)
Definition setex (now : Z) (key : string) (seconds : Z) (value : string)
  (redis : gmap string (string * Z)) : gmap string (string * Z) :=
  <[key := (value, now + 1000 * seconds)]> redis.

Definition get (now : Z) (key : string) (redis : gmap string (string * Z))
  : option string :=
  match redis !! key with
  | Some (value, expires) => if Z.ltb now expires then Some value else None
  | None => None
  end.

Record CacheConfig : Type := mkCacheConfig {
  defaultTTL : Z;
  keyPrefix : string;
  enableCompression : bool;
  maxCacheSize : Z;
  cachableOperations : list string;
  skipCache : option string -> bool
}.

(** [a || b] on numbers. *)
Definition orNum (a b : Z) : Z := if Z.eqb a 0 then b else a.

Definition optStr (s : option string) : JsVal :=
  match s with
  | Some t => JsStr t
  | None => JsUndefined
  end.

Definition strOr (s : option string) (d : string) : string :=
  match s with
  | Some t => if String.eqb t "" then d else t
  | None => d
  end.

Definition truthyStr (s : option string) : bool :=
  match s with
  | Some t => negb (String.eqb t "")
  | None => false
  end.

(** The policy of [defaultConfig.skipCache]. *)
Definition defaultSkipCache (operationName : option string) : bool :=
  existsb (String.eqb (strOr operationName ""))
          ["me"; "currentUser"; "notifications"].

(** The configuration [src/app.ts] installs. *)
Definition appCacheConfig : CacheConfig :=
  {| defaultTTL := 300;
     keyPrefix := "graphql:cache:";
     enableCompression := true;
     maxCacheSize := 1024 * 1024;
     cachableOperations := ["query"];
     skipCache := fun opName =>
       existsb (String.eqb (strOr opName "")) ["me"; "notifications"] |}.

Definition keyData (request : GraphQLRequest) : JsVal :=
  JsObj [("query", optStr (query request));
         ("variables", default JsUndefined (variables request));
         ("operationName", optStr (operationName request))].

(** The variables of a request come out of [JSON.parse]. *)
Definition wellFormed (request : GraphQLRequest) : bool :=
  match variables request with
  | Some v => Json.isJson v
  | None => true
  end.

(** Requests whose variables [JSON.stringify] keeps as they are. *)
Definition lossless (request : GraphQLRequest) : bool :=
  match variables request with
  | Some v => Json.lossless v
  | None => true
  end.

(** The request as its fingerprint sees it. *)
Definition normalizeRequest (request : GraphQLRequest) : GraphQLRequest :=
  {| query := query request;
     variables := option_map Json.normalize (variables request);
     operationName := operationName request |}.

Definition generateCacheKey `{CodecLib} (request : GraphQLRequest) : string :=
  sha256_hex (Json.stringify (keyData request)).

Definition setHeader (name : string) (value : HeaderValue)
  (hs : list (string * HeaderValue)) : list (string * HeaderValue) :=
  (name, value)
    :: List.filter (fun kv => negb (String.eqb (fst kv) name)) hs.

Definition strLen (s : string) : Z := Z.of_nat (String.length s).

(** The [willSendResponse] hook at instant [now]: the response (with
    its headers possibly set) and the keyspace afterwards. *)
Definition willSendResponse `{CodecLib} (cfg : CacheConfig) (now : Z)
  (request : GraphQLRequest) (response : GraphQLResponse)
  (redis : gmap string (string * Z))
  : GraphQLResponse * gmap string (string * Z) :=
  match body response with
  | Single singleResult =>
      match Js.getProp singleResult "errors" with
      | Throw _ => (response, redis)
      | Return errors =>
          if truthyStr (operationName request)
             && negb (Js.truthy errors)
             && Js.includes (cachableOperations cfg) (optStr (operationName request))
             && negb (skipCache cfg (operationName request))
          then
            let cacheKey := generateCacheKey request in
            let ttl := orNum (defaultTTL cfg) 300 in
            let cacheData :=
              JsObj [("data", singleResult);
                     ("timestamp", JsNum (Num.ofZ now));
                     ("ttl", JsNum (Num.ofZ ttl))] in
            let plain := Json.stringify cacheData in
            let serializedData :=
              if enableCompression cfg && Z.ltb 1000 (strLen plain)
              then if Z.ltb (Z.of_nat (gzip_length plain)) (strLen plain)
                   then gzip_base64 plain
                   else plain
              else plain in
            if Z.leb (strLen serializedData) (orNum (maxCacheSize cfg) 1000000)
            then
              let redis' :=
                setex now (keyPrefix cfg ++ cacheKey) ttl serializedData redis in
              match http response with
              | Some h =>
                  ({| body := body response;
                      http := Some
                        {| status := status h;
                           http_headers :=
                             setHeader "X-Cache-TTL"
                               (Text (Num.toString (Num.ofZ (defaultTTL cfg))))
                               (setHeader "X-Cache" (Text "MISS")
                                  (http_headers h)) |} |},
                   redis')
              | None => (response, redis')
              end
            else (response, redis)
          else (response, redis)
      end
  | Incremental => (response, redis)
  end.

(** A stored entry as the read path uses it: the three properties it
    reads off the parsed text, whatever they hold. *)
Record CacheEntry : Type := mkEntry {
  data : JsVal;
  timestamp : JsVal;
  ttl : JsVal
}.

(** The property reads of the read path, in its order; they throw on
    a parsed [null]. *)
Definition entryOf (parsed : JsVal) : Completion CacheEntry :=
  (let* t := Js.getProp parsed "timestamp" in
   let* l := Js.getProp parsed "ttl" in
   let* d := Js.getProp parsed "data" in
   Return {| data := d; timestamp := t; ttl := l |})%js.

(** [JSON.parse(cached)], and on failure the gunzip of its base64. *)
Definition decode `{CodecLib} (cached : string) : Completion JsVal :=
  tryCatch (JSON_parse cached)
           (fun _ => bindC (gunzip_base64 cached) JSON_parse).

(** [(now - cacheData.timestamp) / 1000], in seconds. *)
Definition age `{CodecLib} (now : Z) (e : CacheEntry) : Number :=
  Num.div (Num.sub (Num.ofZ now) (Js.toNumber (timestamp e))) (Num.ofZ 1000).

Definition hitResponse `{CodecLib} (now : Z) (e : CacheEntry) : GraphQLResponse :=
  {| body := Single (data e);
     http := Some
       {| status := Some 200;
          http_headers :=
            [("X-Cache", Text "HIT");
             ("X-Cache-Age", Text (Num.toString (Num.floor (age now e))));
             ("X-Cache-TTL",
              Text (Num.toString (Num.sub (Js.toNumber (ttl e)) (age now e))))] |} |}.

(** The [responseForOperation] hook at instant [now]: [Some] response
    short-circuits execution, [None] is the hook's [null]. *)
Definition responseForOperation `{CodecLib} (cfg : CacheConfig) (now : Z)
  (request : GraphQLRequest) (operationName : option string)
  (redis : gmap string (string * Z)) : option GraphQLResponse :=
  if truthyStr operationName
     && Js.includes (cachableOperations cfg) (JsStr "query")
     && negb (skipCache cfg operationName)
  then
    let cacheKey := generateCacheKey request in
    match get now (keyPrefix cfg ++ cacheKey) redis with
    | Some cached =>
        if String.eqb cached "" then None
        else
          match bindC (decode cached) entryOf with
          | Return cacheData =>
              if Num.ltb (age now cacheData) (Js.toNumber (ttl cacheData))
              then Some (hitResponse now cacheData)
              else None
          | Throw _ => None
          end
    | None => None
    end
  else None.

End Caching.

(* ===================================================================== *)
(** ** The request pipeline ([src/app.ts]) *)
(* ===================================================================== *)

(** Execution proper belongs to the GraphQL engine: it runs the
    resolvers of the operation against the store and reports how many
    resolver calls it made. *)
Class Engine : Type := {
  execute : Document -> GraphQLRequest -> GraphQLContext -> Db
            -> JsVal * nat * Db
}.

Module Pipeline.

Inductive Outcome : Type :=
| Rejected (error : JsError)
| FromCache (response : GraphQLResponse)
| Executed (response : GraphQLResponse) (invocations : nat).

Record World : Type := mkWorld {
  db : Db;
  redis : gmap string (string * Z)
}.

Definition resolverInvocations (o : Outcome) : nat :=
  match o with
  | Rejected _ | FromCache _ => O
  | Executed _ n => n
  end.



Definition header (name : string) (o : Outcome) : option HeaderValue :=
  match o with
  | Rejected _ => None
  | FromCache r | Executed r _ =>
      match http r with
      | Some h =>
          match List.find (fun kv => String.eqb (fst kv) name) (http_headers h) with
          | Some kv => Some (snd kv)
          | None => None
          end
      | None => None
      end
  end.

(** One operation through the server, in the order of the server's
    request pipeline: context, [didResolveOperation] of the cost gate
    (a throw ends the request with a top-level error: the engine is not
    entered, and the cache write skips a result that has errors),
    [responseForOperation] of the cache, execution if that returned
    [null], and [willSendResponse] of the cache on whichever response
    goes out. *)
Definition processRequest `{JwtLib} `{CodecLib} `{Engine}
  (ccfg : ComplexityAnalysis.ComplexityAnalysisConfig)
  (kcfg : Caching.CacheConfig) (now : Z)
  (req : Auth.Request) (request : GraphQLRequest) (document : Document)
  (w : World) : Outcome * World :=
  let '(ctx, db1) :=
    match Auth.createContext req (db w) with
    | (Return c, d) => (c, d)
    | (Throw _, d) => (anonymous, d)
    end in
  match ComplexityAnalysis.didResolveOperation ccfg request document with
  | Throw e => (Rejected e, {| db := db1; redis := redis w |})
  | Return _ =>
      match Caching.responseForOperation kcfg now request
              (name document) (redis w) with
      | Some cached =>
          let '(sent, redis') :=
            Caching.willSendResponse kcfg now request cached (redis w) in
          (FromCache sent, {| db := db1; redis := redis' |})
      | None =>
          let '(result, calls, db2) := execute document request ctx db1 in
          let live := {| body := Single result;
                         http := Some {| status := None; http_headers := [] |} |} in
          let '(sent, redis') :=
            Caching.willSendResponse kcfg now request live (redis w) in
          (Executed sent calls, {| db := db2; redis := redis' |})
      end
  end.

End Pipeline.

(* ===================================================================== *)
(** ** Password change ([src/services/authService.ts]) *)
(* ===================================================================== *)

Class PasswordLib : Type := {
  bcrypt_hash : string -> string;
  bcrypt_compare : string -> string -> bool
}.

Module AuthService.

Definition setPassword (hashed : string) (u : IUser) : IUser :=
  {| _id := _id u; username := username u; email := email u;
     password := hashed; role := role u; refreshToken := None |}.

(** [logout(userId)]. *)
Definition logout (userId : string) : DbM bool :=
  (do* _ <- Store.User_unsetRefreshToken userId; retM true)%db.

(** [changePassword(userId, currentPassword, newPassword)]: the update
    sets the new hash and unsets [refreshToken]. *)
Definition changePassword `{PasswordLib} (userId currentPassword newPassword : string)
  : DbM bool :=
  (do* found <- Store.User_findById userId;
   match found with
   | None => throwM (AuthenticationError "User not found")
   | Some u =>
       if negb (bcrypt_compare currentPassword (password u))
       then throwM (AuthenticationError "Current password is incorrect")
       else
         do* _ <- Store.guard (fun db =>
                    (tt, {| users := alter (setPassword (bcrypt_hash newPassword))
                                           userId (users db);
                            posts := posts db; comments := comments db;
                            reachable := reachable db |}));
         retM true
   end)%db.

End AuthService.

(* ===================================================================== *)
(** ** Concrete data used to run the definitions *)
(* ===================================================================== *)

Module Fixtures.

Definition alice : IUser :=
  {| _id := "u1"; username := "alice"; email := "alice@example.com";
     password := "hash:alice-pw"; role := USER;
     refreshToken := Some "refresh-alice" |}.

Definition root : IUser :=
  {| _id := "u0"; username := "admin"; email := "admin@example.com";
     password := "hash:admin123"; role := ADMIN;
     refreshToken := Some "refresh-root" |}.

Definition post1 : IPost :=
  {| post_id := "p1"; title := "Getting Started with GraphQL";
     content := "GraphQL is a query language for APIs";
     author := "u1"; tags := ["graphql"]; published := true |}.

Definition comment1 : IComment :=
  {| comment_id := "c1"; comment_content := "Nice post";
     comment_author := "u0"; comment_post := "p1" |}.

Definition db0 : Db :=
  {| users := <["u0" := root]> (<["u1" := alice]> ∅);
     posts := <["p1" := post1]> ∅;
     comments := <["c1" := comment1]> ∅;
     reachable := true |}.

Definition alicePayload : TokenPayload :=
  {| userId := "u1"; payload_username := "alice";
     payload_email := "alice@example.com"; payload_role := USER |}.

(** A verifier that accepts one access token and one refresh token. *)
Definition toyVerify (token secret : string) : Completion TokenPayload :=
  if String.eqb token "tok-alice" && String.eqb secret JWTUtils.accessTokenSecret
  then Return alicePayload
  else if String.eqb token "refresh-alice"
          && String.eqb secret JWTUtils.refreshTokenSecret
  then Return alicePayload
  else Throw (TypeError "JsonWebTokenError: invalid token").

Definition toyJwt : JwtLib := {| jwt_verify := toyVerify |}.

Definition toyPassword : PasswordLib :=
  {| bcrypt_hash := fun p => "hash:" ++ p;
     bcrypt_compare := fun p h => String.eqb ("hash:" ++ p) h |}.

Definition aliceRequest : Auth.Request :=
  {| Auth.headers := [("authorization", "Bearer tok-alice")] |}.

Definition bareRequest : Auth.Request := {| Auth.headers := [] |}.

(** [{ a { a { ... { a } } } }] with [n] nested selection sets. *)
Fixpoint chain (n : nat) : Selection :=
  match n with
  | O => Field "id" None []
  | S k => Field "author" None [chain k]
  end.

Definition deepQuery : Document :=
  {| operation := OpQuery; name := Some "Deep"; selections := [chain 12] |}.

Definition deepRequest : GraphQLRequest :=
  {| query := Some "query Deep { author { author { id } } }";
     variables := None; operationName := Some "Deep" |}.

Definition getPostsRequest : GraphQLRequest :=
  {| query := Some "query GetPosts { posts { totalCount } }";
     variables := None; operationName := Some "GetPosts" |}.

Definition getPostsDocument : Document :=
  {| operation := OpQuery; name := Some "GetPosts";
     selections := [Field "posts" None [Field "totalCount" None []]] |}.

Definition getPostsResult : JsVal :=
  JsObj [("data", JsObj [("posts", JsObj [("totalCount", JsNum (Num.ofZ 3))])])].

(** An engine that answers every operation with the same result and
    calls one resolver per top-level field. *)
Definition toyEngine : Engine :=
  {| execute := fun d _ _ db => (getPostsResult, List.length (selections d), db) |}.

Definition storedEntry : JsVal :=
  JsObj [("data", getPostsResult); ("timestamp", JsNum (Num.ofZ 1000));
         ("ttl", JsNum (Num.ofZ 300))].

(** A codec whose digest is the identity, whose parser knows one
    stored text and which reads no string as a number. *)
Definition toyCodec : CodecLib :=
  {| sha256_hex := fun s => s;
     gzip_length := fun s => String.length s;
     gzip_base64 := fun s => s;
     gunzip_base64 := fun _ => Throw (TypeError "incorrect header check");
     JSON_parse := fun s =>
       if String.eqb s "entry" then Return storedEntry
       else Throw (TypeError "SyntaxError: Unexpected token");
     StringToNumber := fun _ => NaN |}.

Definition world0 : Pipeline.World :=
  {| Pipeline.db := db0; Pipeline.redis := ∅ |}.

Definition entry1 : Caching.CacheEntry :=
  {| Caching.data := getPostsResult;
     Caching.timestamp := JsNum (Num.ofZ 1000);
     Caching.ttl := JsNum (Num.ofZ 300) |}.

(** A keyspace that holds the stored text under the key of
    [getPostsRequest], to be dropped at instant 301000. *)
Definition redis1 : gmap string (string * Z) :=
  <[Caching.keyPrefix Caching.appCacheConfig
      ++ @Caching.generateCacheKey toyCodec getPostsRequest
    := ("entry", 301000)]> ∅.

(** A read operation that is itself named [query]. *)
Definition queryNamedRequest : GraphQLRequest :=
  {| query := Some "query query { posts { totalCount } }";
     variables := None; operationName := Some "query" |}.

Definition queryNamedDocument : Document :=
  {| operation := OpQuery; name := Some "query";
     selections := [Field "posts" None [Field "totalCount" None []]] |}.

(** Requests whose one variable is a zero of either sign, an overflowed
    number ([1e999] reads as [Infinity]) or [null]. *)
Definition offsetRequest (offset : JsVal) : GraphQLRequest :=
  {| query := Some "query GetPosts($offset: Float) { posts(offset: $offset) { totalCount } }";
     variables := Some (JsObj [("offset", offset)]);
     operationName := Some "GetPosts" |}.

Definition world2 : Pipeline.World :=
  {| Pipeline.db := db0;
     Pipeline.redis :=
       <[Caching.keyPrefix Caching.appCacheConfig
           ++ @Caching.generateCacheKey toyCodec queryNamedRequest
         := ("entry", 301000)]> ∅ |}.

End Fixtures.

(* ===================================================================== *)
(** ** The remaining helpers of [src/middleware/auth.ts] *)
(* ===================================================================== *)

Module AuthHelpers.

Definition requireOwnerOrAdmin (user : JsVal) (resourceUserId : string)
  : Completion JsVal :=
  (let* _ := Auth.requireAuth user in
   let* r := Js.getProp user "role" in
   let* mismatch :=
     if negb (Js.strictEqStr r "admin")
     then (let* id := Js.getProp user "_id" in
           let* s := Js.toString id in
           Return (negb (String.eqb s resourceUserId)))
     else Return false in
   if mismatch
   then Throw (AuthenticationError "You can only access your own resources")
   else Return user)%js.

Fixpoint noSpace (s : string) : bool :=
  match s with
  | EmptyString => true
  | String c rest => negb (Ascii.eqb c " ") && noSpace rest
  end.

End AuthHelpers.

(* ===================================================================== *)
(** ** More of the store *)
(* ===================================================================== *)

Record UpdatePostInput : Type := mkUpdatePostInput {
  input_title : option string;
  input_content : option string;
  input_tags : option (list string);
  input_published : option bool
}.

(** What mongoose does to values on their way into a collection, as
    the schemas of [src/models] declare it: the setters ([trim],
    [lowercase]) and, under [runValidators], the validators
    ([maxlength], [required]); a failing validator throws. [castEmail]
    is the cast of an email used as a filter value. *)
Class SchemaLib : Type := {
  castPostUpdate : UpdatePostInput -> IPost -> Completion IPost;
  castCommentUpdate : string -> IComment -> Completion IComment;
  castEmail : string -> string
}.

Module Store2.

Definition withPosts (ps : gmap string IPost) (db : Db) : Db :=
  {| users := users db; posts := ps; comments := comments db;
     reachable := reachable db |}.

Definition withComments (cs : gmap string IComment) (db : Db) : Db :=
  {| users := users db; posts := posts db; comments := cs;
     reachable := reachable db |}.

Definition withUsers (us : gmap string IUser) (db : Db) : Db :=
  {| users := us; posts := posts db; comments := comments db;
     reachable := reachable db |}.

(** [Post.findByIdAndUpdate(id, update, { new: true })]: the updated
    document, [null] when there is none; a rejected update writes
    nothing. *)
Definition Post_findByIdAndUpdate (id : string)
  (update : IPost -> Completion IPost) : DbM (option IPost) :=
  fun db =>
    if reachable db then
      match posts db !! id with
      | None => (Return None, db)
      | Some p =>
          match update p with
          | Return p' => (Return (Some p'), withPosts (<[id := p']> (posts db)) db)
          | Throw e => (Throw e, db)
          end
      end
    else (Throw Store.unreachable, db).

Definition Comment_findById (id : string) : DbM (option IComment) :=
  Store.guard (fun db => (comments db !! id, db)).

Definition Comment_findByIdAndUpdate (id : string)
  (update : IComment -> Completion IComment) : DbM (option IComment) :=
  fun db =>
    if reachable db then
      match comments db !! id with
      | None => (Return None, db)
      | Some c =>
          match update c with
          | Return c' =>
              (Return (Some c'), withComments (<[id := c']> (comments db)) db)
          | Throw e => (Throw e, db)
          end
      end
    else (Throw Store.unreachable, db).

Definition Comment_findByIdAndDelete (id : string) : DbM unit :=
  Store.guard (fun db => (tt, withComments (delete id (comments db)) db)).

(** [Post.deleteMany({ author: id })]. *)
Definition Post_deleteMany_author (id : string) : DbM unit :=
  Store.guard (fun db =>
    (tt, withPosts (filter (fun kp => author (snd kp) <> id) (posts db)) db)).

(** [Comment.deleteMany({ author: id })]. *)
Definition Comment_deleteMany_author (id : string) : DbM unit :=
  Store.guard (fun db =>
    (tt, withComments
           (filter (fun kc => comment_author (snd kc) <> id) (comments db)) db)).

Definition User_findByIdAndDelete (id : string) : DbM unit :=
  Store.guard (fun db => (tt, withUsers (delete id (users db)) db)).

Definition setRole (r : UserRole) (u : IUser) : IUser :=
  {| _id := _id u; username := username u; email := email u;
     password := password u; role := r; refreshToken := refreshToken u |}.

(** [User.findByIdAndUpdate(id, { role }, { new: true, runValidators: true })];
    a [UserRole] satisfies the enum validator. *)
Definition User_findByIdAndUpdate_role (id : string) (r : UserRole)
  : DbM (option IUser) :=
  Store.guard (fun db =>
    match users db !! id with
    | None => (None, db)
    | Some u => (Some (setRole r u), withUsers (<[id := setRole r u]> (users db)) db)
    end).

(** [User.findOne({ email })]: a document whose stored email is the
    cast filter value. *)
Definition User_findOne_email `{SchemaLib} (e : string) : DbM (option IUser) :=
  Store.guard (fun db =>
    (snd <$> List.find (fun ku => String.eqb (email (snd ku)) (castEmail e))
                       (map_to_list (users db)),
     db)).

(** [user.save()] of a document that is in the collection. *)
Definition User_save (u : IUser) : DbM unit :=
  Store.guard (fun db => (tt, withUsers (<[_id u := u]> (users db)) db)).

End Store2.

(* ===================================================================== *)
(** ** The administration calls of [src/services/userService.ts] *)
(* ===================================================================== *)

Module UserService.

(** [ForbiddenError] and [UserInputError] of apollo-server: errors
    known by their message and the code they carry. *)
Definition ForbiddenError (message : string) : JsError :=
  GraphQLError message [("code", JsStr "FORBIDDEN")].

Definition UserInputError (message : string) : JsError :=
  GraphQLError message [("code", JsStr "BAD_USER_INPUT")].

(** [!adminUser || adminUser.role !== UserRole.ADMIN]. *)
Definition notAdmin (adminUser : option IUser) : bool :=
  match adminUser with
  | Some a => negb (PostResolver.roleIsAdmin a)
  | None => true
  end.

(** [User.findByIdAndDelete(id)], with the document it answers. *)
Definition User_findByIdAndDelete (id : string) : DbM (option IUser) :=
  Store.guard (fun db =>
    (users db !! id, Store2.withUsers (delete id (users db)) db)).

(** [userService.deleteUser]. *)
Definition deleteUser (adminUserId targetUserId : string) : DbM bool :=
  (do* adminUser <- Store.User_findById adminUserId;
   if notAdmin adminUser
   then throwM (ForbiddenError "Only admins can delete users")
   else if String.eqb adminUserId targetUserId
   then throwM (UserInputError "Cannot delete your own account")
   else
     do* deletedUser <- User_findByIdAndDelete targetUserId;
     match deletedUser with
     | None => throwM (UserInputError "User not found")
     | Some _ => retM true
     end)%db.

Definition validRoles : list string := ["user"; "admin"; "moderator"].

(** The [enum: Object.values(UserRole)] of the [role] path of the user
    schema ([src/models/User.ts]). *)
Definition enumRole (s : string) : option UserRole :=
  List.find (fun r => String.eqb (UserRole_value r) s) [USER; ADMIN; MODERATOR].

Definition validationFailed (s : string) : JsError :=
  StoreError ("Validation failed: role: `" ++ s
              ++ "` is not a valid enum value for path `role`.").

(** [User.findByIdAndUpdate(id, { role: newRole, updatedAt },
    { new: true, runValidators: true })]: the validators of the schema
    run on the update before it is sent. *)
Definition User_findByIdAndUpdate_role (id newRole : string)
  : DbM (option IUser) :=
  match enumRole newRole with
  | Some r => Store2.User_findByIdAndUpdate_role id r
  | None => throwM (validationFailed newRole)
  end.

(** [userService.updateUserRole]. *)
Definition updateUserRole (adminUserId targetUserId newRole : string)
  : DbM IUser :=
  (do* adminUser <- Store.User_findById adminUserId;
   if notAdmin adminUser
   then throwM (ForbiddenError "Only admins can update user roles")
   else if negb (Js.includes validRoles (JsStr newRole))
   then throwM (UserInputError "Invalid role specified")
   else if String.eqb adminUserId targetUserId
           && negb (String.eqb newRole "admin")
   then throwM (UserInputError "Cannot demote yourself")
   else
     do* user <- User_findByIdAndUpdate_role targetUserId newRole;
     match user with
     | None => throwM (UserInputError "User not found")
     | Some u => retM u
     end)%db.

End UserService.

(* ===================================================================== *)
(** ** The other mutations of the post, comment and user resolvers *)
(* ===================================================================== *)

Module PostMutations.

(** How a mutation that looks its target up and then calls
    [requireOwnership(context, ...)] ends. *)
Definition guardOutcome {A} (db : Db) (found : bool) (missing : JsError)
  : Completion A * Db :=
  (Throw (if reachable db
          then if found
               then TypeError
                      "Cannot read properties of undefined (reading 'toString')"
               else missing
          else Store.unreachable), db).

Definition setPublished (b : bool) (p : IPost) : IPost :=
  {| post_id := post_id p; title := title p; content := content p;
     author := author p; tags := tags p; published := b |}.

(** [Mutation.updatePost]. *)
Definition updatePost `{SchemaLib} (id : string) (input : UpdatePostInput)
  (context : GraphQLContext) : DbM (option IPost) :=
  (do* found <- Store.Post_findById id;
   match found with
   | None => throwM PostResolver.postNotFound
   | Some p =>
       do* _ <- liftM (Auth.requireOwnership (context_js context) (author p));
       do* updatedPost <- Store2.Post_findByIdAndUpdate id (castPostUpdate input);
       retM updatedPost
   end)%db.

(** [Mutation.publishPost] and [Mutation.unpublishPost]. *)
Definition setPublication (b : bool) (id : string) (context : GraphQLContext)
  : DbM (option IPost) :=
  (do* found <- Store.Post_findById id;
   match found with
   | None => throwM PostResolver.postNotFound
   | Some p =>
       do* _ <- liftM (Auth.requireOwnership (context_js context) (author p));
       do* updatedPost <-
         Store2.Post_findByIdAndUpdate id (fun q => Return (setPublished b q));
       retM updatedPost
   end)%db.

Definition publishPost : string -> GraphQLContext -> DbM (option IPost) :=
  setPublication true.

Definition unpublishPost : string -> GraphQLContext -> DbM (option IPost) :=
  setPublication false.

End PostMutations.

Module CommentResolver.

Definition commentNotFound : JsError :=
  GraphQLError "Comment not found" [("code", JsStr "COMMENT_NOT_FOUND")].

Definition forbidden : JsError :=
  GraphQLError "Access denied: You can only delete your own comments"
               [("code", JsStr "FORBIDDEN")].

(** [Query.comment]: the comment with its post populated; a comment
    whose post is gone has [post === null]. *)
Definition comment (id : string) (context : GraphQLContext) : DbM IComment :=
  (do* found <- Store2.Comment_findById id;
   match found with
   | None => throwM commentNotFound
   | Some c =>
       do* post <- Store.Post_findById (comment_post c);
       match post with
       | None => throwM (TypeError
           "Cannot read properties of null (reading 'published')")
       | Some p =>
           if negb (published p) then
             if negb (isAuthenticated context) then throwM commentNotFound
             else match user context with
                  | None => throwM (TypeError
                      "Cannot read properties of undefined (reading '_id')")
                  | Some u =>
                      if negb (String.eqb (_id u) (author p))
                         && negb (PostResolver.roleIsAdmin u)
                      then throwM commentNotFound
                      else retM c
                  end
           else retM c
       end
   end)%db.

(** [Mutation.updateComment]. *)
Definition updateComment `{SchemaLib} (id content : string)
  (context : GraphQLContext) : DbM (option IComment) :=
  (do* found <- Store2.Comment_findById id;
   match found with
   | None => throwM commentNotFound
   | Some c =>
       do* _ <- liftM (Auth.requireOwnership (context_js context)
                         (comment_author c));
       do* updatedComment <-
         Store2.Comment_findByIdAndUpdate id (castCommentUpdate content);
       retM updatedComment
   end)%db.

(** [Mutation.deleteComment]. *)
Definition deleteComment (id : string) (context : GraphQLContext) : DbM bool :=
  (do* found <- Store2.Comment_findById id;
   match found with
   | None => throwM commentNotFound
   | Some c =>
       do* user <- liftM (Auth.requireAuth (context_js context));
       do* userId <- liftM (bindC (Js.getProp user "_id") Js.toString);
       do* role <- liftM (Js.getProp user "role");
       do* _ <-
         (if negb (String.eqb userId (comment_author c))
             && negb (Js.strictEqStr role "ADMIN")
          then
            do* post <- Store.Post_findById (comment_post c);
            match post with
            | None => throwM forbidden
            | Some p =>
                if negb (String.eqb userId (author p)) then throwM forbidden
                else retM tt
            end
          else retM tt);
       do* _ <- Store2.Comment_findByIdAndDelete id;
       retM true
   end)%db.

End CommentResolver.

Module UserMutations.

Definition userNotFound : JsError :=
  GraphQLError "User not found" [("code", JsStr "USER_NOT_FOUND")].

(** [Mutation.deleteUser]. *)
Definition deleteUser (id : string) (context : GraphQLContext) : DbM bool :=
  (do* adminUser <- liftM (Auth.requireAdmin (context_js context));
   do* adminId <- liftM (bindC (Js.getProp adminUser "_id") Js.toString);
   if String.eqb adminId id
   then throwM (GraphQLError "Cannot delete your own admin account"
                  [("code", JsStr "CANNOT_DELETE_SELF")])
   else
     do* found <- Store.User_findById id;
     match found with
     | None => throwM userNotFound
     | Some _ =>
         do* _ <- Store2.Post_deleteMany_author id;
         do* _ <- Store2.Comment_deleteMany_author id;
         do* _ <- Store2.User_findByIdAndDelete id;
         retM true
     end)%db.

(** [Mutation.updateUserRole]. *)
Definition updateUserRole (id : string) (r : UserRole) (context : GraphQLContext)
  : DbM IUser :=
  (do* adminUser <- liftM (Auth.requireAdmin (context_js context));
   do* adminId <- liftM (bindC (Js.getProp adminUser "_id") Js.toString);
   if String.eqb adminId id
   then throwM (GraphQLError "Cannot modify your own role"
                  [("code", JsStr "CANNOT_MODIFY_OWN_ROLE")])
   else
     do* updated <- Store2.User_findByIdAndUpdate_role id r;
     match updated with
     | None => throwM userNotFound
     | Some u => retM u
     end)%db.

End UserMutations.

Module PostQuery.

(** [Query.post], as a caller of the resolver map reaches it. *)
Definition post (populated : IUser -> string) (id : string)
  (context : GraphQLContext) : DbM IPost :=
  PostResolver.post populated id context.

End PostQuery.

(* ===================================================================== *)
(** ** Login ([src/schema/resolvers/authResolver.ts], [src/utils/jwt.ts]) *)
(* ===================================================================== *)

(** [jwt.sign(payload, secret, options)] at the instant the clock shows. *)
Class JwtSigner : Type := {
  jwt_sign : Z -> TokenPayload -> string -> string
}.

Module Login.

Record LoginInput : Type := mkLoginInput {
  login_email : string;
  login_password : string
}.

Record AuthTokens : Type := mkAuthTokens {
  accessToken : string;
  issuedRefreshToken : string
}.

Record AuthPayload : Type := mkAuthPayload {
  payload_user : IUser;
  payload_tokens : AuthTokens;
  expiresIn : Z
}.

Definition payloadOf (u : IUser) : TokenPayload :=
  {| userId := _id u; payload_username := username u;
     payload_email := email u; payload_role := role u |}.

(** [JWTUtils.generateTokens(user)]. *)
Definition generateTokens `{JwtSigner} (now : Z) (u : IUser) : AuthTokens :=
  {| accessToken := jwt_sign now (payloadOf u) JWTUtils.accessTokenSecret;
     issuedRefreshToken := jwt_sign now (payloadOf u) JWTUtils.refreshTokenSecret |}.

Definition invalidCredentials : JsError :=
  GraphQLError "Invalid email or password" [("code", JsStr "INVALID_CREDENTIALS")].

Definition loginFailed : JsError :=
  GraphQLError "Login failed" [("code", JsStr "LOGIN_FAILED")].

Definition withRefreshToken (t : string) (u : IUser) : IUser :=
  {| _id := _id u; username := username u; email := email u;
     password := password u; role := role u; refreshToken := Some t |}.

(** [Mutation.login] at instant [now]. *)
Definition login `{SchemaLib} `{PasswordLib} `{JwtSigner} (now : Z)
  (input : LoginInput) : DbM AuthPayload :=
  tryCatchM
    (do* found <- Store2.User_findOne_email (login_email input);
     match found with
     | None => throwM invalidCredentials
     | Some u =>
         if negb (bcrypt_compare (login_password input) (password u))
         then throwM invalidCredentials
         else
           let tokens := generateTokens now u in
           let u' := withRefreshToken (issuedRefreshToken tokens) u in
           do* _ <- Store2.User_save u';
           retM {| payload_user := u'; payload_tokens := tokens;
                   expiresIn := 15 * 60 |}
     end)%db
    (fun e => if AuthResolver.isGraphQLError e then throwM e
              else throwM loginFailed).

End Login.

(* ===================================================================== *)
(** ** Masking of logged variables ([src/plugins/logging.ts]) *)
(* ===================================================================== *)

Module Logging.

Definition masked : JsVal := JsStr "***MASKED***".

(** [typeof v === "object" && v !== null]. *)
Definition isObject (v : JsVal) : bool :=
  match v with
  | JsArr _ | JsObj _ => true
  | _ => false
  end.

Fixpoint hasOwn (k : string) (props : list (string * JsVal)) : bool :=
  match props with
  | [] => false
  | (k', _) :: rest => String.eqb k' k || hasOwn k rest
  end.

(** [o[k] = v] on a property that [o] owns (the names of an object's
    properties are distinct: at most one entry is named [k]). *)
Fixpoint assign (k : string) (v : JsVal) (props : list (string * JsVal))
  : list (string * JsVal) :=
  match props with
  | [] => []
  | (k', x) :: rest =>
      (k', if String.eqb k' k then v else x) :: assign k v rest
  end.

(** The data properties every object inherits from [Object.prototype];
    assigning to one of these names creates an own property.
    ([__proto__] is inherited too, as an accessor whose setter ignores a
    string: assigning to it changes nothing.) *)
Definition inheritedData : list string :=
  ["constructor"; "__defineGetter__"; "__defineSetter__"; "hasOwnProperty";
   "__lookupGetter__"; "__lookupSetter__"; "isPrototypeOf";
   "propertyIsEnumerable"; "toString"; "valueOf"; "toLocaleString"].

Definition inherits (k : string) : bool := existsb (String.eqb k) inheritedData.

(** [if (field in masked) masked[field] = "***MASKED***"]. *)
Definition maskField (props : list (string * JsVal)) (field : string)
  : list (string * JsVal) :=
  if hasOwn field props then assign field masked props
  else if inherits field then props ++ [(field, masked)]
  else props.

(** The first loop, over [sensitiveFields]. *)
Definition maskFields (sensitiveFields : list string)
  (props : list (string * JsVal)) : list (string * JsVal) :=
  fold_left maskField sensitiveFields props.

(** [maskSensitiveData(data, sensitiveFields)]. The copy [{ ...data }]
    of an array is an object keyed by the indices. The nested objects
    are masked here before the fields of this level are overwritten;
    [maskSensitiveData_as_written] shows that this is the order of the
    source, overwrite and then descend. *)
Fixpoint maskSensitiveData (sensitiveFields : list string) (data : JsVal)
  : JsVal :=
  match data with
  | JsObj props =>
      JsObj (maskFields sensitiveFields
        ((fix values (l : list (string * JsVal)) : list (string * JsVal) :=
            match l with
            | [] => []
            | (k, v) :: rest =>
                (k, if isObject v then maskSensitiveData sensitiveFields v else v)
                  :: values rest
            end) props))
  | JsArr items =>
      JsObj (maskFields sensitiveFields
        ((fix elems (i : nat) (l : list JsVal) : list (string * JsVal) :=
            match l with
            | [] => []
            | v :: rest =>
                (Js.decimal (Z.of_nat i),
                 if isObject v then maskSensitiveData sensitiveFields v else v)
                  :: elems (S i) rest
            end) O items))
  | _ => data
  end.

(** [{ ...data }]. *)
Fixpoint indexed (i : nat) (items : list JsVal) : list (string * JsVal) :=
  match items with
  | [] => []
  | v :: rest => (Js.decimal (Z.of_nat i), v) :: indexed (S i) rest
  end.

Definition spread (data : JsVal) : list (string * JsVal) :=
  match data with
  | JsObj props => props
  | JsArr items => indexed O items
  | _ => []
  end.

(** The second loop, [for (const key in masked)]. *)
Definition descend (sensitiveFields : list string)
  (props : list (string * JsVal)) : list (string * JsVal) :=
  List.map (fun kv =>
              (fst kv, if isObject (snd kv)
                       then maskSensitiveData sensitiveFields (snd kv)
                       else snd kv)) props.

(** No property, at any depth, that is named by a sensitive field keeps
    a value other than the mask. *)
Fixpoint allMasked (sensitiveFields : list string) (v : JsVal) : bool :=
  match v with
  | JsObj props =>
      forallb (fun kv =>
                 if existsb (String.eqb (fst kv)) sensitiveFields
                 then match snd kv with
                      | JsStr s => String.eqb s "***MASKED***"
                      | _ => false
                      end
                 else allMasked sensitiveFields (snd kv)) props
  | JsArr items => forallb (allMasked sensitiveFields) items
  | _ => true
  end.

(** The list of [defaultConfig.sensitiveFields]. *)
Definition defaultSensitiveFields : list string :=
  ["password"; "token"; "secret"; "key"; "auth"].

(** Masking [f] once more changes nothing. *)
Definition settled (f : string) (m : list (string * JsVal)) : Prop :=
  maskField m f = m.

(** A value that masking leaves as it is. *)
Definition steady (fields : list string) (kv : string * JsVal) : Prop :=
  isObject (snd kv) = true ->
  maskSensitiveData fields (snd kv) = snd kv.

(** An entry that is clean inside and, if named in [named], masked. *)
Definition cleared (fields named : list string) (kv : string * JsVal) : Prop :=
  allMasked fields (snd kv) = true
  /\ (In (fst kv) named -> snd kv = masked).

End Logging.

(* ===================================================================== *)
(** ** Measures on operations and stored texts *)
(* ===================================================================== *)

Module Measures.



(** No field definition of the operation carries a [complexity]. *)
Fixpoint plain (s : Selection) : bool :=
  match s with
  | Field _ ext sel =>
      match ext with
      | None => forallb plain sel
      | Some _ => false
      end
  end.

(** Every field of the operation costs at least one. *)
Fixpoint costly (defaultComplexity : Z) (s : Selection) : bool :=
  match s with
  | Field _ ext sel =>
      Z.leb 1 (default defaultComplexity ext)
      && forallb (costly defaultComplexity) sel
  end.

(** The entry [willSendResponse] builds and the text it stores. *)
Definition cacheData (cfg : Caching.CacheConfig) (now : Z) (singleResult : JsVal)
  : JsVal :=
  JsObj [("data", singleResult); ("timestamp", JsNum (Num.ofZ now));
         ("ttl", JsNum (Num.ofZ (Caching.orNum (Caching.defaultTTL cfg) 300)))].

Definition storedText `{CodecLib} (cfg : Caching.CacheConfig) (plain : string)
  : string :=
  if Caching.enableCompression cfg && Z.ltb 1000 (Caching.strLen plain)
  then if Z.ltb (Z.of_nat (gzip_length plain)) (Caching.strLen plain)
       then gzip_base64 plain
       else plain
  else plain.

End Measures.

(* ===================================================================== *)
(** ** More concrete data *)
(* ===================================================================== *)

Module Fixtures2.

(** A schema that lets every update through unchanged but for its
    fields, and compares emails as they are. *)
Definition toySchema : SchemaLib :=
  {| castPostUpdate := fun input p =>
       Return {| post_id := post_id p;
                 title := default (title p) (input_title input);
                 content := default (content p) (input_content input);
                 author := author p;
                 tags := default (tags p) (input_tags input);
                 published := default (published p) (input_published input) |};
     castCommentUpdate := fun text c =>
       Return {| comment_id := comment_id c; comment_content := text;
                 comment_author := comment_author c;
                 comment_post := comment_post c |};
     castEmail := fun e => e |}.

(** A signer whose tokens [Fixtures.toyVerify] accepts for alice. *)
Definition toySigner : JwtSigner :=
  {| jwt_sign := fun _ _ secret =>
       if String.eqb secret JWTUtils.refreshTokenSecret
       then "refresh-alice" else "tok-alice" |}.

Definition aliceLogin : Login.LoginInput :=
  {| Login.login_email := "alice@example.com";
     Login.login_password := "alice-pw" |}.

(** A codec that can read back the one entry stored for
    [Fixtures.queryNamedRequest] at instant 1000. *)
Definition echoCodec : CodecLib :=
  {| sha256_hex := fun s => s;
     gzip_length := fun s => String.length s;
     gzip_base64 := fun s => s;
     gunzip_base64 := fun _ => Throw (TypeError "incorrect header check");
     JSON_parse := fun s =>
       if String.eqb s (Json.stringify
            (Measures.cacheData Caching.appCacheConfig 1000 Fixtures.getPostsResult))
       then Return (Measures.cacheData Caching.appCacheConfig 1000
                      Fixtures.getPostsResult)
       else Throw (TypeError "SyntaxError: Unexpected token");
     StringToNumber := fun _ => NaN |}.

End Fixtures2.

(* ===================================================================== *)
(** * Properties *)
(* ===================================================================== *)

#[local] Arguments String.append !s1 s2 : simpl nomatch.

(** ** Numbers: rounding *)

Lemma pow2_pos (k : Z) : 0 < 2 ^ k \/ (k < 0 /\ 2 ^ k = 0).
Proof.
  destruct (Z.le_gt_cases 0 k) as [H|H].
  - left. apply Z.pow_pos_nonneg; lia.
  - right. split; [lia | apply Z.pow_neg_r; lia].
Qed.

Lemma pow2_gt0 (k : Z) : 0 <= k -> 0 < 2 ^ k.
Proof. intros H. apply Z.pow_pos_nonneg; lia. Qed.

(** [shift num den e = (p, q)] has [p / q = num / (den * 2^e)]: for any
    [K] that makes both exponents non-negative,
    [p / q = (num * 2^K) / (den * 2^(K + e))]. *)
Lemma shift_spec (a b e K : Z) :
  0 < a -> 0 < b -> 0 <= K -> 0 <= K + e ->
  exists c, 0 < c /\ 0 < fst (Num.shift a b e) /\ 0 < snd (Num.shift a b e)
            /\ a * 2 ^ K = c * fst (Num.shift a b e)
            /\ b * 2 ^ (K + e) = c * snd (Num.shift a b e).
Proof.
  intros A B HK HKe. unfold Num.shift.
  destruct (Z.leb 0 e) eqn:E; [apply Z.leb_le in E | apply Z.leb_gt in E];
    cbn [fst snd].
  - exists (2 ^ K). pose proof (pow2_gt0 K HK). pose proof (pow2_gt0 e E).
    rewrite (Z.pow_add_r 2 K e) by lia.
    split; [assumption |]. split; [assumption |].
    split; [apply Z.mul_pos_pos; assumption |]. split; ring.
  - exists (2 ^ (K + e)). pose proof (pow2_gt0 (K + e) HKe).
    pose proof (pow2_gt0 (- e) ltac:(lia)).
    assert (X : 2 ^ K = 2 ^ (K + e) * 2 ^ (- e))
      by (rewrite <- Z.pow_add_r by lia; f_equal; lia).
    split; [assumption |]. split; [apply Z.mul_pos_pos; assumption |].
    split; [assumption |]. split; [rewrite X; ring | ring].
Qed.


Lemma log2_bounds (a : Z) : 0 < a -> 2 ^ Z.log2 a <= a < 2 * 2 ^ Z.log2 a.
Proof.
  intros A. pose proof (Z.log2_spec a A) as H.
  rewrite Z.pow_succ_r in H by apply Z.log2_nonneg. lia.
Qed.

Lemma scale_le (x y c : Z) : 0 < c -> (c * x <= c * y <-> x <= y).
Proof. intros C. split; nia. Qed.

Lemma scale_lt (x y c : Z) : 0 < c -> (c * x < c * y <-> x < y).
Proof. intros C. split; nia. Qed.

Lemma log2_ratio (a b K : Z) :
  0 < a -> 0 < b -> 0 <= K -> 0 <= K + (Z.log2 a - Z.log2 b) ->
  a * 2 ^ K < 2 * (b * 2 ^ (K + (Z.log2 a - Z.log2 b)))
  /\ b * 2 ^ (K + (Z.log2 a - Z.log2 b)) < 2 * (a * 2 ^ K).
Proof.
  intros A B HK HKl.
  pose proof (log2_bounds a A) as [A1 A2].
  pose proof (log2_bounds b B) as [B1 B2].
  pose proof (Z.log2_nonneg a) as La. pose proof (Z.log2_nonneg b) as Lb.
  pose proof (pow2_gt0 K HK) as PK.
  pose proof (pow2_gt0 _ HKl) as PKl.
  pose proof (pow2_gt0 (Z.log2 a) La) as PLa.
  pose proof (pow2_gt0 (Z.log2 b) Lb) as PLb.
  set (l := Z.log2 a - Z.log2 b) in *.
  assert (R : 2 ^ (K + l) * 2 ^ Z.log2 b = 2 ^ K * 2 ^ Z.log2 a).
  { rewrite <- !Z.pow_add_r by lia. f_equal. unfold l. lia. }
  assert (H1 : a * 2 ^ Z.log2 b < 2 * b * 2 ^ Z.log2 a) by nia.
  assert (H2 : b * 2 ^ Z.log2 a < 2 * a * 2 ^ Z.log2 b) by nia.
  split.
  - apply (scale_lt _ _ (2 ^ Z.log2 b) PLb).
    replace (2 ^ Z.log2 b * (2 * (b * 2 ^ (K + l))))
      with (2 * b * (2 ^ (K + l) * 2 ^ Z.log2 b)) by ring.
    rewrite R.
    replace (2 ^ Z.log2 b * (a * 2 ^ K)) with (2 ^ K * (a * 2 ^ Z.log2 b)) by ring.
    replace (2 * b * (2 ^ K * 2 ^ Z.log2 a))
      with (2 ^ K * (2 * b * 2 ^ Z.log2 a)) by ring.
    apply (scale_lt _ _ (2 ^ K) PK). exact H1.
  - apply (scale_lt _ _ (2 ^ Z.log2 b) PLb).
    replace (2 ^ Z.log2 b * (b * 2 ^ (K + l)))
      with (b * (2 ^ (K + l) * 2 ^ Z.log2 b)) by ring.
    rewrite R.
    replace (b * (2 ^ K * 2 ^ Z.log2 a)) with (2 ^ K * (b * 2 ^ Z.log2 a)) by ring.
    replace (2 ^ Z.log2 b * (2 * (a * 2 ^ K)))
      with (2 ^ K * (2 * a * 2 ^ Z.log2 b)) by ring.
    apply (scale_lt _ _ (2 ^ K) PK). exact H2.
Qed.

Lemma log2floor_between (a b : Z) :
  0 < a -> 0 < b -> Num.between a b (Num.log2floor a b).
Proof.
  intros A B K HK HKl. unfold Num.log2floor in *.
  set (l := Z.log2 a - Z.log2 b) in *.
  assert (HKl0 : 0 <= K + l).
  { destruct (Num.shift a b l) as [p q]. destruct (Z.leb q p); lia. }
  destruct (shift_spec a b l K A B HK HKl0) as (c & C & P & Q & EP & EQ).
  destruct (log2_ratio a b K A B HK HKl0) as [U D]. fold l in U, D.
  destruct (Num.shift a b l) as [p q]. cbn [fst snd] in *.
  destruct (Z.leb q p) eqn:L; [apply Z.leb_le in L | apply Z.leb_gt in L].
  - split; [|exact U]. rewrite EP, EQ. apply (scale_le _ _ c C). exact L.
  - assert (S : 2 ^ (K + l) = 2 * 2 ^ (K + (l - 1))).
    { replace (K + l) with (Z.succ (K + (l - 1))) by lia.
      rewrite Z.pow_succ_r by lia. reflexivity. }
    assert (L' : a * 2 ^ K < b * 2 ^ (K + l)).
    { rewrite EP, EQ. apply (scale_lt _ _ c C). exact L. }
    rewrite S in D, L'.
    remember (2 ^ (K + (l - 1))) as Y. remember (2 ^ K) as X.
    clear - D L'. split; lia.
Qed.

Lemma between_unique (a b l1 l2 : Z) :
  0 < a -> 0 < b -> Num.between a b l1 -> Num.between a b l2 -> l1 = l2.
Proof.
  intros A B H1 H2.
  assert (G : forall l l', Num.between a b l -> Num.between a b l' -> l < l' -> False).
  { clear l1 l2 H1 H2. intros l l' H H' Lt.
    set (K := Z.abs l + Z.abs l').
    specialize (H K ltac:(unfold K; lia) ltac:(unfold K; lia)).
    specialize (H' K ltac:(unfold K; lia) ltac:(unfold K; lia)).
    assert (M : 2 * 2 ^ (K + l) <= 2 ^ (K + l')).
    { replace (K + l') with ((K + l + 1) + (l' - l - 1)) by lia.
      rewrite (Z.pow_add_r 2 (K + l + 1) (l' - l - 1)) by (unfold K; lia).
      rewrite (Z.pow_add_r 2 (K + l) 1) by (unfold K; lia).
      pose proof (pow2_gt0 (l' - l - 1) ltac:(lia)) as PW.
      pose proof (pow2_gt0 (K + l) ltac:(unfold K; lia)) as PY.
      change (2 ^ 1) with 2.
      remember (2 ^ (K + l)) as Y. remember (2 ^ (l' - l - 1)) as W.
      clear - PW PY. nia. }
    remember (2 ^ (K + l)) as Y. remember (2 ^ (K + l')) as Y'.
    remember (2 ^ K) as X. clear - A B H H' M. nia. }
  destruct (Z.lt_total l1 l2) as [L|[L|L]]; [|exact L|].
  - exfalso. exact (G _ _ H1 H2 L).
  - exfalso. exact (G _ _ H2 H1 L).
Qed.

(** The nearest integer. *)
Lemma nearestEven_exact (j b : Z) : 0 < b -> Num.nearestEven (j * b) b = j.
Proof.
  intros B. unfold Num.nearestEven.
  rewrite Z.div_mul by lia. rewrite Z.mod_mul by lia.
  assert (C : (2 * 0 ?= b) = Lt) by (apply Z.compare_lt_iff; lia).
  rewrite C. reflexivity.
Qed.

Lemma nearestEven_le (a b j : Z) :
  0 < b -> 2 * a < (2 * j + 1) * b -> Num.nearestEven a b <= j.
Proof.
  intros B H. unfold Num.nearestEven.
  pose proof (Z.div_mod a b ltac:(lia)) as E.
  pose proof (Z.mod_pos_bound a b B) as R.
  destruct (Z.compare_spec (2 * (a mod b)) b) as [C|C|C];
    [destruct (Z.even (a / b)) | |]; nia.
Qed.

Lemma nearestEven_ge (a b j : Z) :
  0 < b -> (2 * j - 1) * b < 2 * a -> j <= Num.nearestEven a b.
Proof.
  intros B H. unfold Num.nearestEven.
  pose proof (Z.div_mod a b ltac:(lia)) as E.
  pose proof (Z.mod_pos_bound a b B) as R.
  destruct (Z.compare_spec (2 * (a mod b)) b) as [C|C|C];
    [destruct (Z.even (a / b)) | |]; nia.
Qed.


Lemma fraction_cases (m e : Z) :
  (e <= 0 /\ Num.fraction m e = (m, 2 ^ (- e)))
  \/ (0 < e /\ Num.fraction m e = (m * 2 ^ e, 1)).
Proof.
  unfold Num.fraction, Num.shift.
  destruct (Z.leb 0 (- e)) eqn:E; [apply Z.leb_le in E | apply Z.leb_gt in E].
  - left. split; [lia |]. f_equal. lia.
  - right. split; [lia |]. rewrite Z.opp_involutive. reflexivity.
Qed.

Lemma represents_between (m e a b : Z) :
  0 < m -> 0 < b -> Num.represents m e a b -> Num.between a b (Z.log2 m + e).
Proof.
  intros M B R K HK HKl. unfold Num.represents in R.
  pose proof (log2_bounds m M) as [M1 M2].
  pose proof (Z.log2_nonneg m) as Lm.
  pose proof (pow2_gt0 K HK) as PK.
  pose proof (pow2_gt0 (Z.log2 m) Lm) as PL.
  destruct (fraction_cases m e) as [[E F]|[E F]]; rewrite F in R; cbn [fst snd] in R.
  - pose proof (pow2_gt0 (- e) ltac:(lia)) as PE.
    pose proof (pow2_gt0 (K + (Z.log2 m + e)) HKl) as PKl.
    assert (X : 2 ^ (K + (Z.log2 m + e)) * 2 ^ (- e) = 2 ^ K * 2 ^ Z.log2 m).
    { rewrite <- !Z.pow_add_r by lia. f_equal. lia. }
    assert (G : 2 ^ (- e) * (b * 2 ^ (K + (Z.log2 m + e)))
                <= 2 ^ (- e) * (a * 2 ^ K)
                < 2 ^ (- e) * (2 * (b * 2 ^ (K + (Z.log2 m + e))))).
    { replace (2 ^ (- e) * (a * 2 ^ K)) with (a * 2 ^ (- e) * 2 ^ K) by ring.
      rewrite R.
      replace (2 ^ (- e) * (b * 2 ^ (K + (Z.log2 m + e))))
        with (b * (2 ^ (K + (Z.log2 m + e)) * 2 ^ (- e))) by ring.
      replace (2 ^ (- e) * (2 * (b * 2 ^ (K + (Z.log2 m + e)))))
        with (2 * (b * (2 ^ (K + (Z.log2 m + e)) * 2 ^ (- e)))) by ring.
      rewrite X.
      remember (2 ^ K) as XK. remember (2 ^ Z.log2 m) as XL.
      clear - M1 M2 B PK PL. nia. }
    destruct G as [G1 G2].
    split; [apply (scale_le _ _ _ PE), G1 | apply (scale_lt _ _ _ PE), G2].
  - pose proof (pow2_gt0 e ltac:(lia)) as PE.
    assert (X : 2 ^ (K + (Z.log2 m + e)) = 2 ^ K * 2 ^ Z.log2 m * 2 ^ e).
    { rewrite <- !Z.pow_add_r by lia. f_equal. lia. }
    rewrite X. replace a with (m * 2 ^ e * b) by lia.
    remember (2 ^ K) as XK. remember (2 ^ Z.log2 m) as XL. remember (2 ^ e) as XE.
    clear - M1 M2 B PK PL PE. nia.
Qed.

Lemma valid_exponent (s : bool) (m : positive) (e : Z) :
  Num.valid (Finite s m e) = true ->
  Z.max (Z.log2 (Zpos m) + e - 52) (-1074) = e /\ Zpos m < 2 ^ 53 /\ e <= 971.
Proof.
  cbn [Num.valid]. intros V. apply orb_true_iff in V as [V|V].
  - apply andb_true_iff in V as [V E2]. apply andb_true_iff in V as [V E1].
    apply andb_true_iff in V as [M1 M2].
    apply Z.leb_le in M1, E1, E2. apply Z.ltb_lt in M2.
    assert (L : Z.log2 (Zpos m) = 52).
    { apply Z.log2_unique; [lia |]. split; [exact M1 | exact M2]. }
    rewrite L. lia.
  - apply andb_true_iff in V as [M E]. apply Z.ltb_lt in M. apply Z.eqb_eq in E.
    assert (L : Z.log2 (Zpos m) < 52).
    { apply Z.log2_lt_pow2; lia. }
    split; [lia |]. split; [|lia].
    transitivity (2 ^ 52); [exact M | reflexivity].
Qed.

(** Rounding is exact on the doubles. *)
Lemma round_exact (s : bool) (m : positive) (e a b : Z) :
  Num.valid (Finite s m e) = true -> 0 < a -> 0 < b ->
  Num.represents (Zpos m) e a b ->
  Num.round s a b = Finite s m e.
Proof.
  intros V A B R.
  destruct (valid_exponent s m e V) as (E0 & M53 & E971).
  assert (L : Num.log2floor a b = Z.log2 (Zpos m) + e).
  { apply (between_unique a b); [assumption | assumption | |].
    - apply log2floor_between; assumption.
    - apply represents_between; [lia | assumption | assumption]. }
  unfold Num.round. rewrite L, E0.
  assert (S : exists q, 0 < q /\ Num.shift a b e = (Zpos m * q, q)).
  { unfold Num.represents in R. unfold Num.shift.
    destruct (fraction_cases (Zpos m) e) as [[E F]|[E F]]; rewrite F in R;
      cbn [fst snd] in R.
    - destruct (Z.leb 0 e) eqn:Z0; [apply Z.leb_le in Z0 | apply Z.leb_gt in Z0].
      + assert (e = 0) by lia. subst e. change (2 ^ (- 0)) with 1 in R.
        change (2 ^ 0) with 1. exists (b * 1). split; [lia |]. f_equal. lia.
      + exists b. split; [assumption |]. f_equal. exact R.
    - replace (Z.leb 0 e) with true by (symmetry; apply Z.leb_le; lia).
      pose proof (pow2_gt0 e ltac:(lia)) as PE.
      exists (b * 2 ^ e). split; [apply Z.mul_pos_pos; assumption |].
      f_equal. rewrite Z.mul_1_r in R. rewrite R. ring. }
  destruct S as (q & Q & S). rewrite S.
  rewrite nearestEven_exact by exact Q.
  replace (Z.eqb (Zpos m) (2 ^ 53)) with false
    by (symmetry; apply Z.eqb_neq; lia).
  replace (Z.ltb 971 e) with false by (symmetry; apply Z.ltb_ge; lia).
  reflexivity.
Qed.

Lemma round_zero (s : bool) (b : Z) : 0 < b -> Num.round s 0 b = Zero s.
Proof.
  intros B. unfold Num.round.
  set (e := Z.max (Num.log2floor 0 b - 52) (-1074)).
  assert (E : e <= 971).
  { unfold e, Num.log2floor. change (Z.log2 0) with 0.
    pose proof (Z.log2_nonneg b).
    destruct (Num.shift 0 b (0 - Z.log2 b)) as [p q].
    destruct (Z.leb q p); lia. }
  assert (S : exists q, 0 < q /\ Num.shift 0 b e = (0 * q, q)).
  { unfold Num.shift. destruct (Z.leb 0 e) eqn:Z0.
    - apply Z.leb_le in Z0. exists (b * 2 ^ e).
      split; [apply Z.mul_pos_pos; [assumption | apply pow2_gt0; assumption] |].
      reflexivity.
    - exists b. split; [assumption | reflexivity]. }
  destruct S as (q & Q & S). rewrite S, nearestEven_exact by exact Q.
  replace (Z.eqb 0 (2 ^ 53)) with false by reflexivity.
  replace (Z.ltb 971 e) with false by (symmetry; apply Z.ltb_ge; lia).
  reflexivity.
Qed.


Lemma integer_double (s : bool) (z : Z) :
  0 < z < 2 ^ 53 ->
  0 < Num.mantissaOf z
  /\ Num.valid (Finite s (Z.to_pos (Num.mantissaOf z)) (Num.exponentOf z)) = true
  /\ Num.represents (Num.mantissaOf z) (Num.exponentOf z) z 1
  /\ - 52 <= Num.exponentOf z <= 0.
Proof.
  intros [Z0 Z53]. unfold Num.mantissaOf, Num.exponentOf.
  pose proof (log2_bounds z Z0) as [L1 L2].
  pose proof (Z.log2_nonneg z) as L0.
  assert (L52 : Z.log2 z < 53) by (apply Z.log2_lt_pow2; lia).
  pose proof (pow2_gt0 (52 - Z.log2 z) ltac:(lia)) as P.
  assert (X : 2 ^ Z.log2 z * 2 ^ (52 - Z.log2 z) = 2 ^ 52).
  { rewrite <- Z.pow_add_r by lia. f_equal. lia. }
  assert (M : 2 ^ 52 <= z * 2 ^ (52 - Z.log2 z) < 2 ^ 53).
  { change (2 ^ 53) with (2 * 2 ^ 52). rewrite <- X.
    remember (2 ^ Z.log2 z) as A. remember (2 ^ (52 - Z.log2 z)) as C.
    clear - L1 L2 P. nia. }
  split; [nia |]. split; [| split; [|lia]].
  - cbn [Num.valid]. rewrite Z2Pos.id by nia.
    apply orb_true_iff. left.
    rewrite !andb_true_iff, !Z.leb_le, Z.ltb_lt. lia.
  - unfold Num.represents.
    destruct (fraction_cases (z * 2 ^ (52 - Z.log2 z)) (Z.log2 z - 52))
      as [[E F]|[E F]]; [|lia].
    rewrite F. cbn [fst snd].
    replace (- (Z.log2 z - 52)) with (52 - Z.log2 z) by lia. ring.
Qed.

Lemma ofZ_pos (z : Z) :
  0 < z < 2 ^ 53 ->
  Num.ofZ z = Finite false (Z.to_pos (Num.mantissaOf z)) (Num.exponentOf z).
Proof.
  intros Z. destruct (integer_double false z Z) as (M & V & R & _).
  unfold Num.ofZ, Num.ofExact.
  replace (Z.ltb z 0) with false by (symmetry; apply Z.ltb_ge; lia).
  rewrite Z.abs_eq by lia.
  apply round_exact; [exact V | lia | lia |].
  rewrite Z2Pos.id by exact M. exact R.
Qed.

Lemma ofZ_zero : Num.ofZ 0 = Zero false.
Proof. reflexivity. Qed.

Lemma exact_finite (s : bool) (m : positive) (e : Z) :
  e <= 0 ->
  Num.exact (Finite s m e) = (if s then - Zpos m else Zpos m, 2 ^ (- e)).
Proof.
  intros E. cbn [Num.exact].
  destruct (fraction_cases (Zpos m) e) as [[_ F]|[E' _]]; [|lia].
  rewrite F. reflexivity.
Qed.

Lemma mantissaOf_eq (z : Z) :
  0 < z < 2 ^ 53 -> Num.mantissaOf z = z * 2 ^ (- Num.exponentOf z).
Proof.
  intros Z. unfold Num.mantissaOf, Num.exponentOf. f_equal. f_equal. lia.
Qed.

(** Subtraction of integers is exact. *)
Lemma sub_ofZ (x y : Z) :
  0 < y <= x -> x < 2 ^ 53 ->
  Num.sub (Num.ofZ x) (Num.ofZ y) = Num.ofZ (x - y).
Proof.
  intros Y X.
  destruct (integer_double false x ltac:(lia)) as (Mx & Vx & Rx & Ex).
  destruct (integer_double false y ltac:(lia)) as (My & Vy & Ry & Ey).
  rewrite (ofZ_pos x), (ofZ_pos y) by lia.
  unfold Num.sub. cbn [Num.opp negb Num.add].
  rewrite !exact_finite by lia. rewrite !Z2Pos.id by assumption.
  rewrite (mantissaOf_eq x), (mantissaOf_eq y) by lia.
  pose proof (pow2_gt0 (- Num.exponentOf x) ltac:(lia)) as Px.
  pose proof (pow2_gt0 (- Num.exponentOf y) ltac:(lia)) as Py.
  set (dx := 2 ^ (- Num.exponentOf x)) in *. set (dy := 2 ^ (- Num.exponentOf y)) in *.
  replace (x * dx * dy + - (y * dy) * dx) with ((x - y) * (dx * dy)) by ring.
  unfold Num.ofExact.
  destruct (Z.eq_dec x y) as [->|N].
  - rewrite Z.sub_diag. cbn [Z.mul Z.ltb Z.compare Z.abs].
    apply round_zero. nia.
  - destruct (integer_double false (x - y) ltac:(lia)) as (M & V & R & _).
    rewrite (ofZ_pos (x - y)) by lia.
    replace (Z.ltb ((x - y) * (dx * dy)) 0) with false
      by (symmetry; apply Z.ltb_ge; nia).
    rewrite Z.abs_eq by nia.
    apply round_exact; [exact V | nia | nia |].
    rewrite Z2Pos.id by exact M. unfold Num.represents in *. nia.
Qed.

Lemma pow2_le (i j : Z) : 0 <= i <= j -> 2 ^ i <= 2 ^ j.
Proof. intros H. apply Z.pow_le_mono_r; lia. Qed.

(** The quotient of an integer by 1000, rounded, against an integer:
    rounding does not move it across. *)
Lemma round_against_integer (a b n L : Z) :
  0 < a -> 0 < b -> 1000 * a = n * b -> 0 < n < 2 ^ 53 -> 0 < L < 2 ^ 53 ->
  Num.ltb (Num.round false a b) (Num.ofZ L) = Z.ltb n (1000 * L).
Proof.
  intros A B E N HL.
  pose proof (log2floor_between a b A B) as Bt.
  set (l := Num.log2floor a b) in *.
  (* the size of the quotient *)
  assert (Ll : - 10 <= l).
  { destruct (Z.le_gt_cases (- 10) l) as [H|H]; [exact H | exfalso].
    destruct (Bt (- l) ltac:(lia) ltac:(lia)) as [_ U].
    replace (- l + l) with 0 in U by lia. change (2 ^ 0) with 1 in U.
    pose proof (pow2_le 11 (- l) ltac:(lia)) as P. change (2 ^ 11) with 2048 in P.
    remember (2 ^ (- l)) as W. clear - A B E N U P. nia. }
  assert (Lu : l <= 43).
  { destruct (Z.le_gt_cases l 43) as [H|H]; [exact H | exfalso].
    destruct (Bt 0 ltac:(lia) ltac:(lia)) as [D _].
    change (2 ^ 0) with 1 in D. rewrite Z.add_0_l in D.
    pose proof (pow2_le 44 l ltac:(lia)) as P.
    change (2 ^ 44) with 17592186044416 in P.
    destruct N as [_ N]. change (2 ^ 53) with 9007199254740992 in N.
    remember (2 ^ l) as W. clear - A B E N D P. nia. }
  set (e0 := l - 52).
  set (W := 2 ^ (- e0)).
  assert (PW : 512 <= W).
  { unfold W. pose proof (pow2_le 9 (- e0) ltac:(unfold e0; lia)) as P.
    exact P. }
  set (M := Num.nearestEven (a * W) b).
  assert (Mb : 2 ^ 52 <= M <= 2 ^ 53).
  { destruct (Bt (- e0) ltac:(unfold e0; lia) ltac:(unfold e0; lia)) as [D U].
    replace (- e0 + l) with 52 in D, U by (unfold e0; lia).
    fold W in D, U. unfold M. split.
    - apply nearestEven_ge; [assumption |]. lia.
    - apply nearestEven_le; [assumption |].
      change (2 ^ 53) with (2 * 2 ^ 52). lia. }
  (* the rounded quotient *)
  assert (R : exists (m : positive) (e : Z),
            Num.round false a b = Finite false m e /\ e <= 0
            /\ forall J, (Zpos m < J * 2 ^ (- e) <-> M < J * W)).
  { unfold Num.round. fold l.
    replace (Z.max (l - 52) (-1074)) with e0 by (unfold e0; lia).
    unfold Num.shift.
    replace (Z.leb 0 e0) with false by (symmetry; apply Z.leb_gt; unfold e0; lia).
    fold W. fold M.
    destruct (Z.eqb M (2 ^ 53)) eqn:C;
      [apply Z.eqb_eq in C | apply Z.eqb_neq in C].
    - replace (Z.ltb 971 (e0 + 1)) with false
        by (symmetry; apply Z.ltb_ge; unfold e0; lia).
      exists (Z.to_pos (2 ^ 52)), (e0 + 1).
      split; [reflexivity |]. split; [unfold e0; lia |]. intros J.
      assert (X : W = 2 * 2 ^ (- (e0 + 1))).
      { unfold W. replace (- e0) with (Z.succ (- (e0 + 1))) by lia.
        rewrite Z.pow_succ_r by (unfold e0; lia). reflexivity. }
      rewrite X, C. change (Zpos (Z.to_pos (2 ^ 52))) with (2 ^ 52).
      change (2 ^ 53) with (2 * 2 ^ 52). lia.
    - replace (Z.ltb 971 e0) with false
        by (symmetry; apply Z.ltb_ge; unfold e0; lia).
      destruct M as [|m|m] eqn:HM; [lia | | lia].
      exists m, e0. split; [reflexivity |]. split; [unfold e0; lia |].
      intros J. fold W. reflexivity. }
  destruct R as (m & e & R & E0 & RJ). rewrite R.
  destruct (integer_double false L HL) as (ML & VL & RL & EL).
  rewrite (ofZ_pos L HL). cbn [Num.ltb].
  rewrite !exact_finite by lia. rewrite Z2Pos.id by exact ML.
  rewrite (mantissaOf_eq L HL).
  pose proof (pow2_gt0 (- Num.exponentOf L) ltac:(lia)) as PL.
  pose proof (pow2_gt0 (- e) ltac:(lia)) as Pe.
  set (dL := 2 ^ (- Num.exponentOf L)) in *.
  (* the comparison, without the common factor *)
  assert (C : Z.ltb (Zpos m * dL) (L * dL * 2 ^ (- e)) = Z.ltb M (L * W)).
  { destruct (Z.ltb M (L * W)) eqn:T;
      [apply Z.ltb_lt in T; apply Z.ltb_lt | apply Z.ltb_ge in T; apply Z.ltb_ge].
    - apply RJ in T. nia.
    - assert (~ Zpos m < L * 2 ^ (- e)) by (intros H; apply RJ in H; lia). nia. }
  rewrite C.
  destruct (Z.ltb n (1000 * L)) eqn:T;
    [apply Z.ltb_lt in T; apply Z.ltb_lt | apply Z.ltb_ge in T; apply Z.ltb_ge].
  - assert (M <= L * W - 1); [|lia].
    unfold M. apply nearestEven_le; [assumption |].
    assert (1000 * (a * W) <= (1000 * L - 1) * b * W) by nia.
    nia.
  - unfold M. apply nearestEven_ge; [assumption |].
    assert (L * W * b <= a * W) by nia. nia.
Qed.

(** The age test of the cache on an entry with an integer time stamp
    and an integer time to live: the division by 1000 and its rounding
    leave the comparison as it is on the integers. *)
Lemma age_test (now ts L : Z) :
  0 < ts <= now -> now < 2 ^ 53 -> 0 < L < 2 ^ 53 ->
  Num.ltb (Num.div (Num.sub (Num.ofZ now) (Num.ofZ ts)) (Num.ofZ 1000))
          (Num.ofZ L)
  = Z.ltb (now - ts) (1000 * L).
Proof.
  intros T N HL. rewrite sub_ofZ by assumption.
  destruct (Z.eq_dec now ts) as [->|D].
  - rewrite Z.sub_diag. rewrite (ofZ_pos L HL).
    destruct (integer_double false L HL) as (ML & VL & RL & EL).
    change (Num.div (Num.ofZ 0) (Num.ofZ 1000)) with (Zero false).
    cbn [Num.ltb]. rewrite exact_finite by lia. cbn [Num.exact].
    rewrite Z2Pos.id by exact ML.
    destruct (Z.ltb 0 (1000 * L)) eqn:C;
      [apply Z.ltb_lt | apply Z.ltb_ge in C]; lia.
  - set (n := now - ts). assert (Hn : 0 < n < 2 ^ 53) by (unfold n; lia).
    destruct (integer_double false n Hn) as (Mn & Vn & Rn & En).
    rewrite (ofZ_pos n Hn).
    change (Num.ofZ 1000)
      with (Finite false (Z.to_pos (1000 * 2 ^ 43)) (- 43)).
    cbn [Num.div xorb].
    destruct (fraction_cases (Zpos (Z.to_pos (Num.mantissaOf n))) (Num.exponentOf n))
      as [[_ F]|[F _]]; [|lia].
    rewrite F. change (Num.fraction (Zpos (Z.to_pos (1000 * 2 ^ 43))) (- 43))
      with (1000 * 2 ^ 43, 2 ^ 43).
    rewrite Z2Pos.id by exact Mn. rewrite (mantissaOf_eq n Hn).
    pose proof (pow2_gt0 (- Num.exponentOf n) ltac:(lia)) as P.
    set (d := 2 ^ (- Num.exponentOf n)) in *.
    apply round_against_integer; [nia | nia | ring | exact Hn | exact HL].
Qed.

(** Rounding keeps the sign. *)
Lemma round_sign (s : bool) (num den : Z) :
  Num.round s num den = Infinity s \/ Num.round s num den = Zero s
  \/ exists p e, Num.round s num den = Finite s p e.
Proof.
  unfold Num.round.
  destruct (Num.shift num den _) as [a b].
  destruct (Z.eqb (Num.nearestEven a b) (2 ^ 53)).
  - destruct (Z.ltb 971 _); [auto |]. right. right.
    change (2 ^ 52) with (Zpos (Z.to_pos (2 ^ 52))). eauto.
  - destruct (Z.ltb 971 _); [auto |].
    destruct (Num.nearestEven a b); eauto.
Qed.

(** The difference of two integers, the larger one taken away. *)
Lemma sub_ofZ_negative (x y : Z) :
  0 < x < y -> y < 2 ^ 53 ->
  Num.sub (Num.ofZ x) (Num.ofZ y) = Num.opp (Num.ofZ (y - x)).
Proof.
  intros X Y.
  destruct (integer_double false x ltac:(lia)) as (Mx & Vx & Rx & Ex).
  destruct (integer_double false y ltac:(lia)) as (My & Vy & Ry & Ey).
  destruct (integer_double true (y - x) ltac:(lia)) as (M & V & R & _).
  rewrite (ofZ_pos x), (ofZ_pos y), (ofZ_pos (y - x)) by lia.
  unfold Num.sub. cbn [Num.opp negb Num.add].
  rewrite !exact_finite by lia. rewrite !Z2Pos.id by assumption.
  rewrite (mantissaOf_eq x), (mantissaOf_eq y) by lia.
  pose proof (pow2_gt0 (- Num.exponentOf x) ltac:(lia)) as Px.
  pose proof (pow2_gt0 (- Num.exponentOf y) ltac:(lia)) as Py.
  set (dx := 2 ^ (- Num.exponentOf x)) in *. set (dy := 2 ^ (- Num.exponentOf y)) in *.
  replace (x * dx * dy + - (y * dy) * dx) with (- ((y - x) * (dx * dy))) by ring.
  unfold Num.ofExact.
  replace (Z.ltb (- ((y - x) * (dx * dy))) 0) with true
    by (symmetry; apply Z.ltb_lt; nia).
  rewrite Z.abs_opp, Z.abs_eq by nia.
  apply round_exact; [exact V | nia | nia |].
  rewrite Z2Pos.id by exact M. unfold Num.represents in *. nia.
Qed.

(** A negative number is below a positive integer. *)
Lemma ltb_negative (x : Number) (L : Z) :
  0 < L < 2 ^ 53 ->
  x = Infinity true \/ x = Zero true \/ (exists p e, x = Finite true p e) ->
  Num.ltb x (Num.ofZ L) = true.
Proof.
  intros HL C.
  destruct (integer_double false L HL) as (ML & VL & RL & EL).
  rewrite (ofZ_pos L HL).
  destruct C as [-> | [-> | (p & e & ->)]]; [reflexivity | |].
  - cbn [Num.ltb]. rewrite exact_finite by lia. cbn [Num.exact].
    rewrite Z2Pos.id by exact ML. apply Z.ltb_lt. lia.
  - cbn [Num.ltb]. rewrite (exact_finite false) by lia.
    rewrite Z2Pos.id by exact ML. cbn [Num.exact].
    pose proof (pow2_gt0 (- Num.exponentOf L) ltac:(lia)) as PL.
    destruct (fraction_cases (Zpos p) e) as [[E F]|[E F]]; rewrite F.
    + pose proof (pow2_gt0 (- e) ltac:(lia)).
      apply Z.ltb_lt. nia.
    + pose proof (pow2_gt0 e ltac:(lia)).
      apply Z.ltb_lt. nia.
Qed.

(** The age test of the cache on an entry with an integer time stamp
    and an integer time to live: the division by 1000 and its rounding
    leave the comparison as it is on the integers, also when the time
    stamp lies ahead of the clock. *)
Lemma age_test_integers (now ts L : Z) :
  0 < ts < 2 ^ 53 -> 0 < now < 2 ^ 53 -> 0 < L < 2 ^ 53 ->
  Num.ltb (Num.div (Num.sub (Num.ofZ now) (Num.ofZ ts)) (Num.ofZ 1000))
          (Num.ofZ L)
  = Z.ltb (now - ts) (1000 * L).
Proof.
  intros T N HL.
  destruct (Z.le_gt_cases ts now) as [O|O].
  - apply age_test; lia.
  - rewrite sub_ofZ_negative by lia.
    rewrite (ofZ_pos (ts - now)) by lia. cbn [Num.opp negb].
    change (Num.ofZ 1000)
      with (Finite false (Z.to_pos (1000 * 2 ^ 43)) (- 43)).
    cbn [Num.div xorb].
    destruct (Num.fraction _ _) as [a b].
    destruct (Num.fraction _ _) as [c d].
    rewrite ltb_negative by (try assumption; apply round_sign).
    symmetry. apply Z.ltb_lt. lia.
Qed.

(** ** Digits *)

Lemma digitsValueFrom_acc (d : Decimal.uint) :
  forall acc : positive,
    Num.digitsValueFrom (Zpos acc) (NilEmpty.string_of_uint d)
    = Zpos (Pos.of_uint_acc d acc).
Proof.
  induction d; intros acc;
    cbn [NilEmpty.string_of_uint Num.digitsValueFrom Pos.of_uint_acc];
    [reflexivity | ..]; rewrite <- IHd; f_equal; unfold Num.digitValue; cbn; lia.
Qed.

Lemma digitsValue_uint (d : Decimal.uint) :
  Num.digitsValue (NilEmpty.string_of_uint d) = Z.of_N (Pos.of_uint d).
Proof.
  unfold Num.digitsValue.
  induction d; cbn [NilEmpty.string_of_uint Num.digitsValueFrom Pos.of_uint];
    [reflexivity | exact IHd | ..];
    apply (digitsValueFrom_acc d).
Qed.

Lemma digitsValue_digitsOf (z : Z) : 0 <= z -> Num.digitsValue (Num.digitsOf z) = z.
Proof.
  intros Z0. unfold Num.digitsOf. rewrite digitsValue_uint.
  change (Pos.of_uint (N.to_uint (Z.to_N z))) with (N.of_uint (N.to_uint (Z.to_N z))).
  rewrite DecimalN.Unsigned.of_to. apply Z2N.id. exact Z0.
Qed.

Lemma digitsOnly_uint (d : Decimal.uint) :
  Num.digitsOnly (NilEmpty.string_of_uint d) = true.
Proof. induction d; cbn; auto. Qed.

Lemma digitsOf_head (z : Z) :
  0 < z ->
  exists c rest, Num.digitsOf z = String c rest /\ Ascii.eqb c "0" = false.
Proof.
  intros Z0. unfold Num.digitsOf.
  set (n := Z.to_N z). assert (N0 : n <> 0%N) by (unfold n; lia).
  pose proof (DecimalN.Unsigned.of_to n) as OT.
  pose proof (DecimalN.Unsigned.to_of (N.to_uint n)) as TO. rewrite OT in TO.
  destruct (Decimal.nzhead (N.to_uint n)) eqn:H.
  - exfalso. apply N0. rewrite <- OT.
    assert (U : Decimal.unorm (N.to_uint n) = Decimal.D0 Decimal.Nil)
      by (apply unorm_0; exact H).
    rewrite <- TO in U. rewrite U. reflexivity.
  - exfalso. exact (nzhead_nonzero _ _ H).
  - rewrite TO. unfold Decimal.unorm. rewrite H. cbn. eauto.
  - rewrite TO. unfold Decimal.unorm. rewrite H. cbn. eauto.
  - rewrite TO. unfold Decimal.unorm. rewrite H. cbn. eauto.
  - rewrite TO. unfold Decimal.unorm. rewrite H. cbn. eauto.
  - rewrite TO. unfold Decimal.unorm. rewrite H. cbn. eauto.
  - rewrite TO. unfold Decimal.unorm. rewrite H. cbn. eauto.
  - rewrite TO. unfold Decimal.unorm. rewrite H. cbn. eauto.
  - rewrite TO. unfold Decimal.unorm. rewrite H. cbn. eauto.
  - rewrite TO. unfold Decimal.unorm. rewrite H. cbn. eauto.
Qed.

Lemma digitsOf_nonpositive (z : Z) : z <= 0 -> Num.digitsOf z = "0".
Proof.
  intros Z0. unfold Num.digitsOf.
  replace (Z.to_N z) with 0%N by lia. reflexivity.
Qed.

Lemma append_nil_r (s : string) : s ++ "" = s.
Proof. induction s as [|c s IH]; cbn; [reflexivity | rewrite IH; reflexivity]. Qed.

Lemma append_assoc (a b c : string) : (a ++ b) ++ c = a ++ (b ++ c).
Proof. induction a as [|x a IH]; cbn; [reflexivity | rewrite IH; reflexivity]. Qed.

Lemma length_append (a b : string) :
  String.length (a ++ b) = (String.length a + String.length b)%nat.
Proof. induction a as [|x a IH]; cbn; [reflexivity | rewrite IH; reflexivity]. Qed.

Lemma length_zeros (j : nat) : String.length (Num.zeros j) = j.
Proof. induction j as [|j IH]; cbn; [reflexivity | rewrite IH; reflexivity]. Qed.

Lemma digitsValueFrom_append (a b : string) :
  forall acc,
    Num.digitsValueFrom acc (a ++ b)
    = Num.digitsValueFrom (Num.digitsValueFrom acc a) b.
Proof. induction a as [|x a IH]; intros acc; cbn; [reflexivity | apply IH]. Qed.

Lemma digitsValueFrom_zeros (j : nat) :
  forall acc, Num.digitsValueFrom acc (Num.zeros j) = acc * 10 ^ Z.of_nat j.
Proof.
  induction j as [|j IH]; intros acc.
  - cbn. lia.
  - cbn [Num.zeros Num.digitsValueFrom]. rewrite IH.
    rewrite Nat2Z.inj_succ, Z.pow_succ_r by lia.
    change (Num.digitValue "0") with 0. ring.
Qed.

(** *** Zeros at the end *)

Lemma stripZeros_zeros (j : nat) : Num.stripZeros (Num.zeros j) = "".
Proof. induction j as [|j IH]; cbn; [reflexivity | rewrite IH; reflexivity]. Qed.

Lemma stripZeros_cons (c : ascii) (s : string) :
  Num.stripZeros s <> "" ->
  Num.stripZeros (String c s) = String c (Num.stripZeros s).
Proof.
  intros N. cbn [Num.stripZeros]. destruct (Num.stripZeros s); [congruence | reflexivity].
Qed.

Lemma stripZeros_append_zeros (D : string) (j : nat) :
  Num.stripZeros (D ++ Num.zeros j) = Num.stripZeros D.
Proof.
  induction D as [|c D IH]; cbn [String.append].
  - rewrite stripZeros_zeros. reflexivity.
  - cbn [Num.stripZeros]. rewrite IH. reflexivity.
Qed.

Lemma stripZeros_split (s : string) :
  exists j, s = Num.stripZeros s ++ Num.zeros j.
Proof.
  induction s as [|c s [j IH]].
  - exists O. reflexivity.
  - cbn [Num.stripZeros]. destruct (Num.stripZeros s) as [|d t] eqn:E.
    + destruct (Ascii.eqb c "0") eqn:C.
      * apply Ascii.eqb_eq in C. subst c. exists (S j).
        cbn. rewrite IH at 1. reflexivity.
      * exists j. cbn. rewrite IH at 1. reflexivity.
    + exists j. cbn. rewrite IH at 1. reflexivity.
Qed.

Lemma stripZeros_idempotent (s : string) :
  Num.stripZeros (Num.stripZeros s) = Num.stripZeros s.
Proof.
  destruct (stripZeros_split s) as [j E].
  rewrite E at 2. rewrite stripZeros_append_zeros. reflexivity.
Qed.

Lemma digitsOnly_append (a b : string) :
  Num.digitsOnly (a ++ b) = Num.digitsOnly a && Num.digitsOnly b.
Proof.
  induction a as [|c a IH]; cbn; [reflexivity |].
  rewrite IH, andb_assoc. reflexivity.
Qed.

Lemma digitsOnly_stripZeros (s : string) :
  Num.digitsOnly s = true -> Num.digitsOnly (Num.stripZeros s) = true.
Proof.
  intros D. destruct (stripZeros_split s) as [j E]. rewrite E in D.
  rewrite digitsOnly_append in D. apply andb_true_iff in D as [D _]. exact D.
Qed.

Lemma stripZeros_head (c : ascii) (s : string) :
  Ascii.eqb c "0" = false ->
  exists rest, Num.stripZeros (String c s) = String c rest.
Proof.
  intros C. cbn [Num.stripZeros]. rewrite C.
  destruct (Num.stripZeros s); eauto.
Qed.

(** The digits of a positive integer, without the zeros at the end. *)
Lemma normalDigits_of (z : Z) :
  0 < z -> Num.normalDigits (Num.stripZeros (Num.digitsOf z)).
Proof.
  intros Z0. destruct (digitsOf_head z Z0) as (c & rest & E & C).
  split; [apply stripZeros_idempotent |]. split.
  - apply digitsOnly_stripZeros. apply digitsOnly_uint.
  - rewrite E. destruct (stripZeros_head c rest C) as [r R]. eauto.
Qed.

Lemma stripped_value (s : string) :
  Num.digitsValue s
  = Num.digitsValue (Num.stripZeros s)
    * 10 ^ (Num.len s - Num.len (Num.stripZeros s))
  /\ Num.len (Num.stripZeros s) <= Num.len s.
Proof.
  destruct (stripZeros_split s) as [j E]. unfold Num.len.
  remember (Num.stripZeros s) as D eqn:HD. clear HD. subst s.
  unfold Num.digitsValue.
  rewrite digitsValueFrom_append, digitsValueFrom_zeros, length_append, length_zeros.
  split; [|lia]. f_equal. f_equal. lia.
Qed.

(** ** The digits of a number *)

Lemma Num_eqb_eq (x y : Number) : Num.eqb x y = true -> x = y.
Proof.
  destruct x as [|s|s|s m e], y as [|t|t|t m' e']; cbn; try discriminate;
    try reflexivity.
  - intros E. apply Bool.eqb_prop in E. congruence.
  - intros E. apply Bool.eqb_prop in E. congruence.
  - intros E. apply andb_true_iff in E as [E E3].
    apply andb_true_iff in E as [E1 E2].
    apply Bool.eqb_prop in E1. apply Pos.eqb_eq in E2. apply Z.eqb_eq in E3.
    congruence.
Qed.

Lemma pow10_pos (k : Z) : 0 <= k -> 0 < 10 ^ k.
Proof. intros H. apply Z.pow_pos_nonneg; lia. Qed.

Lemma pow5_pos (k : Z) : 0 <= k -> 0 < 5 ^ k.
Proof. intros H. apply Z.pow_pos_nonneg; lia. Qed.

Lemma pow10_split (k : Z) : 10 ^ k = 2 ^ k * 5 ^ k.
Proof. change 10 with (2 * 5). apply Z.pow_mul_l. Qed.

Lemma decimalFraction_pos (s p : Z) :
  0 <= s -> 0 <= fst (Num.decimalFraction s p) /\ 0 < snd (Num.decimalFraction s p).
Proof.
  intros S. unfold Num.decimalFraction.
  destruct (Z.leb 0 p) eqn:P; [apply Z.leb_le in P | apply Z.leb_gt in P];
    cbn [fst snd].
  - pose proof (pow10_pos p P). split; [nia | lia].
  - pose proof (pow10_pos (- p) ltac:(lia)). split; [lia | assumption].
Qed.

(** No digits read as no number. *)
Lemma readDecimal_empty (n : Z) : Num.readDecimal "" n = Zero false.
Proof.
  unfold Num.readDecimal. change (Num.digitsValue "") with 0.
  pose proof (decimalFraction_pos 0 (n - Num.len "") ltac:(lia)) as [_ B].
  assert (A : fst (Num.decimalFraction 0 (n - Num.len "")) = 0).
  { unfold Num.decimalFraction. destruct (Z.leb 0 _); reflexivity. }
  destruct (Num.decimalFraction 0 (n - Num.len "")) as [a b]. cbn [fst snd] in *.
  subst a. apply round_zero. exact B.
Qed.

(** The expansion of a double reads as that double. *)
Lemma expansion_reads (m : positive) (e : Z) :
  Num.valid (Finite false m e) = true ->
  let c := Num.normal (fst (Num.expansion (Zpos m) e))
                      (snd (Num.expansion (Zpos m) e)) in
  Num.normalDigits (fst c) /\ Num.readDecimal (fst c) (snd c) = Finite false m e.
Proof.
  intros V. cbv zeta.
  set (P := fst (Num.expansion (Zpos m) e)) in *.
  set (q := snd (Num.expansion (Zpos m) e)) in *.
  assert (X : (0 <= e /\ P = Zpos m * 2 ^ e /\ q = 0)
              \/ (e < 0 /\ P = Zpos m * 5 ^ (- e) /\ q = e)).
  { unfold P, q, Num.expansion.
    destruct (Z.leb 0 e) eqn:E; [apply Z.leb_le in E | apply Z.leb_gt in E];
      cbn [fst snd]; [left | right]; auto. }
  clearbody P q.
  assert (P0 : 0 < P).
  { destruct X as [(E & -> & _)|(E & -> & _)];
      [pose proof (pow2_gt0 e E) | pose proof (pow5_pos (- e) ltac:(lia))]; nia. }
  split; [apply normalDigits_of; exact P0 |].
  unfold Num.normal. cbn [fst snd]. unfold Num.readDecimal.
  destruct (stripped_value (Num.digitsOf P)) as [SV SL].
  rewrite digitsValue_digitsOf in SV by lia.
  set (D := Num.stripZeros (Num.digitsOf P)) in *.
  set (z := Num.len (Num.digitsOf P) - Num.len D) in *.
  set (dv := Num.digitsValue D) in *.
  replace (Num.len (Num.digitsOf P) + q - Num.len D) with (z + q) by (unfold z; lia).
  assert (Z0 : 0 <= z) by (unfold z; lia).
  pose proof (pow10_pos z Z0) as PZ.
  assert (DV : 0 < dv) by nia.
  pose proof (decimalFraction_pos dv (z + q) ltac:(lia)) as [A B].
  assert (R : Num.represents (Zpos m) e (fst (Num.decimalFraction dv (z + q)))
                         (snd (Num.decimalFraction dv (z + q)))).
  { unfold Num.represents, Num.decimalFraction.
    destruct (fraction_cases (Zpos m) e) as [[E F]|[E F]]; rewrite F; cbn [fst snd].
    - destruct X as [(E' & HP & Hq)|(E' & HP & Hq)].
      + assert (e = 0) by lia. subst e q. rewrite Z.add_0_r.
        replace (Z.leb 0 z) with true by (symmetry; apply Z.leb_le; lia).
        cbn [fst snd]. change (2 ^ (- 0)) with 1. change (2 ^ 0) with 1 in HP.
        rewrite <- SV. lia.
      + subst q.
        pose proof (pow5_pos (- e) ltac:(lia)) as P5.
        pose proof (pow2_gt0 (- e) ltac:(lia)) as P2.
        destruct (Z.leb 0 (z + e)) eqn:C;
          [apply Z.leb_le in C | apply Z.leb_gt in C]; cbn [fst snd].
        * pose proof (pow10_pos (z + e) C) as PC.
          assert (T : 10 ^ z = 10 ^ (z + e) * (2 ^ (- e) * 5 ^ (- e))).
          { rewrite <- pow10_split, <- Z.pow_add_r by lia. f_equal. lia. }
          rewrite T in SV. rewrite HP in SV.
          apply (Z.mul_reg_r _ _ (5 ^ (- e))); [lia |].
          rewrite Z.mul_1_r. rewrite SV. ring.
        * pose proof (pow10_pos (- (z + e)) ltac:(lia)) as PC.
          assert (T : 2 ^ (- e) * 5 ^ (- e) = 10 ^ (- (z + e)) * 10 ^ z).
          { rewrite <- pow10_split, <- Z.pow_add_r by lia. f_equal. lia. }
          apply (Z.mul_reg_r _ _ (10 ^ z)); [lia |].
          replace (dv * 2 ^ (- e) * 10 ^ z) with (dv * 10 ^ z * 2 ^ (- e)) by ring.
          rewrite <- SV, HP.
          replace (Zpos m * 10 ^ (- (z + e)) * 10 ^ z)
            with (Zpos m * (10 ^ (- (z + e)) * 10 ^ z)) by ring.
          rewrite <- T. ring.
    - destruct X as [(E' & HP & Hq)|(E' & HP & Hq)]; [|lia].
      subst q. rewrite Z.add_0_r.
      replace (Z.leb 0 z) with true by (symmetry; apply Z.leb_le; lia).
      cbn [fst snd]. rewrite <- SV, HP. ring. }
  assert (A' : 0 < fst (Num.decimalFraction dv (z + q))).
  { unfold Num.decimalFraction.
    destruct (Z.leb 0 (z + q)) eqn:C; cbn [fst snd]; [|exact DV].
    apply Z.leb_le in C. pose proof (pow10_pos (z + q) C). nia. }
  destruct (Num.decimalFraction dv (z + q)) as [a b]. cbn [fst snd] in *.
  apply round_exact; assumption.
Qed.

(** A candidate that reads as a double has normal digits. *)
Lemma reads_normal (s p : Z) (m : positive) (e : Z) :
  Num.reads (Finite false m e) (Num.normal s p) = true ->
  Num.normalDigits (fst (Num.normal s p))
  /\ Num.readDecimal (fst (Num.normal s p)) (snd (Num.normal s p))
     = Finite false m e.
Proof.
  unfold Num.reads. intros R. apply Num_eqb_eq in R. split; [|exact R].
  unfold Num.normal in *. cbn [fst snd] in *.
  destruct (Z.lt_ge_cases 0 s) as [S|S]; [apply normalDigits_of; exact S |].
  exfalso. rewrite digitsOf_nonpositive in R by lia.
  change (Num.stripZeros "0") with "" in R.
  rewrite readDecimal_empty in R. discriminate R.
Qed.

Lemma shortest_spec (fuel : nat) (m : positive) (e dP : Z) :
  Num.valid (Finite false m e) = true ->
  forall k,
    let c := Num.shortest fuel k (Finite false m e)
               (fst (Num.expansion (Zpos m) e)) dP
               (snd (Num.expansion (Zpos m) e)) in
    Num.normalDigits (fst c) /\ Num.readDecimal (fst c) (snd c) = Finite false m e.
Proof.
  intros V. induction fuel as [|fuel IH]; intros k; cbn [Num.shortest].
  - apply expansion_reads. exact V.
  - destruct (Z.leb dP k); [apply expansion_reads; exact V |]. cbv zeta.
    set (P := fst (Num.expansion (Zpos m) e)) in *.
    set (q := snd (Num.expansion (Zpos m) e)) in *.
    set (s := P / 10 ^ (dP - k)).
    set (p := q + dP - k).
    destruct (Num.reads (Finite false m e) (Num.normal s p)) eqn:Lo;
      destruct (Num.reads (Finite false m e) (Num.normal (s + 1) p)) eqn:Hi;
      cbn [andb].
    + destruct (2 * (P mod 10 ^ (dP - k)) ?= 10 ^ (dP - k));
        [destruct (Z.even s) | |];
        first [apply reads_normal; exact Lo | apply reads_normal; exact Hi].
    + apply reads_normal; exact Lo.
    + apply reads_normal; exact Hi.
    + apply IH.
Qed.

Lemma shortestDigits_spec (m : positive) (e : Z) :
  Num.valid (Finite false m e) = true ->
  Num.normalDigits (fst (Num.shortestDigits m e))
  /\ Num.readDecimal (fst (Num.shortestDigits m e)) (snd (Num.shortestDigits m e))
     = Finite false m e.
Proof.
  intros V. unfold Num.shortestDigits.
  pose proof (shortest_spec 17 m e
                (Num.len (Num.digitsOf (fst (Num.expansion (Zpos m) e)))) V 1) as S.
  destruct (Num.expansion (Zpos m) e) as [P q]. exact S.
Qed.

(** ** The layout of a number *)

Lemma occurs_append (c : ascii) (a b : string) :
  Num.occurs c (a ++ b) = Num.occurs c a || Num.occurs c b.
Proof.
  induction a as [|d a IH]; cbn; [reflexivity |].
  rewrite IH, orb_assoc. reflexivity.
Qed.

Lemma occurs_digits (c : ascii) (s : string) :
  Num.isDigit c = false -> Num.digitsOnly s = true -> Num.occurs c s = false.
Proof.
  intros C. induction s as [|d s IH]; cbn; [reflexivity |].
  intros D. apply andb_true_iff in D as [D1 D2]. rewrite (IH D2), orb_false_r.
  destruct (Ascii.eqb d c) eqn:E; [|reflexivity].
  apply Ascii.eqb_eq in E. congruence.
Qed.

Lemma splitAt_absent (c : ascii) (a : string) :
  Num.occurs c a = false -> Num.splitAt c a = (a, None).
Proof.
  induction a as [|d a IH]; cbn; [reflexivity |].
  intros O. apply orb_false_iff in O as [O1 O2]. rewrite O1, (IH O2). reflexivity.
Qed.

Lemma splitAt_first (c : ascii) (a b : string) :
  Num.occurs c a = false -> Num.splitAt c (a ++ String c b) = (a, Some b).
Proof.
  induction a as [|d a IH]; cbn.
  - intros _. rewrite Ascii.eqb_refl. reflexivity.
  - intros O. apply orb_false_iff in O as [O1 O2]. rewrite O1, (IH O2). reflexivity.
Qed.

Lemma digitsOnly_zeros (j : nat) : Num.digitsOnly (Num.zeros j) = true.
Proof. induction j; cbn; auto. Qed.

Lemma take_drop (n : nat) (s : string) : Num.take n s ++ Num.drop n s = s.
Proof.
  revert s. induction n as [|n IH]; intros [|c s]; cbn; try reflexivity.
  rewrite IH. reflexivity.
Qed.

Lemma length_take (n : nat) (s : string) :
  (n <= String.length s)%nat -> String.length (Num.take n s) = n.
Proof.
  revert s. induction n as [|n IH]; intros [|c s]; cbn; try lia.
  intros L. rewrite IH by lia. reflexivity.
Qed.

Lemma digitsOnly_take_drop (n : nat) (s : string) :
  Num.digitsOnly s = true ->
  Num.digitsOnly (Num.take n s) = true /\ Num.digitsOnly (Num.drop n s) = true.
Proof.
  intros D. rewrite <- (take_drop n s), digitsOnly_append in D.
  apply andb_true_iff in D. exact D.
Qed.

Lemma leadingZeros_zeros (j : nat) (c : ascii) (rest : string) :
  Ascii.eqb c "0" = false ->
  Num.leadingZeros (Num.zeros j ++ String c rest) = j
  /\ Num.drop j (Num.zeros j ++ String c rest) = String c rest.
Proof.
  intros C. induction j as [|j [IH1 IH2]]; cbn.
  - rewrite C. auto.
  - rewrite IH1, IH2. auto.
Qed.

Lemma signedValue_exponent (x : Z) :
  Num.signedValue ((if Z.ltb x 0 then "-" else "+") ++ Num.digitsOf (Z.abs x)) = x.
Proof.
  destruct (Z.ltb x 0) eqn:S; [apply Z.ltb_lt in S | apply Z.ltb_ge in S];
    cbn [String.append Num.signedValue Ascii.eqb Bool.eqb];
    rewrite digitsValue_digitsOf by lia; lia.
Qed.

Lemma isDigit_not (c : ascii) :
  Num.isDigit c = true -> Ascii.eqb c "." = false /\ Ascii.eqb c "e" = false.
Proof.
  destruct c as [[] [] [] [] [] [] [] []]; cbn; intros H;
    try discriminate H; split; reflexivity.
Qed.

(** The layout of normal digits gives the digits and the point back. *)
Lemma decode_layout (D : string) (n : Z) :
  Num.normalDigits D -> Num.decode (Num.layout D n) = (D, n).
Proof.
  intros (S & O & c & rest & E & C).
  assert (Oe : Num.occurs "e" D = false) by (apply occurs_digits; auto).
  assert (Op : Num.occurs "." D = false) by (apply occurs_digits; auto).
  assert (K : 1 <= Num.len D) by (rewrite E; unfold Num.len; cbn; lia).
  unfold Num.layout.
  destruct (Z.leb (Num.len D) n && Z.leb n 21) eqn:A.
  { (* digits, then zeros *)
    apply andb_true_iff in A as [A1 A2]. apply Z.leb_le in A1, A2.
    set (j := Z.to_nat (n - Num.len D)).
    assert (Dz : Num.digitsOnly (D ++ Num.zeros j) = true)
      by (rewrite digitsOnly_append, O, digitsOnly_zeros; reflexivity).
    unfold Num.decode.
    rewrite splitAt_absent by (apply occurs_digits; auto).
    rewrite splitAt_absent by (apply occurs_digits; auto).
    rewrite stripZeros_append_zeros, S. f_equal.
    unfold Num.len in *. rewrite length_append, length_zeros. unfold j. lia. }
  destruct (Z.ltb 0 n && Z.leb n 21) eqn:B.
  { (* the point inside the digits *)
    apply andb_true_iff in B as [B1 B2]. apply Z.ltb_lt in B1. apply Z.leb_le in B2.
    assert (A' : n < Num.len D).
    { apply andb_false_iff in A as [A|A];
        [apply Z.leb_gt in A; exact A | apply Z.leb_gt in A; lia]. }
    set (j := Z.to_nat n).
    destruct (digitsOnly_take_drop j D O) as [Ot Od].
    assert (Lt : String.length (Num.take j D) = j)
      by (apply length_take; unfold Num.len in A'; unfold j; lia).
    unfold Num.decode.
    change (Num.take j D ++ "." ++ Num.drop j D)
      with (Num.take j D ++ String "." (Num.drop j D)).
    rewrite splitAt_absent.
    2:{ rewrite occurs_append. cbn [Num.occurs Ascii.eqb Bool.eqb orb].
        rewrite !occurs_digits by auto. reflexivity. }
    rewrite splitAt_first by (apply occurs_digits; auto).
    assert (H : String.eqb (Num.take j D) "0" = false).
    { rewrite E. destruct j as [|j'] eqn:Hj; [unfold j in Hj; lia |].
      cbn [Num.take]. apply String.eqb_neq. intros X. injection X as X _.
      subst c. discriminate C. }
    rewrite H, take_drop. f_equal. unfold Num.len. rewrite Lt. unfold j. lia. }
  destruct (Z.ltb (-6) n && Z.leb n 0) eqn:G.
  { (* zeros after the point *)
    apply andb_true_iff in G as [G1 G2]. apply Z.ltb_lt in G1. apply Z.leb_le in G2.
    set (j := Z.to_nat (- n)).
    unfold Num.decode.
    change ("0." ++ Num.zeros j ++ D)
      with (String "0" (String "." (Num.zeros j ++ D))).
    rewrite splitAt_absent.
    2:{ cbn [Num.occurs Ascii.eqb Bool.eqb orb]. rewrite occurs_append.
        rewrite !occurs_digits by auto using digitsOnly_zeros. reflexivity. }
    change (String "0" (String "." (Num.zeros j ++ D)))
      with ("0" ++ String "." (Num.zeros j ++ D)).
    rewrite splitAt_first by reflexivity.
    change (String.eqb "0" "0") with true. cbv iota.
    rewrite E. destruct (leadingZeros_zeros j c rest C) as [L1 L2].
    rewrite L1, L2. f_equal. unfold j. lia. }
  (* the exponent form *)
  set (x := n - 1).
  destruct (Z.eqb (Num.len D) 1) eqn:K1.
  - apply Z.eqb_eq in K1.
    assert (R : rest = "").
    { rewrite E in K1. unfold Num.len in K1. cbn in K1.
      destruct rest; [reflexivity | cbn in K1; lia]. }
    subst rest. rewrite E. unfold Num.decode.
    change (String c "" ++ "e" ++ (if Z.ltb x 0 then "-" else "+")
              ++ Num.digitsOf (Z.abs x))
      with (String c "" ++ String "e" ((if Z.ltb x 0 then "-" else "+")
              ++ Num.digitsOf (Z.abs x))).
    rewrite E in Oe, Op.
    rewrite splitAt_first by exact Oe. rewrite splitAt_absent by exact Op.
    rewrite signedValue_exponent. f_equal. unfold x. lia.
  - rewrite E. cbn [Num.head Num.tail]. unfold Num.decode.
    rewrite E in O. cbn [Num.digitsOnly] in O.
    apply andb_true_iff in O as [Oc Or].
    destruct (isDigit_not c Oc) as [Cp Ce].
    change (String c "" ++ "." ++ rest ++ "e"
              ++ (if Z.ltb x 0 then "-" else "+") ++ Num.digitsOf (Z.abs x))
      with (String c (String "." rest)
              ++ String "e" ((if Z.ltb x 0 then "-" else "+")
                               ++ Num.digitsOf (Z.abs x))).
    rewrite splitAt_first.
    2:{ cbn [Num.occurs]. rewrite Ce. cbn [Ascii.eqb Bool.eqb orb].
        apply occurs_digits; auto. }
    change (String c (String "." rest)) with (String c "" ++ String "." rest).
    rewrite splitAt_first by (cbn [Num.occurs]; rewrite Cp; reflexivity).
    rewrite signedValue_exponent. f_equal. unfold x. lia.
Qed.

(** A number's text starts with a digit. *)
Lemma layout_head (D : string) (n : Z) :
  Num.normalDigits D ->
  exists c rest, Num.layout D n = String c rest /\ Num.isDigit c = true.
Proof.
  intros (S & O & c & rest & E & C).
  assert (Oc : Num.isDigit c = true).
  { rewrite E in O. cbn in O. apply andb_true_iff in O as [O _]. exact O. }
  assert (K : 1 <= Num.len D) by (rewrite E; unfold Num.len; cbn; lia).
  unfold Num.layout.
  destruct (Z.leb (Num.len D) n && Z.leb n 21) eqn:A.
  { rewrite E. cbn. eauto. }
  destruct (Z.ltb 0 n && Z.leb n 21) eqn:B.
  { apply andb_true_iff in B as [B1 _]. apply Z.ltb_lt in B1.
    destruct (Z.to_nat n) as [|j] eqn:J; [lia |].
    rewrite E. cbn. eauto. }
  destruct (Z.ltb (-6) n && Z.leb n 0).
  { cbn. eauto. }
  destruct (Z.eqb (Num.len D) 1); rewrite E; cbn; eauto.
Qed.

Lemma numberChars_append (a b : string) :
  Num.numberChars (a ++ b) = Num.numberChars a && Num.numberChars b.
Proof.
  induction a as [|c a IH]; cbn; [reflexivity |].
  rewrite IH, andb_assoc. reflexivity.
Qed.

Lemma numberChars_digits (s : string) :
  Num.digitsOnly s = true -> Num.numberChars s = true.
Proof.
  induction s as [|c s IH]; cbn; [reflexivity |].
  intros D. apply andb_true_iff in D as [D1 D2].
  unfold Num.isNumberChar. rewrite D1, (IH D2). reflexivity.
Qed.

Lemma digitsOnly_digitsOf (z : Z) : Num.digitsOnly (Num.digitsOf z) = true.
Proof. apply digitsOnly_uint. Qed.

(** A number's text is made of digits, a point, [e] and signs. *)
Lemma layout_chars (D : string) (n : Z) :
  Num.digitsOnly D = true -> Num.numberChars (Num.layout D n) = true.
Proof.
  intros O. unfold Num.layout. cbv zeta.
  set (ex := (if Z.ltb (n - 1) 0 then "-" else "+")
               ++ Num.digitsOf (Z.abs (n - 1))).
  assert (X : Num.numberChars ex = true).
  { unfold ex.
    rewrite numberChars_append, (numberChars_digits _ (digitsOnly_digitsOf _)).
    destruct (Z.ltb (n - 1) 0); reflexivity. }
  clearbody ex.
  assert (H : Num.digitsOnly (Num.head D) = true
              /\ Num.digitsOnly (Num.tail D) = true).
  { destruct D as [|c D]; [auto |]. cbn in *.
    apply andb_true_iff in O as [O1 O2]. rewrite O1, O2. auto. }
  destruct H as [Hh Ht].
  pose proof (numberChars_digits _ O) as ND.
  pose proof (numberChars_digits _ Hh) as NH.
  pose proof (numberChars_digits _ Ht) as NT.
  destruct (_ && _).
  { rewrite numberChars_append, ND,
      (numberChars_digits _ (digitsOnly_zeros _)). reflexivity. }
  destruct (_ && _).
  { destruct (digitsOnly_take_drop (Z.to_nat n) D O) as [Ot Od].
    rewrite !numberChars_append, (numberChars_digits _ Ot),
      (numberChars_digits _ Od). reflexivity. }
  destruct (_ && _).
  { rewrite !numberChars_append, ND,
      (numberChars_digits _ (digitsOnly_zeros _)). reflexivity. }
  destruct (Z.eqb _ _).
  - rewrite !numberChars_append, X, ND. reflexivity.
  - rewrite !numberChars_append, X, NH, NT. reflexivity.
Qed.

(** ** [Number::toString] loses nothing but the sign of a zero *)

Lemma toString_finite (s : bool) (m : positive) (e : Z) :
  Num.toString (Finite s m e)
  = (if s then "-" else "")
      ++ Num.layout (fst (Num.shortestDigits m e)) (snd (Num.shortestDigits m e)).
Proof.
  cbn [Num.toString]. destruct (Num.shortestDigits m e). reflexivity.
Qed.

Lemma valid_unsigned (s t : bool) (m : positive) (e : Z) :
  Num.valid (Finite s m e) = Num.valid (Finite t m e).
Proof. reflexivity. Qed.

Lemma toString_injective (x y : Number) :
  Num.valid x = true -> Num.valid y = true ->
  Num.isFinite x = true -> Num.isFinite y = true ->
  Num.toString x = Num.toString y ->
  x = y \/ (Num.isZero x = true /\ Num.isZero y = true).
Proof.
  intros Vx Vy Fx Fy E.
  destruct x as [|s|s|s m e]; try discriminate Fx;
    destruct y as [|t|t|t m' e']; try discriminate Fy.
  - right. auto.
  - exfalso. rewrite toString_finite in E. cbn [Num.toString] in E.
    rewrite (valid_unsigned t false) in Vy.
    destruct (shortestDigits_spec m' e' Vy) as [N _].
    destruct t; [discriminate E |]. cbn [String.append] in E.
    pose proof (decode_layout _ (snd (Num.shortestDigits m' e')) N) as Dc.
    rewrite <- E in Dc. cbn in Dc.
    destruct N as (_ & _ & c & rest & N & _). rewrite N in Dc. discriminate Dc.
  - exfalso. rewrite toString_finite in E. cbn [Num.toString] in E.
    rewrite (valid_unsigned s false) in Vx.
    destruct (shortestDigits_spec m e Vx) as [N _].
    destruct s; [discriminate E |]. cbn [String.append] in E.
    pose proof (decode_layout _ (snd (Num.shortestDigits m e)) N) as Dc.
    rewrite E in Dc. cbn in Dc.
    destruct N as (_ & _ & c & rest & N & _). rewrite N in Dc. discriminate Dc.
  - left. rewrite !toString_finite in E.
    rewrite (valid_unsigned s false) in Vx. rewrite (valid_unsigned t false) in Vy.
    destruct (shortestDigits_spec m e Vx) as [N R].
    destruct (shortestDigits_spec m' e' Vy) as [N' R'].
    destruct (layout_head _ (snd (Num.shortestDigits m e)) N) as (c & r & H & Hc).
    destruct (layout_head _ (snd (Num.shortestDigits m' e')) N')
      as (c' & r' & H' & Hc').
    assert (L : s = t
                /\ Num.layout (fst (Num.shortestDigits m e))
                              (snd (Num.shortestDigits m e))
                   = Num.layout (fst (Num.shortestDigits m' e'))
                                (snd (Num.shortestDigits m' e'))).
    { destruct s, t; cbn [String.append] in E.
      - injection E as E. auto.
      - exfalso. rewrite H' in E. injection E as E _. subst c'. discriminate Hc'.
      - exfalso. rewrite H in E. injection E as E _. subst c. discriminate Hc.
      - auto. }
    destruct L as [-> L].
    pose proof (decode_layout _ (snd (Num.shortestDigits m e)) N) as Dc.
    pose proof (decode_layout _ (snd (Num.shortestDigits m' e')) N') as Dc'.
    rewrite L, Dc' in Dc. injection Dc as Dd Dn.
    rewrite <- Dd, <- Dn, R' in R. injection R as -> ->. reflexivity.
Qed.

Lemma toString_chars (x : Number) :
  Num.valid x = true -> Num.isFinite x = true ->
  Num.numberChars (Num.toString x) = true
  /\ exists c rest, Num.toString x = String c rest
                    /\ (Num.isDigit c = true \/ c = "-"%char).
Proof.
  intros V F. destruct x as [|s|s|s m e]; try discriminate F.
  - split; [reflexivity |]. exists "0"%char, "". auto.
  - rewrite toString_finite. rewrite (valid_unsigned s false) in V.
    destruct (shortestDigits_spec m e V) as [N _].
    destruct (layout_head _ (snd (Num.shortestDigits m e)) N) as (c & r & H & Hc).
    split.
    + rewrite numberChars_append, layout_chars by apply N.
      destruct s; reflexivity.
    + destruct s; cbn [String.append]; [eauto |]. rewrite H. eauto.
Qed.

(** Some numbers and their texts. *)
Example toString_examples :
  Num.toString (Num.ofZ 300) = "300"
  /\ Num.toString (Num.ofZ (-42)) = "-42"
  /\ Num.toString (Num.div (Num.ofZ 1) (Num.ofZ 10)) = "0.1"
  /\ Num.toString (Num.add (Num.div (Num.ofZ 1) (Num.ofZ 10))
                           (Num.div (Num.ofZ 2) (Num.ofZ 10)))
     = "0.30000000000000004"
  /\ Num.toString (Num.div (Num.ofZ 1) (Num.ofZ 3)) = "0.3333333333333333"
  /\ Num.toString (Num.div (Num.ofZ (-1)) (Num.ofZ 10000000)) = "-1e-7"
  /\ Num.toString (Num.ofZ (10 ^ 21)) = "1e+21"
  /\ Num.toString (Num.ofZ (10 ^ 20)) = "100000000000000000000"
  /\ Num.toString (Num.ofZ (2 ^ 53 + 1)) = "9007199254740992"
  /\ Num.toString (Finite false 1 (-1074)) = "5e-324"
  /\ Num.toString (Finite false (2 ^ 53 - 1) 971) = "1.7976931348623157e+308"
  /\ Num.toString (Num.floor (Num.div (Num.ofZ (-1)) (Num.ofZ 2))) = "-1"
  /\ Num.toString (Num.sub (Num.ofZ 300) (Num.div (Num.ofZ 1234) (Num.ofZ 1000)))
     = "298.766"
  /\ Num.div (Num.ofZ 1) (Zero true) = Infinity true
  /\ Num.ltb NaN (Num.ofZ 1) = false.
Proof. vm_compute. repeat split. Qed.

(** ** Point-of-use checks *)

Lemma requireAuth_on_context (c : GraphQLContext) :
  Auth.requireAuth (context_js c)
  = Return match user c with
           | Some u => user_js u
           | None => JsUndefined
           end.
Proof. destruct c as [[u|] a]; reflexivity. Qed.

Lemma context_has_no_role (c : GraphQLContext) :
  Js.getProp (context_js c) "role" = Return JsUndefined.
Proof. destruct c as [[u|] a]; reflexivity. Qed.

Lemma context_has_no_id (c : GraphQLContext) :
  Js.getProp (context_js c) "_id" = Return JsUndefined.
Proof. destruct c as [[u|] a]; reflexivity. Qed.

(** C4. On the anonymous context [{ isAuthenticated: false }] the check
    [requireAuth] does not throw: it returns [undefined], and [Query.me]
    hands that absent user on. *)
Theorem requireAuth_anonymous_returns_absent_user :
  Auth.requireAuth (context_js anonymous) = Return JsUndefined
  /\ AuthResolver.me anonymous = Return JsUndefined
  /\ (forall c : GraphQLContext, exists v, Auth.requireAuth (context_js c) = Return v).
Proof.
  split; [reflexivity | split; [reflexivity |]].
  intros c. rewrite requireAuth_on_context. eauto.
Qed.

Lemma requireRole_on_context (c : GraphQLContext) (roles : list string) :
  Auth.requireRole (context_js c) roles
  = Throw (AuthenticationError
             ("Insufficient permissions. Required roles: " ++ Js.join ", " roles)).
Proof.
  unfold Auth.requireRole.
  rewrite requireAuth_on_context, context_has_no_role. simpl.
  replace (Js.includes roles JsUndefined) with false; [reflexivity |].
  unfold Js.includes. induction roles as [|r rs IH]; simpl; auto.
Qed.

Lemma roleIsAdmin_spec (u : IUser) :
  PostResolver.roleIsAdmin u = true <-> role u = ADMIN.
Proof.
  unfold PostResolver.roleIsAdmin. destruct u as [i n e p [] t]; simpl;
    split; intros E; try reflexivity; try discriminate.
Qed.

(** C5. The admin gate and the resolvers disagree on every user: for a
    user of any canonical role, [requireAdmin] throws whether it is given
    the context (as [deleteUser] and [updateUserRole] call it) or the user
    document itself, while the inline test [user.role !== "ADMIN"] of the
    resolvers accepts exactly the users whose role is [ADMIN]. *)
Theorem requireAdmin_disagrees_with_resolver_check (u : IUser) :
  UserResolver.adminGate (authenticated u)
  = Throw (AuthenticationError "Insufficient permissions. Required roles: admin")
  /\ Auth.requireAdmin (user_js u)
     = Throw (AuthenticationError "Insufficient permissions. Required roles: admin")
  /\ (PostResolver.roleIsAdmin u = true <-> role u = ADMIN)
  /\ PostResolver.roleIsAdmin Fixtures.root = true.
Proof.
  split; [apply requireRole_on_context |].
  split; [destruct u as [i n e p [] t]; reflexivity |].
  split; [apply roleIsAdmin_spec | reflexivity].
Qed.

(** ** Identity resolution *)

Lemma createContext_cases `{JwtLib} (req : Auth.Request) (d : Db) :
  Auth.createContext req d
  = match JWTUtils.extractTokenFromHeader (Auth.authHeaderOf req) with
    | None => (Return anonymous, d)
    | Some token =>
        if String.eqb token "" then (Return anonymous, d)
        else match jwt_verify token JWTUtils.accessTokenSecret with
             | Throw _ => (Return anonymous, d)
             | Return payload =>
                 if reachable d
                 then match users d !! userId payload with
                      | Some u => (Return (authenticated u), d)
                      | None => (Return anonymous, d)
                      end
                 else (Return anonymous, d)
             end
    end.
Proof.
  unfold Auth.createContext.
  destruct (JWTUtils.extractTokenFromHeader _) as [token|]; [|reflexivity].
  destruct (String.eqb token ""); [reflexivity|].
  unfold tryCatchM, JWTUtils.verifyAccessToken.
  destruct (jwt_verify token JWTUtils.accessTokenSecret) as [payload|e];
    [|reflexivity].
  unfold bindM, Store.User_findById, Store.guard.
  destruct (reachable d); [|reflexivity].
  destruct (users d !! userId payload); reflexivity.
Qed.

Lemma splitSpace_nonempty (s : string) : Js.splitSpace s <> [].
Proof.
  destruct s as [|c s]; simpl; [discriminate |].
  destruct (Ascii.eqb c " "); [discriminate |].
  destruct (Js.splitSpace s); discriminate.
Qed.

Lemma join_splitSpace (s : string) : Js.join " " (Js.splitSpace s) = s.
Proof.
  induction s as [|c s IH]; [reflexivity |].
  simpl. destruct (Ascii.eqb c " ") eqn:C.
  - apply Ascii.eqb_eq in C. subst c.
    pose proof (splitSpace_nonempty s) as N.
    destruct (Js.splitSpace s) as [|p ps]; [contradiction |].
    change (Js.join " " ("" :: p :: ps)) with (String " " (Js.join " " (p :: ps))).
    rewrite IH. reflexivity.
  - pose proof (splitSpace_nonempty s) as N.
    destruct (Js.splitSpace s) as [|p ps]; [contradiction |].
    rewrite <- IH. destruct ps; reflexivity.
Qed.

(** A header from which a token is extracted reads [Bearer <token>]. *)
Lemma extractTokenFromHeader_form (h token : string) :
  JWTUtils.extractTokenFromHeader (Some h) = Some token ->
  h = "Bearer " ++ token.
Proof.
  unfold JWTUtils.extractTokenFromHeader.
  destruct (String.eqb h ""); [discriminate |].
  pose proof (join_splitSpace h) as J.
  destruct (Js.splitSpace h) as [|p0 [|p1 [|p2 ps]]]; try discriminate.
  destruct (String.eqb p0 "Bearer") eqn:B; [|discriminate].
  apply String.eqb_eq in B. subst p0. intros E. injection E as <-.
  rewrite <- J. reflexivity.
Qed.

(** C6. [createContext] always returns a context and leaves the store
    as it was. The context is the anonymous one when the header is
    absent, when no token is extracted from it, in particular when it
    does not read [Bearer <token>], when the token
    fails verification, when the subject is not in the store, and when
    the store itself cannot be reached. *)
Theorem createContext_never_fails `{JwtLib} (req : Auth.Request) (d : Db) :
  (exists ctx, Auth.createContext req d = (Return ctx, d))
  /\ (Auth.authHeaderOf req = None ->
      Auth.createContext req d = (Return anonymous, d))
  /\ (JWTUtils.extractTokenFromHeader (Auth.authHeaderOf req) = None ->
      Auth.createContext req d = (Return anonymous, d))
  /\ (forall h,
        Auth.authHeaderOf req = Some h ->
        (forall token, h <> "Bearer " ++ token) ->
        Auth.createContext req d = (Return anonymous, d))
  /\ (forall token e,
        JWTUtils.extractTokenFromHeader (Auth.authHeaderOf req) = Some token ->
        jwt_verify token JWTUtils.accessTokenSecret = Throw e ->
        Auth.createContext req d = (Return anonymous, d))
  /\ (forall token payload,
        JWTUtils.extractTokenFromHeader (Auth.authHeaderOf req) = Some token ->
        jwt_verify token JWTUtils.accessTokenSecret = Return payload ->
        users d !! userId payload = None ->
        Auth.createContext req d = (Return anonymous, d))
  /\ (forall token,
        JWTUtils.extractTokenFromHeader (Auth.authHeaderOf req) = Some token ->
        reachable d = false ->
        Auth.createContext req d = (Return anonymous, d)).
Proof.
  rewrite createContext_cases.
  repeat split.
  - destruct (JWTUtils.extractTokenFromHeader _) as [token|]; eauto.
    destruct (String.eqb token ""); eauto.
    destruct (jwt_verify _ _); eauto.
    destruct (reachable d); eauto.
    destruct (users d !! _); eauto.
  - intros E. rewrite E. reflexivity.
  - intros E. rewrite E. reflexivity.
  - intros h E F. rewrite E.
    destruct (JWTUtils.extractTokenFromHeader (Some h)) as [token|] eqn:X;
      [|reflexivity].
    apply extractTokenFromHeader_form in X. destruct (F token X).
  - intros token e E V. rewrite E, V.
    destruct (String.eqb token ""); reflexivity.
  - intros token payload E V U. rewrite E, V, U.
    destruct (String.eqb token ""), (reachable d); reflexivity.
  - intros token E R. rewrite E, R.
    destruct (String.eqb token ""); [reflexivity|].
    destruct (jwt_verify _ _); reflexivity.
Qed.

Lemma createContext_never_fails_witness :
  @Auth.createContext Fixtures.toyJwt
     {| Auth.headers := [("authorization", "Basic dXNlcjpwdw==")] |} Fixtures.db0
  = (Return anonymous, Fixtures.db0).
Proof.
  exact (proj1 (proj2 (proj2
           (@createContext_never_fails Fixtures.toyJwt
              {| Auth.headers := [("authorization", "Basic dXNlcjpwdw==")] |}
              Fixtures.db0)))
         eq_refl).
Defined.

(** ** Revocation *)

Lemma logout_authenticated (u : IUser) (d : Db) :
  reachable d = true ->
  AuthResolver.logout (authenticated u) d
  = (Return true,
     {| users := alter Store.clearRefreshToken (_id u) (users d);
        posts := posts d; comments := comments d; reachable := reachable d |}).
Proof.
  intros R. unfold AuthResolver.logout, tryCatchM, bindM, liftM.
  rewrite requireAuth_on_context. simpl.
  unfold Store.User_unsetRefreshToken, Store.guard. rewrite R. reflexivity.
Qed.

(** C2, as stated, fails: after [logout] has cleared alice's stored
    refresh token, the access token that resolved to her before still
    resolves to her, not to the anonymous context. *)
Lemma access_token_survives_logout :
  let out := AuthResolver.logout (authenticated Fixtures.alice) Fixtures.db0 in
  fst (@Auth.createContext Fixtures.toyJwt Fixtures.aliceRequest Fixtures.db0)
  = Return (authenticated Fixtures.alice)
  /\ fst out = Return true
  /\ users (snd out) !! "u1" = Some (Store.clearRefreshToken Fixtures.alice)
  /\ fst (@Auth.createContext Fixtures.toyJwt Fixtures.aliceRequest (snd out))
     <> Return anonymous.
Proof.
  cbv zeta. rewrite logout_authenticated by reflexivity.
  rewrite !createContext_cases. cbn [fst snd users reachable].
  repeat split.
  - intros E. vm_compute in E. discriminate E.
Qed.

Lemma changePassword_success `{PasswordLib} (u : IUser) (d : Db)
  (current fresh : string) :
  users d !! _id u = Some u ->
  reachable d = true ->
  bcrypt_compare current (password u) = true ->
  AuthService.changePassword (_id u) current fresh d
  = (Return true,
     {| users := alter (AuthService.setPassword (bcrypt_hash fresh)) (_id u) (users d);
        posts := posts d; comments := comments d; reachable := reachable d |}).
Proof.
  intros U R C. unfold AuthService.changePassword, bindM, Store.User_findById.
  unfold Store.guard at 1. rewrite R, U, C. simpl.
  unfold Store.guard. rewrite R. reflexivity.
Qed.

Lemma createContext_after_alter `{JwtLib} (f : IUser -> IUser)
  (req : Auth.Request) (d : Db) (token : string) (payload : TokenPayload)
  (u : IUser) :
  JWTUtils.extractTokenFromHeader (Auth.authHeaderOf req) = Some token ->
  token <> "" ->
  jwt_verify token JWTUtils.accessTokenSecret = Return payload ->
  users d !! userId payload = Some u ->
  reachable d = true ->
  fst (Auth.createContext req
         {| users := alter f (userId payload) (users d);
            posts := posts d; comments := comments d; reachable := reachable d |})
  = Return (authenticated (f u)).
Proof.
  intros E N V U R. rewrite createContext_cases, E, V.
  apply String.eqb_neq in N. rewrite N. cbn [reachable users]. rewrite R.
  rewrite lookup_alter_eq, U. reflexivity.
Qed.

Lemma refreshToken_after_logout `{JwtLib} (d : Db) (u : IUser)
  (presented : string) (p : TokenPayload) :
  users d !! _id u = Some u ->
  reachable d = true ->
  jwt_verify presented JWTUtils.refreshTokenSecret = Return p ->
  userId p = _id u ->
  fst (AuthResolver.refreshToken_ presented
         (snd (AuthResolver.logout (authenticated u) d)))
  = Throw AuthResolver.invalidRefreshToken.
Proof.
  intros U R V I. rewrite logout_authenticated by exact R. cbn [snd].
  unfold AuthResolver.refreshToken_, tryCatchM, JWTUtils.verifyRefreshToken.
  rewrite V. unfold bindM, Store.User_findById, Store.guard.
  cbn [reachable users]. rewrite R, I, lookup_alter_eq, U. reflexivity.
Qed.

Lemma refreshToken_after_changePassword `{JwtLib} `{PasswordLib} (d : Db)
  (u : IUser) (current fresh presented : string) (p : TokenPayload) :
  users d !! _id u = Some u ->
  reachable d = true ->
  bcrypt_compare current (password u) = true ->
  jwt_verify presented JWTUtils.refreshTokenSecret = Return p ->
  userId p = _id u ->
  fst (AuthResolver.refreshToken_ presented
         (snd (AuthService.changePassword (_id u) current fresh d)))
  = Throw AuthResolver.invalidRefreshToken.
Proof.
  intros U R C V I. rewrite changePassword_success by assumption. cbn [snd].
  unfold AuthResolver.refreshToken_, tryCatchM, JWTUtils.verifyRefreshToken.
  rewrite V. unfold bindM, Store.User_findById, Store.guard.
  cbn [reachable users]. rewrite R, I, lookup_alter_eq, U. reflexivity.
Qed.

(** C2, amended. Let a request carry a bearer token that verifies as an
    access token for a subject stored under its own id. Then the request
    resolves to that subject, and it still does after the session has
    been invalidated: after [logout], and after a successful
    [changePassword], the same request resolves to the authenticated
    subject (the stored document with its refresh token cleared). What
    the invalidation does revoke is the refresh credential: after
    [logout], and after a successful [changePassword], every refresh
    token presented for the subject is rejected as an invalid refresh
    token. The access token stops resolving to the subject only on a
    store that holds no document under the subject's id, or that cannot
    be reached: there the request is anonymous. *)
Theorem access_token_outlives_revocation `{JwtLib} `{PasswordLib}
  (req : Auth.Request) (d : Db) (token : string) (payload : TokenPayload)
  (u : IUser) :
  JWTUtils.extractTokenFromHeader (Auth.authHeaderOf req) = Some token ->
  token <> "" ->
  jwt_verify token JWTUtils.accessTokenSecret = Return payload ->
  users d !! userId payload = Some u ->
  _id u = userId payload ->
  reachable d = true ->
  fst (Auth.createContext req d) = Return (authenticated u)
  /\ fst (AuthResolver.logout (authenticated u) d) = Return true
  /\ fst (Auth.createContext req (snd (AuthResolver.logout (authenticated u) d)))
     = Return (authenticated (Store.clearRefreshToken u))
  /\ (forall current fresh,
        bcrypt_compare current (password u) = true ->
        fst (AuthService.changePassword (_id u) current fresh d) = Return true
        /\ fst (Auth.createContext req
                  (snd (AuthService.changePassword (_id u) current fresh d)))
           = Return (authenticated (AuthService.setPassword (bcrypt_hash fresh) u)))
  /\ (forall presented p,
        jwt_verify presented JWTUtils.refreshTokenSecret = Return p ->
        userId p = _id u ->
        fst (AuthResolver.refreshToken_ presented
               (snd (AuthResolver.logout (authenticated u) d)))
        = Throw AuthResolver.invalidRefreshToken)
  /\ (forall current fresh presented p,
        bcrypt_compare current (password u) = true ->
        jwt_verify presented JWTUtils.refreshTokenSecret = Return p ->
        userId p = _id u ->
        fst (AuthResolver.refreshToken_ presented
               (snd (AuthService.changePassword (_id u) current fresh d)))
        = Throw AuthResolver.invalidRefreshToken)
  /\ (forall gone : Db,
        users gone !! userId payload = None \/ reachable gone = false ->
        fst (Auth.createContext req gone) = Return anonymous).
Proof.
  intros E N V U I R.
  assert (U' : users d !! _id u = Some u) by (rewrite I; exact U).
  split.
  { rewrite createContext_cases, E, V, R, U.
    apply String.eqb_neq in N. rewrite N. reflexivity. }
  split.
  { rewrite logout_authenticated by exact R. reflexivity. }
  split.
  { rewrite logout_authenticated by exact R. cbn [snd]. rewrite I.
    apply createContext_after_alter with (token := token); assumption. }
  split.
  { intros current fresh C.
    rewrite changePassword_success by assumption. cbn [fst snd].
    split; [reflexivity |]. rewrite I.
    apply createContext_after_alter with (token := token); assumption. }
  split.
  { intros presented p V' I'.
    apply refreshToken_after_logout with (p := p); assumption. }
  split.
  { intros current fresh presented p C V' I'.
    apply refreshToken_after_changePassword with (p := p); assumption. }
  intros gone G. rewrite createContext_cases, E, V.
  apply String.eqb_neq in N. rewrite N.
  destruct G as [G | G]; rewrite G; [destruct (reachable gone) |]; reflexivity.
Qed.

Lemma access_token_outlives_revocation_witness :
  fst (@Auth.createContext Fixtures.toyJwt Fixtures.aliceRequest
         (snd (AuthResolver.logout (authenticated Fixtures.alice) Fixtures.db0)))
  = Return (authenticated (Store.clearRefreshToken Fixtures.alice)).
Proof.
  refine (proj1 (proj2 (proj2
    (@access_token_outlives_revocation Fixtures.toyJwt Fixtures.toyPassword
       Fixtures.aliceRequest Fixtures.db0 "tok-alice" Fixtures.alicePayload
       Fixtures.alice _ _ _ _ _ _)))).
  - reflexivity.
  - discriminate.
  - reflexivity.
  - reflexivity.
  - reflexivity.
  - reflexivity.
Defined.

(** ** Deleting a post *)

Lemma requireOwnership_on_context (c : GraphQLContext) (owner : string) :
  Auth.requireOwnership (context_js c) owner
  = Throw (TypeError "Cannot read properties of undefined (reading 'toString')").
Proof.
  unfold Auth.requireOwnership.
  rewrite requireAuth_on_context, context_has_no_role.
  cbn [bindC Js.strictEqStr negb]. rewrite context_has_no_id. reflexivity.
Qed.

Lemma deletePost_never_passes (id : string) (c : GraphQLContext) (d : Db)
  (p : IPost) :
  posts d !! id = Some p ->
  reachable d = true ->
  PostResolver.deletePost id c d
  = (Throw (TypeError "Cannot read properties of undefined (reading 'toString')"), d).
Proof.
  intros P R. unfold PostResolver.deletePost, bindM, Store.Post_findById, Store.guard.
  rewrite R, P. unfold liftM. rewrite requireOwnership_on_context. reflexivity.
Qed.

(** C10. Alice owns post [p1], which has comment [c1]. Her [deletePost]
    of [p1] does not return [true]: the ownership check is handed the
    context object, reads [_id] off it and throws a [TypeError]; the post
    and its comment stay in the store. The administrator fares the same. *)
Theorem deletePost_owner_throws :
  author Fixtures.post1 = _id Fixtures.alice
  /\ PostResolver.deletePost "p1" (authenticated Fixtures.alice) Fixtures.db0
     = (Throw (TypeError "Cannot read properties of undefined (reading 'toString')"),
        Fixtures.db0)
  /\ PostResolver.deletePost "p1" (authenticated Fixtures.root) Fixtures.db0
     = (Throw (TypeError "Cannot read properties of undefined (reading 'toString')"),
        Fixtures.db0)
  /\ comments Fixtures.db0 !! "c1" = Some Fixtures.comment1
  /\ comment_post Fixtures.comment1 = "p1".
Proof.
  split; [reflexivity |].
  split; [apply deletePost_never_passes with (p := Fixtures.post1); reflexivity |].
  split; [apply deletePost_never_passes with (p := Fixtures.post1); reflexivity |].
  split; reflexivity.
Qed.

(** ** The cost gate *)


Lemma didResolveOperation_within_limit
  (cfg : ComplexityAnalysis.ComplexityAnalysisConfig)
  (request : GraphQLRequest) (document : Document) :
  ComplexityAnalysis.onComplete cfg = None ->
  ComplexityAnalysis.getComplexity (ComplexityAnalysis.scalarCost cfg) document
  <= ComplexityAnalysis.maximumComplexity cfg ->
  ComplexityAnalysis.didResolveOperation cfg request document = Return tt.
Proof.
  intros C L. unfold ComplexityAnalysis.didResolveOperation.
  apply Z.ltb_ge in L. rewrite L, C. reflexivity.
Qed.




(** With a negative cost per field the measure is 0, as the library
    clamps it: three fields at cost -2 under the limit -7 are reported
    as 0 against -7, not as -6. *)
Lemma negative_cost_measures_zero :
  ComplexityAnalysis.didResolveOperation
    (ComplexityAnalysis.finalConfig
       (ComplexityAnalysis.mkPartial (Some (-7)) None (Some (-2)) None None None
          None None))
    Fixtures.getPostsRequest
    {| operation := OpQuery; name := Some "GetPosts";
       selections := [Field "posts" None
                        [Field "totalCount" None []; Field "edges" None []]] |}
  = Throw (GraphQLError "Query complexity limit of -7 exceeded, found 0."
             [("code", JsStr "QUERY_COMPLEXITY_LIMIT_EXCEEDED");
              ("complexity", JsNum (Zero false));
              ("maxComplexity", JsNum (Num.ofZ (-7)))]).
Proof. vm_compute. reflexivity. Qed.

(** C1. A query nested 12 deep passes the gate configured with
    [maximumDepth = 10]: [didResolveOperation] measures only the
    complexity (13 here, under the limit of 1000), returns normally, and
    the request goes on to the engine, whose resolvers run. *)
Theorem depth_limit_not_enforced `{JwtLib} `{CodecLib} `{Engine} :
  ComplexityAnalysis.queryDepth Fixtures.deepQuery = 12%nat
  /\ ComplexityAnalysis.maximumDepth ComplexityAnalysis.defaultConfig = 10
  /\ ComplexityAnalysis.getComplexity 1 Fixtures.deepQuery = 13
  /\ ComplexityAnalysis.didResolveOperation ComplexityAnalysis.defaultConfig
       Fixtures.deepRequest Fixtures.deepQuery = Return tt
  /\ (exists response,
        fst (Pipeline.processRequest ComplexityAnalysis.defaultConfig
               Caching.appCacheConfig 0 Fixtures.bareRequest
               Fixtures.deepRequest Fixtures.deepQuery Fixtures.world0)
        = Pipeline.Executed response
            (snd (fst (execute Fixtures.deepQuery Fixtures.deepRequest
                         anonymous Fixtures.db0))))
  /\ Pipeline.resolverInvocations
       (fst (@Pipeline.processRequest Fixtures.toyJwt Fixtures.toyCodec
               Fixtures.toyEngine ComplexityAnalysis.defaultConfig
               Caching.appCacheConfig 0 Fixtures.bareRequest
               Fixtures.deepRequest Fixtures.deepQuery Fixtures.world0))
     = 1%nat.
Proof.
  split; [reflexivity |]. split; [reflexivity |]. split; [reflexivity |].
  split; [reflexivity |]. split; [| vm_compute; reflexivity].
  unfold Pipeline.processRequest.
  change (Auth.createContext Fixtures.bareRequest (Pipeline.db Fixtures.world0))
    with (Return anonymous, Fixtures.db0).
  change (ComplexityAnalysis.didResolveOperation ComplexityAnalysis.defaultConfig
            Fixtures.deepRequest Fixtures.deepQuery) with (Return tt).
  cbv iota beta.
  replace (Caching.responseForOperation Caching.appCacheConfig 0
             Fixtures.deepRequest (name Fixtures.deepQuery)
             (Pipeline.redis Fixtures.world0)) with (@None GraphQLResponse).
  2:{ unfold Caching.responseForOperation, Caching.get.
      cbn [Pipeline.redis Fixtures.world0]. rewrite lookup_empty.
      destruct (_ && _); reflexivity. }
  destruct (execute Fixtures.deepQuery Fixtures.deepRequest anonymous Fixtures.db0)
    as [[result calls] d2].
  destruct (Caching.willSendResponse _ _ _ _ _) as [sent r'].
  cbn. eauto.
Qed.

(** ** The response cache *)

Lemma responseForOperation_miss `{CodecLib} (cfg : Caching.CacheConfig) (now : Z)
  (request : GraphQLRequest) (opName : option string)
  (redis : gmap string (string * Z)) :
  Caching.get now (Caching.keyPrefix cfg ++ Caching.generateCacheKey request) redis
  = None ->
  Caching.responseForOperation cfg now request opName redis = None.
Proof.
  intros G. unfold Caching.responseForOperation. rewrite G.
  destruct (_ && _); reflexivity.
Qed.

Lemma responseForOperation_found `{CodecLib} (cfg : Caching.CacheConfig) (now : Z)
  (request : GraphQLRequest) (opName : option string)
  (redis : gmap string (string * Z)) (cached : string) (parsed : JsVal)
  (e : Caching.CacheEntry) :
  Caching.truthyStr opName = true ->
  Js.includes (Caching.cachableOperations cfg) (JsStr "query") = true ->
  Caching.skipCache cfg opName = false ->
  Caching.get now (Caching.keyPrefix cfg ++ Caching.generateCacheKey request) redis
  = Some cached ->
  cached <> "" ->
  Caching.decode cached = Return parsed ->
  Caching.entryOf parsed = Return e ->
  Caching.responseForOperation cfg now request opName redis
  = if Num.ltb (Caching.age now e) (Js.toNumber (Caching.ttl e))
    then Some (Caching.hitResponse now e)
    else None.
Proof.
  intros T I S G N D E. unfold Caching.responseForOperation.
  rewrite T, I, S, G. cbn [andb negb].
  apply String.eqb_neq in N. rewrite N, D. cbn [bindC]. rewrite E. reflexivity.
Qed.

(** C8. Take a lookup that finds an entry: the operation is eligible,
    the key is present, and the stored text decodes to a value whose
    [timestamp], [ttl] and [data] can be read (for a parsed object,
    its properties of those names). The age of the entry at
    instant [now] is [(now - timestamp) / 1000], computed on doubles
    after the coercion of [timestamp] to a number, and the entry is
    fresh when that age is below its [ttl]. The hook answers exactly
    when the entry is fresh, and then with the entry's [data] as the
    single result, status 200 and the headers [X-Cache: HIT],
    [X-Cache-Age] (the whole seconds of the age) and [X-Cache-TTL]
    (what is left of the [ttl]). An entry that is not fresh gets the
    hook's [null], which is also the answer when the key is not in the
    keyspace at all. For an entry as the plugin writes it ([timestamp]
    in milliseconds and [ttl] in seconds, both positive integers below
    [2^53], as is the instant of the lookup) rounding plays no part:
    the entry is fresh exactly when [now - timestamp < 1000 * ttl],
    also when its time stamp lies ahead of the clock. *)
Theorem cache_hit_iff_fresh `{CodecLib} (cfg : Caching.CacheConfig) (now : Z)
  (request : GraphQLRequest) (opName : option string)
  (redis : gmap string (string * Z)) (cached : string) (parsed : JsVal)
  (e : Caching.CacheEntry) :
  Caching.truthyStr opName = true ->
  Js.includes (Caching.cachableOperations cfg) (JsStr "query") = true ->
  Caching.skipCache cfg opName = false ->
  Caching.get now (Caching.keyPrefix cfg ++ Caching.generateCacheKey request) redis
  = Some cached ->
  cached <> "" ->
  Caching.decode cached = Return parsed ->
  Caching.entryOf parsed = Return e ->
  let key := Caching.keyPrefix cfg ++ Caching.generateCacheKey request in
  let answer := Caching.responseForOperation cfg now request opName redis in
  let absent :=
    Caching.responseForOperation cfg now request opName (delete key redis) in
  let age :=
    Num.div (Num.sub (Num.ofZ now) (Js.toNumber (Caching.timestamp e)))
            (Num.ofZ 1000) in
  let fresh := Num.ltb age (Js.toNumber (Caching.ttl e)) in
  let hit :=
    {| body := Single (Caching.data e);
       http := Some
         {| status := Some 200;
            http_headers :=
              [("X-Cache", Text "HIT");
               ("X-Cache-Age", Text (Num.toString (Num.floor age)));
               ("X-Cache-TTL",
                Text (Num.toString (Num.sub (Js.toNumber (Caching.ttl e)) age)))]
         |} |} in
  absent = None
  /\ (answer = Some hit <-> fresh = true)
  /\ (answer = absent <-> fresh = false)
  /\ (forall props,
        parsed = JsObj props ->
        Caching.data e = Js.assoc "data" props
        /\ Caching.timestamp e = Js.assoc "timestamp" props
        /\ Caching.ttl e = Js.assoc "ttl" props)
  /\ (forall ts l : Z,
        Caching.timestamp e = JsNum (Num.ofZ ts) ->
        Caching.ttl e = JsNum (Num.ofZ l) ->
        0 < ts < 2 ^ 53 -> 0 < now < 2 ^ 53 -> 0 < l < 2 ^ 53 ->
        (answer = Some hit <-> now - ts < 1000 * l)
        /\ (answer = absent <-> 1000 * l <= now - ts)).
Proof.
  intros T I S G N D E key answer absent age fresh hit.
  assert (A : answer = if fresh then Some hit else None).
  { unfold answer. eapply responseForOperation_found; eassumption. }
  assert (M : absent = None).
  { apply responseForOperation_miss.
    unfold Caching.get, key. rewrite lookup_delete_eq. reflexivity. }
  assert (P : (answer = Some hit <-> fresh = true)
              /\ (answer = absent <-> fresh = false)).
  { rewrite A, M. destruct fresh; repeat split; intros X;
      try reflexivity; discriminate X. }
  destruct P as [P1 P2].
  split; [exact M |]. split; [exact P1 |]. split; [exact P2 |].
  split.
  { intros props ->. cbn in E. injection E as <-. cbn. auto. }
  intros ts l Hts Hl B1 B2 B3.
  assert (F : fresh = Z.ltb (now - ts) (1000 * l)).
  { unfold fresh, age. rewrite Hts, Hl. cbn [Js.toNumber].
    apply age_test_integers; assumption. }
  rewrite P1, P2, F. split.
  - apply Z.ltb_lt.
  - rewrite Z.ltb_ge. reflexivity.
Qed.

Lemma cache_hit_iff_fresh_witness :
  @Caching.responseForOperation Fixtures.toyCodec Caching.appCacheConfig 2500
    Fixtures.getPostsRequest (Some "GetPosts") Fixtures.redis1
  = Some {| body := Single Fixtures.getPostsResult;
            http := Some {| status := Some 200;
                            http_headers := [("X-Cache", Text "HIT");
                                             ("X-Cache-Age", Text "1");
                                             ("X-Cache-TTL", Text "298.5")] |} |}.
Proof.
  refine (proj2 (proj1 (proj2
    (@cache_hit_iff_fresh Fixtures.toyCodec Caching.appCacheConfig 2500
       Fixtures.getPostsRequest (Some "GetPosts") Fixtures.redis1 "entry"
       Fixtures.storedEntry Fixtures.entry1 _ _ _ _ _ _ _))) _).
  - reflexivity.
  - reflexivity.
  - reflexivity.
  - vm_compute. reflexivity.
  - discriminate.
  - reflexivity.
  - reflexivity.
  - vm_compute. reflexivity.
Defined.

Lemma willSendResponse_other_name `{CodecLib} (cfg : Caching.CacheConfig)
  (now : Z) (request : GraphQLRequest) (response : GraphQLResponse)
  (redis : gmap string (string * Z)) :
  Js.includes (Caching.cachableOperations cfg)
              (Caching.optStr (operationName request)) = false ->
  Caching.willSendResponse cfg now request response redis = (response, redis).
Proof.
  intros I. unfold Caching.willSendResponse.
  destruct (body response) as [res|]; [|reflexivity].
  destruct (Js.getProp res "errors") as [errors|]; [|reflexivity].
  rewrite I, andb_false_r. reflexivity.
Qed.

(** C3. The read operation [GetPosts] is run twice, at instants [t1]
    and [t2], against an empty cache, with the configuration of
    [src/app.ts]. The write path tests the operation's name against
    [cachableOperations = ["query"]], so nothing is stored: the cache is
    still empty after the first run, the second run is executed by the
    engine again, and neither response carries an [X-Cache] header. *)
Theorem named_query_is_never_a_hit `{JwtLib} `{CodecLib} `{Engine} (t1 t2 : Z) :
  let run t w :=
    Pipeline.processRequest ComplexityAnalysis.defaultConfig
      Caching.appCacheConfig t Fixtures.bareRequest Fixtures.getPostsRequest
      Fixtures.getPostsDocument w in
  let first := run t1 Fixtures.world0 in
  let second := run t2 (snd first) in
  operation Fixtures.getPostsDocument = OpQuery
  /\ Caching.skipCache Caching.appCacheConfig (name Fixtures.getPostsDocument)
     = false
  /\ Pipeline.redis (snd first) = ∅
  /\ (exists response calls, fst second = Pipeline.Executed response calls)
  /\ Pipeline.header "X-Cache" (fst first) = None
  /\ Pipeline.header "X-Cache" (fst second) = None
  /\ Pipeline.header "X-Cache" (fst second) <> Some (Text "HIT").
Proof.
  assert (R : forall t w, Pipeline.redis w = ∅ ->
            exists result calls d,
              Pipeline.processRequest ComplexityAnalysis.defaultConfig
                Caching.appCacheConfig t Fixtures.bareRequest
                Fixtures.getPostsRequest Fixtures.getPostsDocument w
              = (Pipeline.Executed
                   {| body := Single result;
                      http := Some {| status := None; http_headers := [] |} |}
                   calls,
                 {| Pipeline.db := d; Pipeline.redis := ∅ |})).
  { intros t w E. unfold Pipeline.processRequest.
    rewrite createContext_cases. cbn [Auth.authHeaderOf Fixtures.bareRequest
      Auth.headers Auth.header Auth.orElse JWTUtils.extractTokenFromHeader].
    change (ComplexityAnalysis.didResolveOperation _ _ _) with (Return tt).
    cbv iota beta.
    rewrite responseForOperation_miss
      by (unfold Caching.get; rewrite E, lookup_empty; reflexivity).
    destruct (execute _ _ _ _) as [[result calls] d2].
    rewrite willSendResponse_other_name by reflexivity.
    rewrite E. eauto. }
  intros run first second.
  destruct (R t1 Fixtures.world0 eq_refl) as (r1 & c1 & d1 & E1).
  destruct (R t2 (snd first) ltac:(unfold first, run; rewrite E1; reflexivity))
    as (r2 & c2 & d2 & E2).
  unfold second, run. rewrite E2. unfold first, run. rewrite E1. cbn.
  repeat split; eauto; try discriminate.
Qed.

(** The one operation name the write path does accept is [query]
    itself, and there the marker is lost on the way out: a response
    served from the cache passes through [willSendResponse] too, which
    stores it again and sets [X-Cache] to [MISS]. *)
Lemma hit_marker_overwritten :
  let out :=
    @Pipeline.processRequest Fixtures.toyJwt Fixtures.toyCodec Fixtures.toyEngine
      ComplexityAnalysis.defaultConfig Caching.appCacheConfig 2000
      Fixtures.bareRequest Fixtures.queryNamedRequest
      Fixtures.queryNamedDocument Fixtures.world2 in
  (exists response, fst out = Pipeline.FromCache response)
  /\ Pipeline.header "X-Cache" (fst out) = Some (Text "MISS").
Proof.
  vm_compute. split; [eexists; reflexivity | reflexivity].
Qed.

(** ** The operation fingerprint *)

Lemma unescape_escape (c : ascii) (r : string) :
  Json.unescapeChar (Json.escapeChar c ++ r) = Some (c, r).
Proof.
  destruct c as [[] [] [] [] [] [] [] []]; reflexivity.
Qed.

Lemma elements_eq l : Json.stringify (JsArr l) = "[" ++ Json.elements true l ++ "]".
Proof. reflexivity. Qed.
Lemma members_eq l : Json.stringify (JsObj l) = "{" ++ Json.members true l ++ "}".
Proof. reflexivity. Qed.


Lemma escape_unique (s1 : string) :
  forall s2 r1 r2,
    Json.escape s1 ++ String Json.dquote r1 = Json.escape s2 ++ String Json.dquote r2 ->
    s1 = s2 /\ r1 = r2.
Proof.
  induction s1 as [|c1 s1 IH]; intros [|c2 s2] r1 r2 E; simpl in E.
  - injection E as E. auto.
  - apply (f_equal Json.unescapeChar) in E.
    rewrite append_assoc, unescape_escape in E. discriminate E.
  - apply (f_equal Json.unescapeChar) in E.
    rewrite append_assoc, unescape_escape in E. discriminate E.
  - apply (f_equal Json.unescapeChar) in E.
    rewrite !append_assoc, !unescape_escape in E.
    injection E as -> E. apply IH in E as [-> ->]. auto.
Qed.

Lemma quote_unique (s1 s2 r1 r2 : string) :
  Json.quote s1 ++ r1 = Json.quote s2 ++ r2 -> s1 = s2 /\ r1 = r2.
Proof.
  unfold Json.quote. simpl. intros E. injection E as E.
  rewrite !append_assoc in E. simpl in E. apply escape_unique in E. exact E.
Qed.

Lemma JsVal_nested_ind (P : JsVal -> Prop) :
  P JsUndefined -> P JsNull -> (forall b, P (JsBool b)) ->
  (forall n, P (JsNum n)) -> (forall s, P (JsStr s)) ->
  (forall l, Forall P l -> P (JsArr l)) ->
  (forall l, Forall (fun kv => P (snd kv)) l -> P (JsObj l)) ->
  forall v, P v.
Proof.
  intros Hu Hn Hb Hz Hs Ha Ho. fix IH 1.
  intros [ | | b | n | s | l | l];
    [exact Hu | exact Hn | apply Hb | apply Hz | apply Hs | apply Ha | apply Ho].
  - induction l as [|x l IHl]; constructor; [apply IH | exact IHl].
  - induction l as [|[k x] l IHl]; constructor; [apply IH | exact IHl].
Qed.

Lemma delimited_not_number (c : ascii) (r : string) :
  Json.delimited (String c r) = true -> Num.isNumberChar c = false.
Proof.
  unfold Json.delimited. destruct (Json.charKind c); [discriminate |].
  apply negb_true_iff.
Qed.

Lemma numberChars_span (t1 : string) :
  forall t2 r1 r2,
    Num.numberChars t1 = true -> Num.numberChars t2 = true ->
    Json.delimited r1 = true -> Json.delimited r2 = true ->
    t1 ++ r1 = t2 ++ r2 -> t1 = t2 /\ r1 = r2.
Proof.
  induction t1 as [|c1 t1 IH]; intros [|c2 t2] r1 r2 N1 N2 D1 D2 E; cbn in E.
  - auto.
  - exfalso. subst r1. apply delimited_not_number in D1.
    cbn in N2. apply andb_true_iff in N2 as [N2 _]. congruence.
  - exfalso. subst r2. apply delimited_not_number in D2.
    cbn in N1. apply andb_true_iff in N1 as [N1 _]. congruence.
  - injection E as -> E. cbn in N1, N2.
    apply andb_true_iff in N1 as [_ N1], N2 as [_ N2].
    destruct (IH t2 r1 r2 N1 N2 D1 D2 E) as [-> ->]. auto.
Qed.

Lemma normalize_number (x y : Number) :
  Num.isFinite x = true -> Num.isFinite y = true ->
  x = y \/ (Num.isZero x = true /\ Num.isZero y = true) ->
  Json.normalize (JsNum x) = Json.normalize (JsNum y).
Proof.
  intros Fx Fy [-> | [Zx Zy]]; [reflexivity |].
  cbn. rewrite Fx, Fy, Zx, Zy. reflexivity.
Qed.

Lemma number_unique (x y : Number) (r1 r2 : string) :
  Num.valid x = true -> Num.valid y = true ->
  Num.isFinite x = true -> Num.isFinite y = true ->
  Json.delimited r1 = true -> Json.delimited r2 = true ->
  Num.toString x ++ r1 = Num.toString y ++ r2 ->
  Json.normalize (JsNum x) = Json.normalize (JsNum y) /\ r1 = r2.
Proof.
  intros Vx Vy Fx Fy D1 D2 E.
  destruct (toString_chars x Vx Fx) as [Cx _].
  destruct (toString_chars y Vy Fy) as [Cy _].
  destruct (numberChars_span _ _ _ _ Cx Cy D1 D2 E) as [T R].
  split; [| exact R].
  apply normalize_number; [assumption | assumption |].
  apply toString_injective; assumption.
Qed.

Lemma digit_kind (c : ascii) :
  Num.isDigit c = true \/ c = "-"%char -> Json.charKind c = Some Json.KNum.
Proof.
  intros [D | ->]; [| reflexivity].
  destruct c as [[] [] [] [] [] [] [] []]; try discriminate D; reflexivity.
Qed.

Lemma stringify_head (v : JsVal) :
  Json.isJson v = true ->
  exists c s, Json.stringify v = String c s /\ Json.charKind c = Some (Json.kindOf v).
Proof.
  destruct v as [ | | [] | x | s | l | l]; cbn; intros J; eauto.
  destruct (Num.isFinite x) eqn:F; [| eauto].
  destruct (toString_chars x J F) as [_ (c & rest & E & C)].
  exists c, rest. split; [exact E | apply digit_kind, C].
Qed.

Lemma same_kind (v1 v2 : JsVal) (r1 r2 : string) :
  Json.isJson v1 = true -> Json.isJson v2 = true ->
  Json.stringify v1 ++ r1 = Json.stringify v2 ++ r2 ->
  Json.kindOf v1 = Json.kindOf v2.
Proof.
  intros J1 J2.
  destruct (stringify_head v1 J1) as (c1 & s1 & H1 & K1).
  destruct (stringify_head v2 J2) as (c2 & s2 & H2 & K2).
  rewrite H1, H2. simpl. intros E. injection E as -> _. congruence.
Qed.

Lemma value_not_closing (v : JsVal) (r : string) (c : ascii) (r' : string) :
  Json.isJson v = true ->
  Json.charKind c = None -> Json.stringify v ++ r <> String c r'.
Proof.
  intros J.
  destruct (stringify_head v J) as (c1 & s1 & H1 & K1).
  rewrite H1. simpl. intros N E. injection E as -> _. congruence.
Qed.

Lemma isJson_defined (v : JsVal) : Json.isJson v = true -> Json.isUndefined v = false.
Proof. destruct v; simpl; congruence. Qed.

Lemma elements_tail_delimited (l : list JsVal) (r : string) :
  Json.delimited (Json.elements false l ++ String "]" r) = true.
Proof. destruct l; reflexivity. Qed.

Lemma members_tail_delimited (l : list (string * JsVal)) (r : string) :
  forallb (fun kv => Json.isJson (snd kv)) l = true ->
  Json.delimited (Json.members false l ++ String "}" r) = true.
Proof.
  destruct l as [|[k x] l]; [reflexivity |]. simpl. intros J.
  apply andb_true_iff in J as [J _]. rewrite (isJson_defined _ J). reflexivity.
Qed.

Lemma elements_unique (l1 : list JsVal) :
  Forall Json.uniquelyReadable l1 ->
  forall b l2 r1 r2,
    forallb Json.isJson l1 = true -> forallb Json.isJson l2 = true ->
    Json.elements b l1 ++ String "]" r1 = Json.elements b l2 ++ String "]" r2 ->
    List.map Json.normalize l1 = List.map Json.normalize l2 /\ r1 = r2.
Proof.
  induction 1 as [|x1 l1 U _ IH]; intros b [|x2 l2] r1 r2 J1 J2 E.
  - simpl in E. injection E as ->. auto.
  - exfalso. simpl in J2. apply andb_true_iff in J2 as [Jx2 J2].
    destruct b; simpl in E; [|discriminate E].
    rewrite append_assoc in E. symmetry in E.
    revert E. apply value_not_closing; [exact Jx2 | reflexivity].
  - exfalso. simpl in J1. apply andb_true_iff in J1 as [Jx1 J1].
    destruct b; simpl in E; [|discriminate E].
    rewrite append_assoc in E.
    revert E. apply value_not_closing; [exact Jx1 | reflexivity].
  - simpl in J1, J2.
    apply andb_true_iff in J1 as [Jx1 J1], J2 as [Jx2 J2].
    assert (E' : Json.stringify x1 ++ (Json.elements false l1 ++ String "]" r1)
                 = Json.stringify x2 ++ (Json.elements false l2 ++ String "]" r2)).
    { destruct b; simpl in E; [|injection E as E]; rewrite !append_assoc in E;
        exact E. }
    apply U in E' as [Ex E']; auto using elements_tail_delimited.
    apply IH in E' as [El ->]; auto.
    cbn [List.map]. rewrite Ex, El. auto.
Qed.

Lemma members_unique (l1 : list (string * JsVal)) :
  Forall (fun kv => Json.uniquelyReadable (snd kv)) l1 ->
  forall b l2 r1 r2,
    forallb (fun kv => Json.isJson (snd kv)) l1 = true ->
    forallb (fun kv => Json.isJson (snd kv)) l2 = true ->
    Json.members b l1 ++ String "}" r1 = Json.members b l2 ++ String "}" r2 ->
    List.map (fun kv => (fst kv, Json.normalize (snd kv))) l1
    = List.map (fun kv => (fst kv, Json.normalize (snd kv))) l2
    /\ r1 = r2.
Proof.
  induction 1 as [|[k1 x1] l1 U _ IH]; intros b [|[k2 x2] l2] r1 r2 J1 J2 E.
  - simpl in E. injection E as ->. auto.
  - exfalso. simpl in J2. apply andb_true_iff in J2 as [Jx2 J2].
    simpl in E. rewrite (isJson_defined _ Jx2) in E.
    destruct b; simpl in E; discriminate E.
  - exfalso. simpl in J1. apply andb_true_iff in J1 as [Jx1 J1].
    simpl in E. rewrite (isJson_defined _ Jx1) in E.
    destruct b; simpl in E; discriminate E.
  - simpl in J1, J2, U.
    apply andb_true_iff in J1 as [Jx1 J1], J2 as [Jx2 J2].
    simpl in E. rewrite (isJson_defined _ Jx1), (isJson_defined _ Jx2) in E.
    assert (E' : Json.stringify x1 ++ (Json.members false l1 ++ String "}" r1)
                 = Json.stringify x2 ++ (Json.members false l2 ++ String "}" r2)
                 /\ k1 = k2).
    { destruct b; simpl in E; rewrite !append_assoc in E;
        simpl in E; rewrite !append_assoc in E; injection E as E;
        apply escape_unique in E as [-> E];
        injection E as E; auto. }
    destruct E' as [E' ->].
    apply U in E' as [Ex E']; auto using members_tail_delimited.
    apply IH in E' as [El ->]; auto.
    cbn [List.map fst snd]. rewrite Ex, El. auto.
Qed.

Ltac other_kind E J1 J2 v2 :=
  let K := fresh "K" in
  let F := fresh "F" in
  pose proof (same_kind _ _ _ _ J1 J2 E) as K;
  destruct v2 as [ | | [] | x2 | s2 | l2 | l2];
  try discriminate J1; try discriminate J2;
  cbn [Json.kindOf] in K;
  try (destruct (Num.isFinite x2) eqn:F);
  try discriminate K.

Lemma stringify_unique (v : JsVal) : Json.uniquelyReadable v.
Proof.
  revert v. apply JsVal_nested_ind.
  - intros v2 r1 r2 J1. discriminate J1.
  - intros v2 r1 r2 J1 J2 D1 D2 E. other_kind E J1 J2 v2.
    + simpl in E. injection E as ->. auto.
    + cbn in E. rewrite F in E. cbn in E. injection E as ->.
      cbn. rewrite F. auto.
  - intros [] v2 r1 r2 J1 J2 D1 D2 E; other_kind E J1 J2 v2;
      simpl in E; injection E as ->; auto.
  - intros x1 v2 r1 r2 J1 J2 D1 D2 E.
    destruct (Num.isFinite x1) eqn:F1.
    + assert (K1 : Json.kindOf (JsNum x1) = Json.KNum) by (cbn; rewrite F1; reflexivity).
      pose proof (same_kind _ _ _ _ J1 J2 E) as K. rewrite K1 in K.
      destruct v2 as [ | | [] | x2 | s2 | l2 | l2]; try discriminate K.
      cbn in K. destruct (Num.isFinite x2) eqn:F2; [| discriminate K].
      cbn [Json.stringify] in E. rewrite F1, F2 in E.
      apply number_unique in E; assumption.
    + assert (K1 : Json.kindOf (JsNum x1) = Json.KNull) by (cbn; rewrite F1; reflexivity).
      pose proof (same_kind _ _ _ _ J1 J2 E) as K. rewrite K1 in K.
      destruct v2 as [ | | [] | x2 | s2 | l2 | l2]; try discriminate K;
        try discriminate J2.
      * cbn in E. rewrite F1 in E. cbn in E. injection E as ->.
        cbn. rewrite F1. auto.
      * cbn in K. destruct (Num.isFinite x2) eqn:F2; [discriminate K |].
        cbn in E. rewrite F1, F2 in E. cbn in E. injection E as ->.
        cbn. rewrite F1, F2. auto.
  - intros s1 v2 r1 r2 J1 J2 D1 D2 E. other_kind E J1 J2 v2.
    simpl in E. apply quote_unique in E as [-> ->]; auto.
  - intros l1 IH v2 r1 r2 J1 J2 D1 D2 E. other_kind E J1 J2 v2.
    change (String "[" (Json.elements true l1 ++ "]") ++ r1
            = String "[" (Json.elements true l2 ++ "]") ++ r2) in E.
    simpl in E. injection E as E. rewrite !append_assoc in E. simpl in E.
    apply elements_unique in E as [El ->]; auto.
    cbn [Json.normalize]. rewrite El. auto.
  - intros l1 IH v2 r1 r2 J1 J2 D1 D2 E. other_kind E J1 J2 v2.
    change (String "{" (Json.members true l1 ++ "}") ++ r1
            = String "{" (Json.members true l2 ++ "}") ++ r2) in E.
    simpl in E. injection E as E. rewrite !append_assoc in E. simpl in E.
    apply members_unique in E as [El ->]; auto.
    cbn [Json.normalize]. rewrite El. auto.
Qed.

(** Two values with the same text have the same normal form. *)
Theorem stringify_injective (v1 v2 : JsVal) :
  Json.isJson v1 = true -> Json.isJson v2 = true ->
  Json.stringify v1 = Json.stringify v2 ->
  Json.normalize v1 = Json.normalize v2.
Proof.
  intros J1 J2 E.
  assert (E' : Json.stringify v1 ++ "" = Json.stringify v2 ++ "") by (rewrite E; reflexivity).
  apply stringify_unique in E' as [N _]; auto.
Qed.

Lemma isUndefined_normalize (v : JsVal) :
  Json.isUndefined (Json.normalize v) = Json.isUndefined v.
Proof.
  destruct v as [ | | b | x | s | l | l]; try reflexivity.
  cbn. destruct (Num.isFinite x), (Num.isZero x); reflexivity.
Qed.

(** A value and its normal form have the same text. *)
Lemma stringify_normalize (v : JsVal) :
  Json.stringify (Json.normalize v) = Json.stringify v.
Proof.
  revert v. apply JsVal_nested_ind; try reflexivity.
  - intros x. cbn. destruct (Num.isFinite x) eqn:F; [| reflexivity].
    destruct (Num.isZero x) eqn:Z; cbn; [| rewrite F; reflexivity].
    destruct x; try discriminate Z. reflexivity.
  - intros l IH. cbn [Json.normalize]. rewrite !elements_eq.
    f_equal. f_equal. generalize true.
    induction IH as [|x l Hx _ IHl]; intros b; [reflexivity |].
    cbn [List.map Json.elements]. rewrite Hx, IHl. reflexivity.
  - intros l IH. cbn [Json.normalize]. rewrite !members_eq.
    f_equal. f_equal. generalize true.
    induction IH as [|[k x] l Hx _ IHl]; intros b; [reflexivity |].
    cbn [List.map Json.members fst snd] in *.
    rewrite isUndefined_normalize, Hx, !IHl. reflexivity.
Qed.

Lemma members_defined (l : list (string * JsVal)) (b : bool) :
  Json.members b l = Json.members b (List.filter Json.defined l).
Proof.
  revert b. induction l as [|[k x] l IH]; intros b; [reflexivity |].
  simpl. unfold Json.defined at 1. simpl.
  destruct (Json.isUndefined x) eqn:U; simpl.
  - apply IH.
  - rewrite U, <- IH. reflexivity.
Qed.

Lemma defined_json (k : string) (v : JsVal) :
  Json.isJson v = true -> Json.defined (k, v) = true.
Proof. intros J. unfold Json.defined. simpl. rewrite (isJson_defined _ J). reflexivity. Qed.

Lemma keyData_injective (r1 r2 : GraphQLRequest) :
  Caching.wellFormed r1 = true -> Caching.wellFormed r2 = true ->
  Json.stringify (Caching.keyData r1) = Json.stringify (Caching.keyData r2) ->
  Caching.normalizeRequest r1 = Caching.normalizeRequest r2.
Proof.
  intros W1 W2 E. unfold Caching.keyData in E.
  change (String "{" (Json.members true
            [("query", Caching.optStr (query r1));
             ("variables", default JsUndefined (variables r1));
             ("operationName", Caching.optStr (operationName r1))] ++ "}")
          = String "{" (Json.members true
            [("query", Caching.optStr (query r2));
             ("variables", default JsUndefined (variables r2));
             ("operationName", Caching.optStr (operationName r2))] ++ "}")) in E.
  rewrite (members_defined _ true), (members_defined [("query", _); _; _] true) in E.
  change (Json.stringify (JsObj (List.filter Json.defined
            [("query", Caching.optStr (query r1));
             ("variables", default JsUndefined (variables r1));
             ("operationName", Caching.optStr (operationName r1))]))
          = Json.stringify (JsObj (List.filter Json.defined
            [("query", Caching.optStr (query r2));
             ("variables", default JsUndefined (variables r2));
             ("operationName", Caching.optStr (operationName r2))]))) in E.
  destruct r1 as [q1 v1 n1], r2 as [q2 v2 n2].
  unfold Caching.wellFormed in W1, W2. unfold Caching.normalizeRequest.
  cbn [variables query operationName] in *.
  apply stringify_injective in E.
  - destruct q1, v1 as [v1|], n1, q2, v2 as [v2|], n2; simpl in E;
      try rewrite (defined_json _ _ W1) in E;
      try rewrite (defined_json _ _ W2) in E; simpl in E; simpl; congruence.
  - destruct q1, v1 as [v1|], n1; simpl;
      try rewrite (defined_json _ _ W1); simpl; try rewrite W1; reflexivity.
  - destruct q2, v2 as [v2|], n2; simpl;
      try rewrite (defined_json _ _ W2); simpl; try rewrite W2; reflexivity.
Qed.

Lemma normalize_lossless (v : JsVal) :
  Json.lossless v = true -> Json.normalize v = v.
Proof.
  revert v.
  apply (JsVal_nested_ind
           (fun v => Json.lossless v = true -> Json.normalize v = v));
    try (intros; reflexivity).
  - intros x L. cbn in L. apply andb_true_iff in L as [F Z].
    cbn. rewrite F. destruct x as [ | s | [] | s m e]; try reflexivity.
    discriminate Z.
  - intros l IH L. cbn in L. cbn [Json.normalize]. f_equal.
    induction IH as [|x l Hx _ IHl]; [reflexivity |].
    cbn in L. apply andb_true_iff in L as [Lx L].
    cbn [List.map]. rewrite (Hx Lx), (IHl L). reflexivity.
  - intros l IH L. cbn in L. cbn [Json.normalize]. f_equal.
    induction IH as [|[k x] l Hx _ IHl]; [reflexivity |].
    cbn in L, Hx. apply andb_true_iff in L as [Lx L].
    cbn [List.map fst snd]. rewrite (Hx Lx), (IHl L). reflexivity.
Qed.

Lemma normalizeRequest_lossless (r : GraphQLRequest) :
  Caching.lossless r = true -> Caching.normalizeRequest r = r.
Proof.
  destruct r as [q [v|] n]; unfold Caching.lossless, Caching.normalizeRequest;
    cbn; intros L; [rewrite (normalize_lossless v L) |]; reflexivity.
Qed.

Lemma keyData_normalize (r : GraphQLRequest) :
  Json.stringify (Caching.keyData (Caching.normalizeRequest r))
  = Json.stringify (Caching.keyData r).
Proof.
  assert (K : Caching.keyData (Caching.normalizeRequest r)
              = Json.normalize (Caching.keyData r))
    by (destruct r as [[q|] [v|] [n|]]; reflexivity).
  rewrite K. apply stringify_normalize.
Qed.

(** C9. The cache key is a function of the request, so equal requests
    have equal keys. The text that is hashed does not determine the
    request: it determines the request up to the sign of the zeros
    among its variables and up to the replacement of a number that is
    not finite by [null], and no further. Two requests with the same
    normal form have the same key, whatever the digest; two requests
    whose normal forms differ in query text, variables or operation
    name give different texts to the digest, so their keys can only
    coincide if the digest function collides on two distinct texts.
    Among requests whose variables hold finite numbers only and no
    [-0], any two different requests give different texts. *)
Theorem fingerprint_deterministic_and_input_sensitive `{CodecLib}
  (r1 r2 : GraphQLRequest) :
  Caching.wellFormed r1 = true -> Caching.wellFormed r2 = true ->
  (r1 = r2 -> Caching.generateCacheKey r1 = Caching.generateCacheKey r2)
  /\ (Json.stringify (Caching.keyData r1) = Json.stringify (Caching.keyData r2)
      <-> Caching.normalizeRequest r1 = Caching.normalizeRequest r2)
  /\ (Caching.normalizeRequest r1 = Caching.normalizeRequest r2 ->
      Caching.generateCacheKey r1 = Caching.generateCacheKey r2)
  /\ (Caching.normalizeRequest r1 <> Caching.normalizeRequest r2 ->
      Caching.generateCacheKey r1 = Caching.generateCacheKey r2 ->
      Json.stringify (Caching.keyData r1) <> Json.stringify (Caching.keyData r2)
      /\ sha256_hex (Json.stringify (Caching.keyData r1))
         = sha256_hex (Json.stringify (Caching.keyData r2)))
  /\ (Caching.lossless r1 = true -> Caching.lossless r2 = true ->
      r1 <> r2 ->
      Json.stringify (Caching.keyData r1) <> Json.stringify (Caching.keyData r2)).
Proof.
  intros W1 W2.
  assert (D : Json.stringify (Caching.keyData r1)
              = Json.stringify (Caching.keyData r2)
              <-> Caching.normalizeRequest r1 = Caching.normalizeRequest r2).
  { split.
    - apply keyData_injective; assumption.
    - intros E. rewrite <- (keyData_normalize r1), <- (keyData_normalize r2), E.
      reflexivity. }
  split; [intros ->; reflexivity |]. split; [exact D |]. split; [| split].
  - intros E. unfold Caching.generateCacheKey. apply D in E. rewrite E. reflexivity.
  - intros N E. split; [| exact E]. intros T. apply N, D, T.
  - intros L1 L2 N T. apply N. apply D in T.
    rewrite !normalizeRequest_lossless in T by assumption. exact T.
Qed.

Lemma fingerprint_deterministic_and_input_sensitive_witness :
  Json.stringify (Caching.keyData Fixtures.getPostsRequest)
  = Json.stringify (Caching.keyData Fixtures.queryNamedRequest)
  <-> Caching.normalizeRequest Fixtures.getPostsRequest
      = Caching.normalizeRequest Fixtures.queryNamedRequest.
Proof.
  refine (proj1 (proj2
    (@fingerprint_deterministic_and_input_sensitive Fixtures.toyCodec
       Fixtures.getPostsRequest Fixtures.queryNamedRequest _ _))).
  - reflexivity.
  - reflexivity.
Defined.

(** C9, counterexample. A request whose variable is [-0] and the
    request that differs from it only in that the variable is [0] are
    two requests, both well formed, and so are a request whose variable
    overflowed to [Infinity] and the one where it is [null]. Within
    each pair the text handed to the digest is the same, so the two
    requests share their cache key whatever the digest function is. *)
Lemma zero_sign_shares_fingerprint :
  Fixtures.offsetRequest (JsNum (Zero true))
  <> Fixtures.offsetRequest (JsNum (Zero false))
  /\ Fixtures.offsetRequest (JsNum (Infinity false))
     <> Fixtures.offsetRequest JsNull
  /\ Caching.wellFormed (Fixtures.offsetRequest (JsNum (Zero true))) = true
  /\ Caching.wellFormed (Fixtures.offsetRequest (JsNum (Zero false))) = true
  /\ Caching.wellFormed (Fixtures.offsetRequest (JsNum (Infinity false))) = true
  /\ Caching.wellFormed (Fixtures.offsetRequest JsNull) = true
  /\ Json.stringify (Caching.keyData (Fixtures.offsetRequest (JsNum (Zero true))))
     = Json.stringify (Caching.keyData (Fixtures.offsetRequest (JsNum (Zero false))))
  /\ Json.stringify
       (Caching.keyData (Fixtures.offsetRequest (JsNum (Infinity false))))
     = Json.stringify (Caching.keyData (Fixtures.offsetRequest JsNull))
  /\ (forall codec : CodecLib,
        @Caching.generateCacheKey codec (Fixtures.offsetRequest (JsNum (Zero true)))
        = @Caching.generateCacheKey codec
            (Fixtures.offsetRequest (JsNum (Zero false)))
        /\ @Caching.generateCacheKey codec
             (Fixtures.offsetRequest (JsNum (Infinity false)))
           = @Caching.generateCacheKey codec (Fixtures.offsetRequest JsNull)).
Proof.
  repeat split; try discriminate; reflexivity.
Qed.

(* ===================================================================== *)
(** * Further properties *)
(* ===================================================================== *)

(** ** Bearer extraction *)

Lemma splitSpace_parts (s : string) :
  Forall (fun p => AuthHelpers.noSpace p = true) (Js.splitSpace s).
Proof.
  induction s as [|c s IH]; simpl.
  - repeat constructor.
  - destruct (Ascii.eqb c " ") eqn:C.
    + constructor; [reflexivity | exact IH].
    + destruct (Js.splitSpace s) as [|p ps].
      * repeat constructor. simpl. rewrite C. reflexivity.
      * inversion IH as [|? ? P PS]; subst. constructor; [|exact PS].
        simpl. rewrite C, P. reflexivity.
Qed.

Lemma splitSpace_whole (t : string) :
  AuthHelpers.noSpace t = true -> Js.splitSpace t = [t].
Proof.
  induction t as [|c t IH]; simpl; [reflexivity |].
  intros N. apply andb_true_iff in N as [C N].
  apply negb_true_iff in C. rewrite C, (IH N). reflexivity.
Qed.

(** X1. A token is extracted from a header exactly when the header is
    the word [Bearer], one space, and a token without spaces; the token
    extracted is that one. *)
Theorem extractTokenFromHeader_iff (h token : string) :
  JWTUtils.extractTokenFromHeader (Some h) = Some token
  <-> h = "Bearer " ++ token /\ AuthHelpers.noSpace token = true.
Proof.
  split.
  - intros E. split; [apply extractTokenFromHeader_form; exact E |].
    unfold JWTUtils.extractTokenFromHeader in E.
    destruct (String.eqb h ""); [discriminate |].
    pose proof (splitSpace_parts h) as P.
    destruct (Js.splitSpace h) as [|p0 [|p1 [|p2 ps]]]; try discriminate.
    destruct (String.eqb p0 "Bearer"); [|discriminate].
    injection E as <-. inversion P as [|? ? _ P1]; subst.
    inversion P1; subst. assumption.
  - intros [-> N]. unfold JWTUtils.extractTokenFromHeader.
    simpl. rewrite (splitSpace_whole _ N). reflexivity.
Qed.

(** ** The helpers applied to a user document *)

(** X2. Given a user document, [requireRole] returns it when the
    user's role is one of the required roles and otherwise throws the
    insufficient-permissions error that lists them. *)
Theorem requireRole_on_user (u : IUser) (requiredRoles : list string) :
  (In (UserRole_value (role u)) requiredRoles ->
   Auth.requireRole (user_js u) requiredRoles = Return (user_js u))
  /\ (~ In (UserRole_value (role u)) requiredRoles ->
      Auth.requireRole (user_js u) requiredRoles
      = Throw (AuthenticationError
                 ("Insufficient permissions. Required roles: "
                  ++ Js.join ", " requiredRoles))).
Proof.
  assert (I : Js.includes requiredRoles (JsStr (UserRole_value (role u))) = true
              <-> In (UserRole_value (role u)) requiredRoles).
  { unfold Js.includes. rewrite existsb_exists. split.
    - intros (x & X & E). simpl in E. apply String.eqb_eq in E. subst. exact X.
    - intros X. exists (UserRole_value (role u)). split; [exact X |].
      simpl. apply String.eqb_refl. }
  unfold Auth.requireRole, Auth.requireAuth.
  change (Js.truthy (user_js u)) with true.
  change (Js.getProp (user_js u) "user") with (Return JsUndefined).
  change (Js.getProp (user_js u) "role")
    with (Return (JsStr (UserRole_value (role u)))).
  cbn [negb bindC].
  split; intros X.
  - apply I in X. rewrite X. reflexivity.
  - destruct (Js.includes _ _); [|reflexivity].
    destruct (X (proj1 I eq_refl)).
Qed.

Lemma requireRole_on_user_witness :
  Auth.requireRole (user_js Fixtures.root) ["ADMIN"; "MODERATOR"]
  = Return (user_js Fixtures.root).
Proof.
  refine (proj1 (requireRole_on_user Fixtures.root ["ADMIN"; "MODERATOR"]) _).
  simpl. left. reflexivity.
Defined.

(** X3. Given a user document, [requireOwnership] and
    [requireOwnerOrAdmin] return it exactly when the user's id is the
    resource owner's id. The role opens nothing: whatever the role, a
    user who is not the owner is refused. *)
Theorem requireOwnership_on_user (u : IUser) (resourceUserId : string) :
  Auth.requireOwnership (user_js u) resourceUserId
  = (if String.eqb (_id u) resourceUserId then Return (user_js u)
     else Throw (AuthenticationError "You can only access your own resources"))
  /\ AuthHelpers.requireOwnerOrAdmin (user_js u) resourceUserId
     = Auth.requireOwnership (user_js u) resourceUserId.
Proof.
  split; [|reflexivity].
  unfold Auth.requireOwnership, Auth.requireAuth.
  destruct u as [i n e p r t]. destruct r; cbn;
    destruct (String.eqb i resourceUserId); reflexivity.
Qed.

(** ** Mutations behind the ownership and admin helpers *)

(** X4. [updatePost], [publishPost], [unpublishPost] and
    [updateComment] never write: whatever the caller, the input and the
    store, each ends in a throw and leaves the store as it was. When
    the target exists the throw is the [TypeError] of the ownership
    helper reading [_id] off the context; otherwise it is the not-found
    error (or the store's own failure). *)
Theorem ownership_guarded_mutations_never_write `{SchemaLib}
  (id content : string) (input : UpdatePostInput) (b : bool)
  (context : GraphQLContext) (db : Db) :
  PostMutations.updatePost id input context db
  = PostMutations.guardOutcome db (bool_decide (is_Some (posts db !! id)))
      PostResolver.postNotFound
  /\ PostMutations.setPublication b id context db
     = PostMutations.guardOutcome db (bool_decide (is_Some (posts db !! id)))
         PostResolver.postNotFound
  /\ PostMutations.publishPost id context db
     = PostMutations.setPublication true id context db
  /\ PostMutations.unpublishPost id context db
     = PostMutations.setPublication false id context db
  /\ CommentResolver.updateComment id content context db
     = PostMutations.guardOutcome db (bool_decide (is_Some (comments db !! id)))
         CommentResolver.commentNotFound.
Proof.
  unfold PostMutations.updatePost, PostMutations.setPublication,
    CommentResolver.updateComment, PostMutations.guardOutcome, bindM, liftM,
    Store.Post_findById, Store2.Comment_findById, Store.guard, throwM.
  repeat split; destruct (reachable db); try reflexivity.
  - destruct (posts db !! id); [|reflexivity].
    rewrite requireOwnership_on_context. reflexivity.
  - destruct (posts db !! id); [|reflexivity].
    rewrite requireOwnership_on_context. reflexivity.
  - destruct (comments db !! id); [|reflexivity].
    rewrite requireOwnership_on_context. reflexivity.
Qed.

(** X5. [deleteUser] and [updateUserRole] never write: for every
    caller, administrators included, the admin helper throws before the
    store is touched. *)
Theorem admin_mutations_never_write (id : string) (r : UserRole)
  (context : GraphQLContext) (db : Db) :
  UserMutations.deleteUser id context db
  = (Throw (AuthenticationError "Insufficient permissions. Required roles: admin"),
     db)
  /\ UserMutations.updateUserRole id r context db
     = (Throw (AuthenticationError
                 "Insufficient permissions. Required roles: admin"), db).
Proof.
  unfold UserMutations.deleteUser, UserMutations.updateUserRole, bindM, liftM,
    Auth.requireAdmin.
  rewrite requireRole_on_context. split; reflexivity.
Qed.

(** ** Logout and refresh *)

(** X6. [logout] ends in one of two ways. For an authenticated caller
    on a reachable store it returns [true] and clears the refresh token
    of the caller's document, touching no other user, no post and no
    comment. In every other case, the anonymous caller included, it
    throws the [LOGOUT_FAILED] error and changes nothing. *)
Theorem logout_characterised (context : GraphQLContext) (db : Db) :
  AuthResolver.logout context db
  = match user context with
    | Some u =>
        if reachable db
        then (Return true,
              Store2.withUsers
                (alter Store.clearRefreshToken (_id u) (users db)) db)
        else (Throw (GraphQLError "Logout failed" [("code", JsStr "LOGOUT_FAILED")]),
              db)
    | None =>
        (Throw (GraphQLError "Logout failed" [("code", JsStr "LOGOUT_FAILED")]), db)
    end
  /\ posts (snd (AuthResolver.logout context db)) = posts db
  /\ comments (snd (AuthResolver.logout context db)) = comments db
  /\ (forall k,
        (forall u, user context = Some u -> _id u <> k) ->
        users (snd (AuthResolver.logout context db)) !! k = users db !! k).
Proof.
  assert (E : AuthResolver.logout context db
    = match user context with
      | Some u =>
          if reachable db
          then (Return true,
                Store2.withUsers
                  (alter Store.clearRefreshToken (_id u) (users db)) db)
          else (Throw (GraphQLError "Logout failed"
                         [("code", JsStr "LOGOUT_FAILED")]), db)
      | None =>
          (Throw (GraphQLError "Logout failed" [("code", JsStr "LOGOUT_FAILED")]),
           db)
      end).
  { unfold AuthResolver.logout, tryCatchM, bindM, liftM.
    rewrite requireAuth_on_context.
    destruct (user context) as [u|]; [|reflexivity].
    cbn. unfold Store.User_unsetRefreshToken, Store.guard, Store2.withUsers.
    destruct (reachable db); reflexivity. }
  rewrite E. split; [reflexivity |].
  destruct (user context) as [u|]; [destruct (reachable db) |];
    cbn; repeat split; try reflexivity.
  intros k N. apply lookup_alter_ne. exact (N u eq_refl).
Qed.

(** X7. The [refreshToken] mutation never writes. It succeeds exactly
    when the presented token verifies as a refresh token, its subject
    is in the store, and the token is the one stored for that subject;
    the payload it then signs is taken from the stored document, so it
    carries the subject's current role. Every refusal is the
    invalid-refresh-token error; only an unreachable store gives the
    [TOKEN_REFRESH_FAILED] error. *)
Theorem refreshToken_characterised `{JwtLib} (presented : string) (db : Db) :
  snd (AuthResolver.refreshToken_ presented db) = db
  /\ (forall p,
        fst (AuthResolver.refreshToken_ presented db) = Return p
        <-> exists payload u,
              jwt_verify presented JWTUtils.refreshTokenSecret = Return payload
              /\ reachable db = true
              /\ users db !! userId payload = Some u
              /\ refreshToken u = Some presented
              /\ p = Login.payloadOf u)
  /\ (forall e,
        fst (AuthResolver.refreshToken_ presented db) = Throw e ->
        e = AuthResolver.invalidRefreshToken
        \/ (reachable db = false
            /\ e = GraphQLError "Token refresh failed"
                     [("code", JsStr "TOKEN_REFRESH_FAILED")])).
Proof.
  unfold AuthResolver.refreshToken_, tryCatchM, JWTUtils.verifyRefreshToken,
    bindM, Store.User_findById, Store.guard, throwM, retM.
  destruct (jwt_verify presented JWTUtils.refreshTokenSecret) as [payload|e0].
  2:{ cbn. split; [reflexivity |]. split.
      - intros p. split; [discriminate |].
        intros (? & ? & V & _). discriminate V.
      - intros e E. injection E as <-. left. reflexivity. }
  destruct (reachable db) eqn:R.
  2:{ cbn. split; [reflexivity |]. split.
      - intros p. split; [discriminate |].
        intros (? & ? & _ & X & _). discriminate X.
      - intros e E. injection E as <-. right. split; reflexivity. }
  destruct (users db !! userId payload) as [u|] eqn:U.
  2:{ cbn. split; [reflexivity |]. split.
      - intros p. split; [discriminate |].
        intros (q & ? & V & _ & X & _). injection V as <-. congruence.
      - intros e E. injection E as <-. left. reflexivity. }
  destruct (refreshToken u) as [stored|] eqn:T.
  2:{ cbn. split; [reflexivity |]. split.
      - intros p. split; [discriminate |].
        intros (q & v & V & _ & X & Y & _). injection V as <-. congruence.
      - intros e E. injection E as <-. left. reflexivity. }
  destruct (String.eqb stored presented) eqn:S.
  - apply String.eqb_eq in S. subst stored. cbn.
    split; [reflexivity |]. split.
    + intros p. split.
      * intros E. injection E as <-. exists payload, u. repeat split; assumption.
      * intros (q & v & V & _ & X & _ & ->). injection V as <-.
        rewrite U in X. injection X as <-. reflexivity.
    + intros e E. discriminate E.
  - apply String.eqb_neq in S. cbn. split; [reflexivity |]. split.
    + intros p. split; [discriminate |].
      intros (q & v & V & _ & X & Y & _). injection V as <-.
      rewrite U in X. injection X as <-. congruence.
    + intros e E. injection E as <-. left. reflexivity.
Qed.

(** ** Login *)

Lemma findOne_email_found `{SchemaLib} (e : string) (db : Db) (u : IUser) :
  fst (Store2.User_findOne_email e db) = Return (Some u) ->
  reachable db = true
  /\ Store2.User_findOne_email e db = (Return (Some u), db)
  /\ exists k, users db !! k = Some u.
Proof.
  unfold Store2.User_findOne_email, Store.guard.
  destruct (reachable db); [|discriminate].
  cbn. intros E. injection E as E. rewrite E.
  split; [reflexivity |]. split; [reflexivity |].
  destruct (List.find _ _) as [[k v]|] eqn:F; [|discriminate E].
  cbn in E. injection E as ->. apply List.find_some in F as [F _].
  exists k. apply elem_of_map_to_list, list_elem_of_In. exact F.
Qed.

Lemma findOne_email_none `{SchemaLib} (e : string) (db : Db) :
  fst (Store2.User_findOne_email e db) = Return None ->
  Store2.User_findOne_email e db = (Return None, db).
Proof.
  unfold Store2.User_findOne_email, Store.guard.
  destruct (reachable db); [|discriminate].
  cbn. intros E. injection E as ->. reflexivity.
Qed.

(** X8. A login that fails changes nothing in the store, and it fails
    in the same way whether the email is unknown or the password is
    wrong: both give the one [INVALID_CREDENTIALS] error. The only other
    error a login can end in is [LOGIN_FAILED]. *)
Theorem login_failures `{SchemaLib} `{PasswordLib} `{JwtSigner}
  (now : Z) (input : Login.LoginInput) (db : Db) :
  (fst (Store2.User_findOne_email (Login.login_email input) db) = Return None ->
   Login.login now input db = (Throw Login.invalidCredentials, db))
  /\ (forall u,
        fst (Store2.User_findOne_email (Login.login_email input) db)
        = Return (Some u) ->
        bcrypt_compare (Login.login_password input) (password u) = false ->
        Login.login now input db = (Throw Login.invalidCredentials, db))
  /\ (reachable db = false ->
      Login.login now input db = (Throw Login.loginFailed, db))
  /\ (forall e,
        fst (Login.login now input db) = Throw e ->
        snd (Login.login now input db) = db
        /\ (e = Login.invalidCredentials \/ e = Login.loginFailed)).
Proof.
  split; [| split; [| split]].
  - intros F. apply findOne_email_none in F.
    unfold Login.login, tryCatchM, bindM. rewrite F. reflexivity.
  - intros u F C. apply findOne_email_found in F as (_ & F & _).
    unfold Login.login, tryCatchM, bindM. rewrite F, C. reflexivity.
  - intros R. unfold Login.login, tryCatchM, bindM,
      Store2.User_findOne_email, Store.guard. rewrite R. reflexivity.
  - intros e. unfold Login.login, tryCatchM, bindM,
      Store2.User_findOne_email, Store.guard.
    destruct (reachable db) eqn:R.
    + destruct (snd <$> List.find _ _) as [u|].
      * destruct (bcrypt_compare _ _); cbn.
        -- unfold Store2.User_save, Store.guard. cbn. rewrite R. cbn.
           discriminate.
        -- intros E. injection E as <-. auto.
      * cbn. intros E. injection E as <-. auto.
    + cbn. intros E. injection E as <-. auto.
Qed.

Lemma login_failures_witness :
  @Login.login Fixtures2.toySchema Fixtures.toyPassword Fixtures2.toySigner 0
     {| Login.login_email := "alice@example.com";
        Login.login_password := "guess" |} Fixtures.db0
  = (Throw Login.invalidCredentials, Fixtures.db0).
Proof.
  refine (proj1 (proj2
    (@login_failures Fixtures2.toySchema Fixtures.toyPassword Fixtures2.toySigner
       0 {| Login.login_email := "alice@example.com";
            Login.login_password := "guess" |} Fixtures.db0))
    Fixtures.alice _ _).
  - vm_compute. reflexivity.
  - reflexivity.
Defined.

Lemma login_success `{SchemaLib} `{PasswordLib} `{JwtSigner}
  (now : Z) (input : Login.LoginInput) (db : Db) (u : IUser) :
  fst (Store2.User_findOne_email (Login.login_email input) db) = Return (Some u) ->
  bcrypt_compare (Login.login_password input) (password u) = true ->
  Login.login now input db
  = (Return {| Login.payload_user :=
                 Login.withRefreshToken
                   (Login.issuedRefreshToken (Login.generateTokens now u)) u;
               Login.payload_tokens := Login.generateTokens now u;
               Login.expiresIn := 900 |},
     Store2.withUsers
       (<[_id u := Login.withRefreshToken
                     (Login.issuedRefreshToken (Login.generateTokens now u)) u]>
          (users db)) db).
Proof.
  intros F C. apply findOne_email_found in F as (R & F & _).
  unfold Login.login, tryCatchM, bindM. rewrite F, C. cbn.
  unfold Store2.User_save, Store.guard. rewrite R. reflexivity.
Qed.

(** X9. The session a login opens. After a successful login the
    refresh token just issued is the one stored for the user, and the
    [refreshToken] mutation accepts it, answering with the user's own
    payload. Any other refresh token for that user, an earlier one
    included, is refused from then on, and after [logout] the issued
    one is refused as well. *)
Theorem login_opens_session `{SchemaLib} `{PasswordLib} `{JwtSigner} `{JwtLib}
  (now : Z) (input : Login.LoginInput) (db : Db) (u : IUser) :
  fst (Store2.User_findOne_email (Login.login_email input) db) = Return (Some u) ->
  bcrypt_compare (Login.login_password input) (password u) = true ->
  jwt_verify (jwt_sign now (Login.payloadOf u) JWTUtils.refreshTokenSecret)
             JWTUtils.refreshTokenSecret
  = Return (Login.payloadOf u) ->
  let issued := jwt_sign now (Login.payloadOf u) JWTUtils.refreshTokenSecret in
  let after := snd (Login.login now input db) in
  users after !! _id u = Some (Login.withRefreshToken issued u)
  /\ fst (AuthResolver.refreshToken_ issued after) = Return (Login.payloadOf u)
  /\ (forall other p,
        other <> issued ->
        jwt_verify other JWTUtils.refreshTokenSecret = Return p ->
        userId p = _id u ->
        fst (AuthResolver.refreshToken_ other after)
        = Throw AuthResolver.invalidRefreshToken)
  /\ fst (AuthResolver.refreshToken_ issued
            (snd (AuthResolver.logout
                    (authenticated (Login.withRefreshToken issued u)) after)))
     = Throw AuthResolver.invalidRefreshToken.
Proof.
  intros F C V issued after.
  pose proof (findOne_email_found _ _ _ F) as (R & _ & _).
  assert (A : after = Store2.withUsers
                (<[_id u := Login.withRefreshToken issued u]> (users db)) db).
  { unfold after. rewrite (login_success now input db u F C). reflexivity. }
  assert (L : users after !! _id u = Some (Login.withRefreshToken issued u)).
  { rewrite A. cbn. apply lookup_insert_eq. }
  assert (R' : reachable after = true) by (rewrite A; exact R).
  split; [exact L |]. split; [| split].
  - unfold AuthResolver.refreshToken_, tryCatchM, JWTUtils.verifyRefreshToken,
      bindM, Store.User_findById, Store.guard.
    fold issued in V. rewrite V, R'. cbn [userId Login.payloadOf].
    rewrite L. cbn. rewrite String.eqb_refl. reflexivity.
  - intros other p N V' I.
    unfold AuthResolver.refreshToken_, tryCatchM, JWTUtils.verifyRefreshToken,
      bindM, Store.User_findById, Store.guard.
    rewrite V', R', I, L. cbn.
    destruct (String.eqb issued other) eqn:E; [|reflexivity].
    apply String.eqb_eq in E. congruence.
  - apply refreshToken_after_logout with (p := Login.payloadOf u);
      [exact L | exact R' | exact V | reflexivity].
Qed.

Lemma login_opens_session_witness :
  fst (@AuthResolver.refreshToken_ Fixtures.toyJwt "refresh-alice"
         (snd (@Login.login Fixtures2.toySchema Fixtures.toyPassword
                 Fixtures2.toySigner 0 Fixtures2.aliceLogin Fixtures.db0)))
  = Return Fixtures.alicePayload.
Proof.
  refine (proj1 (proj2
    (@login_opens_session Fixtures2.toySchema Fixtures.toyPassword
       Fixtures2.toySigner Fixtures.toyJwt 0 Fixtures2.aliceLogin Fixtures.db0
       Fixtures.alice _ _ _))).
  - vm_compute. reflexivity.
  - reflexivity.
  - reflexivity.
Defined.

(** ** Comments *)

(** X10. Who may delete a comment. For an authenticated caller and an
    existing comment, [deleteComment] removes that comment (and nothing
    else) and returns [true] when the caller wrote the comment, has the
    role [ADMIN], or is the author of the comment's post; otherwise it
    throws the [FORBIDDEN] error and the store is unchanged. An
    anonymous caller gets a [TypeError], not an authentication error. *)
Theorem deleteComment_authorisation (id : string) (u : IUser) (c : IComment)
  (db : Db) :
  reachable db = true ->
  comments db !! id = Some c ->
  let allowed :=
    String.eqb (_id u) (comment_author c)
    || PostResolver.roleIsAdmin u
    || match posts db !! comment_post c with
       | Some p => String.eqb (_id u) (author p)
       | None => false
       end in
  CommentResolver.deleteComment id (authenticated u) db
  = (if allowed
     then (Return true, Store2.withComments (delete id (comments db)) db)
     else (Throw CommentResolver.forbidden, db))
  /\ CommentResolver.deleteComment id anonymous db
     = (Throw (TypeError "Cannot read properties of undefined (reading '_id')"),
        db).
Proof.
  intros R C allowed. unfold allowed. clear allowed.
  destruct db as [us ps cs r]. cbn in R, C. subst r.
  unfold CommentResolver.deleteComment, bindM, liftM, Store2.Comment_findById,
    Store.guard.
  cbn [reachable comments]. rewrite C. split; [|reflexivity].
  rewrite requireAuth_on_context. cbn [user authenticated].
  unfold Store2.Comment_findByIdAndDelete, Store.Post_findById, Store.guard,
    Store2.withComments, retM, throwM, PostResolver.roleIsAdmin.
  destruct u as [i n e p r t].
  destruct r; cbn;
    (destruct (String.eqb i (comment_author c)); cbn; [reflexivity |]);
    try reflexivity;
    (destruct (ps !! comment_post c) as [q|]; cbn; [|reflexivity]);
    destruct (String.eqb i (author q)); reflexivity.
Qed.

Lemma deleteComment_authorisation_witness :
  CommentResolver.deleteComment "c1" (authenticated Fixtures.alice) Fixtures.db0
  = (Return true,
     Store2.withComments (delete "c1" (comments Fixtures.db0)) Fixtures.db0).
Proof.
  exact (proj1 (deleteComment_authorisation "c1" Fixtures.alice Fixtures.comment1
                  Fixtures.db0 eq_refl eq_refl)).
Defined.

(** X11. What an anonymous caller sees of hidden content. On a
    reachable store [Query.post] answers an anonymous caller with the
    post when it exists and is published, and with the same
    [POST_NOT_FOUND] error whether the post is unpublished or does not
    exist; [Query.comment] does the same for a comment whose post is
    unpublished, with [COMMENT_NOT_FOUND]. Neither writes. *)
Theorem hidden_content_looks_missing (populated : IUser -> string)
  (id : string) (db : Db) :
  reachable db = true ->
  PostQuery.post populated id anonymous db
  = (match posts db !! id with
     | Some p => if published p then Return p
                 else Throw PostResolver.postNotFound
     | None => Throw PostResolver.postNotFound
     end, db)
  /\ (forall c p,
        comments db !! id = Some c ->
        posts db !! comment_post c = Some p ->
        CommentResolver.comment id anonymous db
        = (if published p then Return c
           else Throw CommentResolver.commentNotFound, db))
  /\ (comments db !! id = None ->
      CommentResolver.comment id anonymous db
      = (Throw CommentResolver.commentNotFound, db)).
Proof.
  intros R. split; [| split].
  - unfold PostQuery.post, PostResolver.post, bindM, Store.Post_findById,
      Store.User_findById,
      Store.guard. rewrite R.
    destruct (posts db !! id) as [p|]; [|reflexivity].
    rewrite R. destruct (published p); reflexivity.
  - intros c p C P.
    unfold CommentResolver.comment, bindM, Store2.Comment_findById,
      Store.Post_findById, Store.guard. rewrite R, C, R, P.
    destruct (published p); reflexivity.
  - intros C.
    unfold CommentResolver.comment, bindM, Store2.Comment_findById, Store.guard.
    rewrite R, C. reflexivity.
Qed.

Lemma hidden_content_looks_missing_witness :
  PostQuery.post (fun a => _id a) "p1" anonymous Fixtures.db0
  = (Return Fixtures.post1, Fixtures.db0).
Proof.
  exact (proj1 (hidden_content_looks_missing (fun a => _id a) "p1" Fixtures.db0
                  eq_refl)).
Defined.

(** ** What the cost gate measures *)

Lemma Selection_nested_ind (P : Selection -> Prop) :
  (forall n ext sel, Forall P sel -> P (Field n ext sel)) ->
  forall s, P s.
Proof.
  intros H. fix IH 1. intros [n ext sel]. apply H.
  induction sel as [|x sel IHsel]; constructor; [apply IH | exact IHsel].
Qed.

Lemma fieldComplexity_eq (c : Z) (n : string) (ext : option Z)
  (sel : list Selection) :
  ComplexityAnalysis.fieldComplexity c (Field n ext sel)
  = default c ext + ComplexityAnalysis.nodeComplexity c sel.
Proof.
  cbn [ComplexityAnalysis.fieldComplexity].
  unfold ComplexityAnalysis.nodeComplexity. do 2 f_equal.
  induction sel as [|x sel IH]; [reflexivity |].
  cbn [ComplexityAnalysis.sumComplexity]. rewrite <- IH. reflexivity.
Qed.


Lemma fieldDepth_eq (n : string) (ext : option Z) (sel : list Selection) :
  ComplexityAnalysis.fieldDepth (Field n ext sel)
  = match sel with
    | [] => O
    | _ => S (ComplexityAnalysis.deepest sel)
    end.
Proof. destruct sel; reflexivity. Qed.








Lemma depth_below_complexity (c : Z) (s : Selection) :
  Measures.costly c s = true ->
  Z.of_nat (ComplexityAnalysis.fieldDepth s)
  < ComplexityAnalysis.fieldComplexity c s.
Proof.
  induction s as [n ext sel IH] using Selection_nested_ind.
  rewrite fieldComplexity_eq, fieldDepth_eq. cbn [Measures.costly].
  unfold ComplexityAnalysis.nodeComplexity.
  intros A. apply andb_true_iff in A as [A0 A]. apply Z.leb_le in A0.
  assert (Hsum : 0 <= ComplexityAnalysis.sumComplexity c sel
                 /\ (sel <> [] ->
                     Z.of_nat (ComplexityAnalysis.deepest sel)
                     < ComplexityAnalysis.sumComplexity c sel)).
  { clear A0. induction sel as [|x sel IHsel].
    - split; [cbn; lia | congruence].
    - cbn [forallb] in A. apply andb_true_iff in A as [Ax A].
      inversion IH as [|? ? Hx Hsel]; subst.
      specialize (Hx Ax). destruct (IHsel Hsel A) as [P Q].
      cbn [ComplexityAnalysis.deepest ComplexityAnalysis.sumComplexity].
      split; [lia |]. intros _.
      destruct sel as [|y sel].
      + cbn [ComplexityAnalysis.deepest ComplexityAnalysis.sumComplexity]. lia.
      + specialize (Q ltac:(discriminate)). lia. }
  destruct Hsum as [P Q].
  destruct sel as [|y sel].
  - cbn [ComplexityAnalysis.sumComplexity]. lia.
  - specialize (Q ltac:(discriminate)). lia.
Qed.

(** X13. When every field costs at least one, an operation is never
    as deep as it is complex: its nesting depth is below its measured
    complexity. So an operation whose depth has reached
    [maximumComplexity] is refused by the gate, whatever [maximumDepth]
    is set to. *)
Theorem deep_operations_are_complex
  (cfg : ComplexityAnalysis.ComplexityAnalysisConfig)
  (request : GraphQLRequest) (document : Document) :
  selections document <> [] ->
  forallb (Measures.costly (ComplexityAnalysis.scalarCost cfg))
          (selections document) = true ->
  Z.of_nat (ComplexityAnalysis.queryDepth document)
  < ComplexityAnalysis.getComplexity (ComplexityAnalysis.scalarCost cfg) document
  /\ (ComplexityAnalysis.maximumComplexity cfg
      <= Z.of_nat (ComplexityAnalysis.queryDepth document) ->
      exists e,
        ComplexityAnalysis.didResolveOperation cfg request document = Throw e).
Proof.
  intros N A.
  assert (D : Z.of_nat (ComplexityAnalysis.queryDepth document)
              < ComplexityAnalysis.getComplexity
                  (ComplexityAnalysis.scalarCost cfg) document).
  { unfold ComplexityAnalysis.queryDepth, ComplexityAnalysis.getComplexity,
      ComplexityAnalysis.nodeComplexity.
    apply Z.lt_le_trans
      with (m := ComplexityAnalysis.sumComplexity
                   (ComplexityAnalysis.scalarCost cfg) (selections document));
      [|apply Z.le_max_l].
    destruct (selections document) as [|x sel]; [contradiction |].
    clear N. revert x A. induction sel as [|y sel IH]; intros x A.
    - cbn in *. apply andb_true_iff in A as [Ax _].
      pose proof (depth_below_complexity _ _ Ax). lia.
    - cbn [forallb] in A. apply andb_true_iff in A as [Ax A].
      pose proof (depth_below_complexity _ _ Ax) as Hx.
      specialize (IH y A).
      cbn [ComplexityAnalysis.deepest ComplexityAnalysis.sumComplexity] in *.
      lia. }
  split; [exact D |]. intros M.
  unfold ComplexityAnalysis.didResolveOperation.
  assert (L : Z.ltb (ComplexityAnalysis.maximumComplexity cfg)
                (ComplexityAnalysis.getComplexity
                   (ComplexityAnalysis.scalarCost cfg) document) = true)
    by (apply Z.ltb_lt; lia).
  rewrite L. cbn. destruct (ComplexityAnalysis.isGraphQLError _); eauto.
Qed.

Lemma deep_operations_are_complex_witness :
  Z.of_nat (ComplexityAnalysis.queryDepth Fixtures.deepQuery)
  < ComplexityAnalysis.getComplexity 1 Fixtures.deepQuery.
Proof.
  refine (proj1 (deep_operations_are_complex ComplexityAnalysis.defaultConfig
                   Fixtures.deepRequest Fixtures.deepQuery _ _)).
  - discriminate.
  - reflexivity.
Defined.

(** ** Writing to and reading from the cache *)

Lemma willSendResponse_stores `{CodecLib} (cfg : Caching.CacheConfig) (now : Z)
  (request : GraphQLRequest) (response : GraphQLResponse) (res errors : JsVal)
  (redis : gmap string (string * Z)) :
  body response = Single res ->
  Js.getProp res "errors" = Return errors ->
  Js.truthy errors = false ->
  Caching.truthyStr (operationName request) = true ->
  Js.includes (Caching.cachableOperations cfg)
              (Caching.optStr (operationName request)) = true ->
  Caching.skipCache cfg (operationName request) = false ->
  Caching.strLen
    (Measures.storedText cfg (Json.stringify (Measures.cacheData cfg now res)))
  <= Caching.orNum (Caching.maxCacheSize cfg) 1000000 ->
  snd (Caching.willSendResponse cfg now request response redis)
  = Caching.setex now (Caching.keyPrefix cfg ++ Caching.generateCacheKey request)
      (Caching.orNum (Caching.defaultTTL cfg) 300)
      (Measures.storedText cfg (Json.stringify (Measures.cacheData cfg now res)))
      redis.
Proof.
  intros B E T N I S L. unfold Caching.willSendResponse.
  rewrite B, E, T, N, I, S. cbn [andb negb]. cbv zeta.
  change (if Caching.enableCompression cfg && _ then _ else _)
    with (Measures.storedText cfg
            (Json.stringify (Measures.cacheData cfg now res))).
  apply Z.leb_le in L. rewrite L.
  destruct (http response); reflexivity.
Qed.

(** X14. What is stored is served. Let [willSendResponse] run at
    instant [now] on an error-free single result of an operation that
    passes its guard, with a text that fits the size ceiling and that
    the codec reads back. Then, at any instant [later] less than the
    time to live after [now] (instants and time to live being positive
    integers below [2^53]), [responseForOperation] for the same request
    answers from the cache: the stored result as the single result,
    status 200, and the headers [X-Cache: HIT], [X-Cache-Age] with the
    whole seconds elapsed since [now] and [X-Cache-TTL] with what is
    left of the time to live. *)
Theorem stored_response_is_served `{CodecLib} (cfg : Caching.CacheConfig)
  (now later : Z) (request : GraphQLRequest) (response : GraphQLResponse)
  (res errors : JsVal) (redis : gmap string (string * Z)) :
  body response = Single res ->
  Js.getProp res "errors" = Return errors ->
  Js.truthy errors = false ->
  Caching.truthyStr (operationName request) = true ->
  Js.includes (Caching.cachableOperations cfg)
              (Caching.optStr (operationName request)) = true ->
  Js.includes (Caching.cachableOperations cfg) (JsStr "query") = true ->
  Caching.skipCache cfg (operationName request) = false ->
  let ttl := Caching.orNum (Caching.defaultTTL cfg) 300 in
  let entry := Measures.cacheData cfg now res in
  let text := Measures.storedText cfg (Json.stringify entry) in
  Caching.strLen text <= Caching.orNum (Caching.maxCacheSize cfg) 1000000 ->
  text <> "" ->
  Caching.decode text = Return entry ->
  0 < now < 2 ^ 53 -> 0 < later < 2 ^ 53 -> 0 < ttl < 2 ^ 53 ->
  later - now < 1000 * ttl ->
  let age := Num.div (Num.sub (Num.ofZ later) (Num.ofZ now)) (Num.ofZ 1000) in
  Caching.responseForOperation cfg later request (operationName request)
    (snd (Caching.willSendResponse cfg now request response redis))
  = Some {| body := Single res;
            http := Some
              {| status := Some 200;
                 http_headers :=
                   [("X-Cache", Text "HIT");
                    ("X-Cache-Age", Text (Num.toString (Num.floor age)));
                    ("X-Cache-TTL",
                     Text (Num.toString (Num.sub (Num.ofZ ttl) age)))] |} |}.
Proof.
  intros B E T N I Q S ttl entry text L NE D B1 B2 B3 W age.
  rewrite (willSendResponse_stores cfg now request response res errors redis)
    by assumption.
  fold entry. fold text. fold ttl.
  rewrite (responseForOperation_found cfg later request (operationName request)
             _ text entry
             {| Caching.data := res; Caching.timestamp := JsNum (Num.ofZ now);
                Caching.ttl := JsNum (Num.ofZ ttl) |});
    try assumption.
  - unfold Caching.age. cbn [Caching.timestamp Caching.ttl Js.toNumber].
    rewrite age_test_integers by assumption.
    replace (Z.ltb (later - now) (1000 * ttl)) with true
      by (symmetry; apply Z.ltb_lt; exact W).
    reflexivity.
  - unfold Caching.get, Caching.setex. rewrite lookup_insert_eq.
    replace (Z.ltb later _) with true; [reflexivity |].
    symmetry. apply Z.ltb_lt. lia.
  - reflexivity.
Qed.

Lemma stored_response_is_served_witness :
  @Caching.responseForOperation Fixtures2.echoCodec Caching.appCacheConfig 2000
    Fixtures.queryNamedRequest (Some "query")
    (snd (@Caching.willSendResponse Fixtures2.echoCodec Caching.appCacheConfig
            1000 Fixtures.queryNamedRequest
            {| body := Single Fixtures.getPostsResult; http := None |} ∅))
  = Some {| body := Single Fixtures.getPostsResult;
            http := Some {| status := Some 200;
                            http_headers := [("X-Cache", Text "HIT");
                                             ("X-Cache-Age", Text "1");
                                             ("X-Cache-TTL", Text "299")] |} |}.
Proof.
  refine (@stored_response_is_served Fixtures2.echoCodec Caching.appCacheConfig
            1000 2000 Fixtures.queryNamedRequest
            {| body := Single Fixtures.getPostsResult; http := None |}
            Fixtures.getPostsResult JsUndefined ∅ _ _ _ _ _ _ _ _ _ _ _ _ _ _).
  - reflexivity.
  - reflexivity.
  - reflexivity.
  - reflexivity.
  - reflexivity.
  - reflexivity.
  - reflexivity.
  - vm_compute. discriminate.
  - vm_compute. discriminate.
  - vm_compute. reflexivity.
  - split; reflexivity.
  - split; reflexivity.
  - split; reflexivity.
  - vm_compute. reflexivity.
Defined.

(** X15. What [willSendResponse] never does. It never changes the body
    of the response and never touches a cache key other than the one of
    the request. When it does write, the result had no errors, the
    operation was named and not on the skip list, and the text written
    is within the size ceiling and set to expire one time to live after
    [now]. *)
Theorem willSendResponse_frame `{CodecLib} (cfg : Caching.CacheConfig) (now : Z)
  (request : GraphQLRequest) (response : GraphQLResponse)
  (redis : gmap string (string * Z)) :
  let out := Caching.willSendResponse cfg now request response redis in
  let key := Caching.keyPrefix cfg ++ Caching.generateCacheKey request in
  body (fst out) = body response
  /\ (forall k, k <> key -> snd out !! k = redis !! k)
  /\ (snd out = redis
      \/ exists res errors text,
           body response = Single res
           /\ Js.getProp res "errors" = Return errors
           /\ Js.truthy errors = false
           /\ Caching.truthyStr (operationName request) = true
           /\ Caching.skipCache cfg (operationName request) = false
           /\ Caching.strLen text
              <= Caching.orNum (Caching.maxCacheSize cfg) 1000000
           /\ snd out
              = <[key := (text,
                          now + 1000 * Caching.orNum (Caching.defaultTTL cfg) 300)]>
                  redis).
Proof.
  intros out key. unfold out, Caching.willSendResponse.
  destruct (body response) as [res|] eqn:B; [|cbn; rewrite B; auto].
  destruct (Js.getProp res "errors") as [errors|] eqn:E; [|cbn; rewrite B; auto].
  destruct (Caching.truthyStr _) eqn:T; [|cbn; rewrite B; auto].
  destruct (Js.truthy errors) eqn:N; [cbn; rewrite B; auto |].
  destruct (Js.includes _ _) eqn:I; [|cbn; rewrite B; auto].
  destruct (Caching.skipCache _ _) eqn:S; [cbn; rewrite B; auto |].
  cbn [andb negb]. cbv zeta.
  change (if Caching.enableCompression cfg && _ then _ else _)
    with (Measures.storedText cfg
            (Json.stringify (Measures.cacheData cfg now res))).
  set (text := Measures.storedText cfg
                 (Json.stringify (Measures.cacheData cfg now res))).
  fold key.
  destruct (Z.leb _ _) eqn:L; [|cbn; rewrite B; auto].
  apply Z.leb_le in L.
  assert (K : forall k, k <> key ->
            Caching.setex now key (Caching.orNum (Caching.defaultTTL cfg) 300)
              text redis !! k = redis !! k).
  { intros k K. unfold Caching.setex. apply lookup_insert_ne. congruence. }
  assert (W : exists res0 errors0 text0,
            Single res = Single res0
            /\ Js.getProp res0 "errors" = Return errors0
            /\ Js.truthy errors0 = false
            /\ true = true /\ false = false
            /\ Caching.strLen text0
               <= Caching.orNum (Caching.maxCacheSize cfg) 1000000
            /\ Caching.setex now key
                 (Caching.orNum (Caching.defaultTTL cfg) 300) text redis
               = <[key := (text0,
                     now + 1000 * Caching.orNum (Caching.defaultTTL cfg) 300)]>
                   redis).
  { exists res, errors, text. repeat split; assumption. }
  destruct (http response) as [h|]; cbn [fst snd body];
    (split; [try reflexivity; exact B | split; [exact K | right; exact W]]).
Qed.

(** ** Masking of logged variables *)

Lemma mask_object (fields : list string) (props : list (string * JsVal)) :
  Logging.maskSensitiveData fields (JsObj props)
  = JsObj (Logging.maskFields fields (Logging.descend fields props)).
Proof.
  cbn [Logging.maskSensitiveData]. do 2 f_equal.
  induction props as [|[k v] props IH]; [reflexivity |].
  cbn [Logging.descend List.map fst snd]. f_equal. exact IH.
Qed.

Lemma mask_array (fields : list string) (items : list JsVal) :
  Logging.maskSensitiveData fields (JsArr items)
  = JsObj (Logging.maskFields fields
             (Logging.descend fields (Logging.indexed O items))).
Proof.
  cbn [Logging.maskSensitiveData]. do 2 f_equal.
  generalize O. induction items as [|v items IH]; intros i; [reflexivity |].
  cbn [Logging.indexed Logging.descend List.map fst snd]. f_equal. apply IH.
Qed.

Lemma hasOwn_false (f : string) (m : list (string * JsVal)) :
  Logging.hasOwn f m = false -> Forall (fun kv => fst kv <> f) m.
Proof.
  induction m as [|[k x] m IH]; cbn; [constructor |].
  intros E. apply orb_false_iff in E as [E1 E2].
  constructor; [cbn; apply String.eqb_neq; exact E1 | apply IH; exact E2].
Qed.

Lemma hasOwn_assign (f k : string) (v : JsVal) (m : list (string * JsVal)) :
  Logging.hasOwn f (Logging.assign k v m) = Logging.hasOwn f m.
Proof.
  induction m as [|[k' x] m IH]; cbn; [reflexivity |]. rewrite IH. reflexivity.
Qed.

Lemma hasOwn_app (f : string) (m1 m2 : list (string * JsVal)) :
  Logging.hasOwn f (m1 ++ m2)%list = Logging.hasOwn f m1 || Logging.hasOwn f m2.
Proof.
  induction m1 as [|[k x] m1 IH]; cbn; [reflexivity |].
  rewrite IH, orb_assoc. reflexivity.
Qed.

Lemma assign_absent (f : string) (v : JsVal) (m : list (string * JsVal)) :
  Logging.hasOwn f m = false -> Logging.assign f v m = m.
Proof.
  induction m as [|[k x] m IH]; cbn; [reflexivity |].
  intros E. apply orb_false_iff in E as [E1 E2]. rewrite E1, (IH E2). reflexivity.
Qed.

Lemma assign_app (f : string) (v : JsVal) (m1 m2 : list (string * JsVal)) :
  Logging.assign f v (m1 ++ m2)%list
  = (Logging.assign f v m1 ++ Logging.assign f v m2)%list.
Proof.
  induction m1 as [|[k x] m1 IH]; cbn; [reflexivity |]. rewrite IH. reflexivity.
Qed.

Lemma assign_assign (f g : string) (v : JsVal) (m : list (string * JsVal)) :
  Logging.assign f v (Logging.assign g v m)
  = Logging.assign g v (Logging.assign f v m).
Proof.
  induction m as [|[k x] m IH]; cbn; [reflexivity |]. rewrite IH.
  destruct (String.eqb k f), (String.eqb k g); reflexivity.
Qed.

Lemma assign_twice (f : string) (v : JsVal) (m : list (string * JsVal)) :
  Logging.assign f v (Logging.assign f v m) = Logging.assign f v m.
Proof.
  induction m as [|[k x] m IH]; cbn; [reflexivity |]. rewrite IH.
  destruct (String.eqb k f); reflexivity.
Qed.

Lemma maskField_own (m : list (string * JsVal)) (g : string) :
  Logging.hasOwn g m = true ->
  Logging.maskField m g = Logging.assign g Logging.masked m.
Proof. intros O. unfold Logging.maskField. rewrite O. reflexivity. Qed.

Lemma maskField_inherited (m : list (string * JsVal)) (g : string) :
  Logging.hasOwn g m = false -> Logging.inherits g = true ->
  Logging.maskField m g = (m ++ [(g, Logging.masked)])%list.
Proof. intros O I. unfold Logging.maskField. rewrite O, I. reflexivity. Qed.

Lemma maskField_other (m : list (string * JsVal)) (g : string) :
  Logging.hasOwn g m = false -> Logging.inherits g = false ->
  Logging.maskField m g = m.
Proof. intros O I. unfold Logging.maskField. rewrite O, I. reflexivity. Qed.


Lemma app_one_neq {A} (m : list A) (x : A) : (m ++ [x])%list <> m.
Proof.
  intros E. apply (f_equal (@List.length A)) in E.
  rewrite List.length_app in E. cbn in E. lia.
Qed.

Lemma settled_self (f : string) (m : list (string * JsVal)) :
  Logging.settled f (Logging.maskField m f).
Proof.
  unfold Logging.settled.
  destruct (Logging.hasOwn f m) eqn:O.
  - rewrite (maskField_own m f O).
    rewrite maskField_own by (rewrite hasOwn_assign; exact O).
    apply assign_twice.
  - destruct (Logging.inherits f) eqn:I.
    + rewrite (maskField_inherited m f O I).
      rewrite maskField_own
        by (rewrite hasOwn_app; cbn; rewrite String.eqb_refl;
            apply orb_true_r).
      rewrite assign_app, (assign_absent _ _ _ O). cbn.
      rewrite String.eqb_refl. reflexivity.
    + rewrite (maskField_other m f O I). apply maskField_other; assumption.
Qed.

Lemma settled_kept (f g : string) (m : list (string * JsVal)) :
  Logging.settled f m -> Logging.settled f (Logging.maskField m g).
Proof.
  unfold Logging.settled. intros S.
  destruct (Logging.hasOwn f m) eqn:O.
  - assert (A : Logging.assign f Logging.masked m = m)
      by (rewrite <- (maskField_own m f O); exact S).
    destruct (Logging.hasOwn g m) eqn:Og.
    + rewrite (maskField_own m g Og).
      rewrite maskField_own by (rewrite hasOwn_assign; exact O).
      rewrite assign_assign, A. reflexivity.
    + destruct (Logging.inherits g) eqn:Ig.
      * rewrite (maskField_inherited m g Og Ig).
        rewrite maskField_own by (rewrite hasOwn_app, O; reflexivity).
        rewrite assign_app, A. cbn.
        destruct (String.eqb g f); reflexivity.
      * rewrite (maskField_other m g Og Ig). exact S.
  - assert (I : Logging.inherits f = false).
    { destruct (Logging.inherits f) eqn:I; [|reflexivity].
      rewrite (maskField_inherited m f O I) in S.
      destruct (app_one_neq _ _ S). }
    destruct (Logging.hasOwn g m) eqn:Og.
    + rewrite (maskField_own m g Og).
      apply maskField_other; [rewrite hasOwn_assign; exact O | exact I].
    + destruct (Logging.inherits g) eqn:Ig.
      * rewrite (maskField_inherited m g Og Ig).
        apply maskField_other; [|exact I].
        rewrite hasOwn_app, O. cbn.
        destruct (String.eqb g f) eqn:E; [|reflexivity].
        apply String.eqb_eq in E. subst g. congruence.
      * rewrite (maskField_other m g Og Ig). exact S.
Qed.

Lemma maskFields_settled (fields : list string) :
  forall (m : list (string * JsVal)) (done : list string),
    (forall f, In f done -> Logging.settled f m) ->
    forall f, In f done \/ In f fields ->
              Logging.settled f (Logging.maskFields fields m).
Proof.
  unfold Logging.maskFields.
  induction fields as [|g fields IH]; intros m done D f [F|F]; cbn.
  - apply D, F.
  - destruct F.
  - apply (IH _ (g :: done)).
    + intros h [<-|Hd]; [apply settled_self | apply settled_kept, D, Hd].
    + left. right. exact F.
  - apply (IH _ (g :: done)).
    + intros h [<-|Hd]; [apply settled_self | apply settled_kept, D, Hd].
    + destruct F as [<-|F]; [left; left; reflexivity | right; exact F].
Qed.

Lemma maskFields_fixed (fields : list string) (m : list (string * JsVal)) :
  (forall f, In f fields -> Logging.settled f m) ->
  Logging.maskFields fields m = m.
Proof.
  unfold Logging.maskFields.
  induction fields as [|g fields IH]; intros S; cbn; [reflexivity |].
  rewrite (S g (or_introl eq_refl)). apply IH.
  intros f F. apply S. right. exact F.
Qed.

Lemma maskFields_twice (fields : list string) (m : list (string * JsVal)) :
  Logging.maskFields fields (Logging.maskFields fields m)
  = Logging.maskFields fields m.
Proof.
  apply maskFields_fixed. intros f F.
  apply (maskFields_settled fields m []); [intros ? [] | right; exact F].
Qed.

Lemma hasOwn_descend (fields : list string) (g : string)
  (m : list (string * JsVal)) :
  Logging.hasOwn g (Logging.descend fields m) = Logging.hasOwn g m.
Proof.
  induction m as [|[k x] m IH]; cbn; [reflexivity |]. rewrite <- IH. reflexivity.
Qed.

Lemma descend_maskField (fields : list string) (g : string)
  (m : list (string * JsVal)) :
  Logging.descend fields (Logging.maskField m g)
  = Logging.maskField (Logging.descend fields m) g.
Proof.
  unfold Logging.maskField. rewrite hasOwn_descend.
  destruct (Logging.hasOwn g m).
  - unfold Logging.descend.
    induction m as [|[k x] m IH]; [reflexivity |].
    cbn [Logging.assign List.map fst snd]. rewrite IH.
    destruct (String.eqb k g); reflexivity.
  - destruct (Logging.inherits g); [|reflexivity].
    unfold Logging.descend. rewrite List.map_app. reflexivity.
Qed.

Lemma descend_maskFields (fields sensitive : list string)
  (m : list (string * JsVal)) :
  Logging.descend fields (Logging.maskFields sensitive m)
  = Logging.maskFields sensitive (Logging.descend fields m).
Proof.
  unfold Logging.maskFields. revert m.
  induction sensitive as [|g gs IH]; intros m; cbn [fold_left]; [reflexivity |].
  rewrite IH, descend_maskField. reflexivity.
Qed.

(** The definition read in the order of the source: copy, overwrite
    the sensitive fields, then descend into what is still an object. *)
Lemma maskSensitiveData_as_written (fields : list string) (data : JsVal) :
  Logging.maskSensitiveData fields data
  = if Logging.isObject data
    then JsObj (Logging.descend fields
                  (Logging.maskFields fields (Logging.spread data)))
    else data.
Proof.
  destruct data as [ | | b | n | s | items | props]; try reflexivity.
  - rewrite mask_array, descend_maskFields. reflexivity.
  - rewrite mask_object, descend_maskFields. reflexivity.
Qed.


Lemma descend_fixed (fields : list string) (m : list (string * JsVal)) :
  Forall (Logging.steady fields) m -> Logging.descend fields m = m.
Proof.
  unfold Logging.descend.
  induction 1 as [|[k x] m S _ IH]; [reflexivity |].
  cbn [List.map fst snd]. rewrite IH. unfold Logging.steady in S.
  cbn [snd] in S.
  destruct (Logging.isObject x); [rewrite (S eq_refl) |]; reflexivity.
Qed.

Lemma maskField_steady (fields : list string) (g : string)
  (m : list (string * JsVal)) :
  Forall (Logging.steady fields) m ->
  Forall (Logging.steady fields) (Logging.maskField m g).
Proof.
  intros S. unfold Logging.maskField.
  destruct (Logging.hasOwn g m).
  - induction S as [|[k x] m Sx _ IH]; cbn [Logging.assign]; constructor;
      [|exact IH].
    destruct (String.eqb k g); [|exact Sx].
    unfold Logging.steady. cbn. discriminate.
  - destruct (Logging.inherits g); [|exact S].
    apply Forall_app. split; [exact S |].
    constructor; [|constructor]. unfold Logging.steady. cbn. discriminate.
Qed.

Lemma maskFields_steady (fields sensitive : list string)
  (m : list (string * JsVal)) :
  Forall (Logging.steady fields) m ->
  Forall (Logging.steady fields) (Logging.maskFields sensitive m).
Proof.
  unfold Logging.maskFields. revert m.
  induction sensitive as [|g gs IH]; intros m S; cbn [fold_left]; [exact S |].
  apply IH, maskField_steady, S.
Qed.

Lemma descend_steady (fields : list string) (m : list (string * JsVal)) :
  Forall (fun kv =>
            Logging.maskSensitiveData fields
              (Logging.maskSensitiveData fields (snd kv))
            = Logging.maskSensitiveData fields (snd kv)) m ->
  Forall (Logging.steady fields) (Logging.descend fields m).
Proof.
  unfold Logging.descend.
  induction 1 as [|[k x] m P _ IH]; cbn [List.map fst snd]; constructor;
    [|exact IH].
  unfold Logging.steady. cbn [snd] in *.
  destruct (Logging.isObject x) eqn:O; [intros _; exact P |].
  rewrite O. discriminate.
Qed.

Lemma indexed_values {P : JsVal -> Prop} (items : list JsVal) :
  Forall P items ->
  forall i, Forall (fun kv => P (snd kv)) (Logging.indexed i items).
Proof.
  induction 1 as [|v items Pv _ IH]; intros i; cbn; constructor;
    [exact Pv | apply IH].
Qed.

(** X16. Masking is idempotent: masking what has been masked gives it
    back unchanged, whatever the list of sensitive fields. *)
Theorem maskSensitiveData_idempotent (sensitiveFields : list string)
  (data : JsVal) :
  Logging.maskSensitiveData sensitiveFields
    (Logging.maskSensitiveData sensitiveFields data)
  = Logging.maskSensitiveData sensitiveFields data.
Proof.
  induction data as [ | | b | n | s | items IH | props IH]
    using JsVal_nested_ind; try reflexivity.
  - rewrite mask_array, mask_object.
    rewrite descend_fixed
      by (apply maskFields_steady, descend_steady;
          apply (indexed_values
                   (P := fun d =>
                           Logging.maskSensitiveData sensitiveFields
                             (Logging.maskSensitiveData sensitiveFields d)
                           = Logging.maskSensitiveData sensitiveFields d));
          exact IH).
    rewrite maskFields_twice. reflexivity.
  - rewrite !mask_object.
    rewrite descend_fixed by (apply maskFields_steady, descend_steady, IH).
    rewrite maskFields_twice. reflexivity.
Qed.


Lemma maskField_cleared (fields named : list string) (g : string)
  (m : list (string * JsVal)) :
  Forall (Logging.cleared fields named) m ->
  Forall (Logging.cleared fields (g :: named)) (Logging.maskField m g).
Proof.
  intros C. unfold Logging.maskField.
  destruct (Logging.hasOwn g m) eqn:O.
  - clear O. induction C as [|[k x] m [Cx Nx] _ IH]; cbn [Logging.assign];
      constructor; [|exact IH].
    destruct (String.eqb k g) eqn:E.
    + split; [reflexivity | intros _; reflexivity].
    + split; [exact Cx |]. cbn [fst snd] in *. intros [G|G].
      * apply String.eqb_neq in E. congruence.
      * apply Nx, G.
  - assert (K : Forall (Logging.cleared fields (g :: named)) m).
    { pose proof (hasOwn_false _ _ O) as F.
      clear O. induction C as [|[k x] m [Cx Nx] _ IH]; constructor.
      - inversion F; subst. split; [exact Cx |]. cbn [fst snd] in *.
        intros [G|G]; [congruence | apply Nx, G].
      - inversion F; subst. apply IH. assumption. }
    destruct (Logging.inherits g); [|exact K].
    apply Forall_app. split; [exact K |].
    constructor; [|constructor]. split; [reflexivity | intros _; reflexivity].
Qed.

Lemma maskFields_cleared (fields sensitive : list string) :
  forall (named : list string) (m : list (string * JsVal)),
    Forall (Logging.cleared fields named) m ->
    Forall (Logging.cleared fields (rev sensitive ++ named)%list)
           (Logging.maskFields sensitive m).
Proof.
  unfold Logging.maskFields.
  induction sensitive as [|g gs IH]; intros named m C; cbn [fold_left rev];
    [exact C |].
  rewrite <- List.app_assoc. cbn [List.app].
  apply IH, maskField_cleared, C.
Qed.

Lemma allMasked_other (fields : list string) (x : JsVal) :
  Logging.isObject x = false -> Logging.allMasked fields x = true.
Proof. destruct x; cbn; congruence. Qed.

Lemma descend_cleared (fields : list string) (m : list (string * JsVal)) :
  Forall (fun kv =>
            Logging.allMasked fields
              (Logging.maskSensitiveData fields (snd kv)) = true) m ->
  Forall (Logging.cleared fields []) (Logging.descend fields m).
Proof.
  unfold Logging.descend.
  induction 1 as [|[k x] m P _ IH]; cbn [List.map fst snd]; constructor;
    [|exact IH].
  split; [|intros []]. cbn [snd] in *.
  destruct (Logging.isObject x) eqn:O; [exact P | apply allMasked_other, O].
Qed.

Lemma cleared_allMasked (fields : list string) (m : list (string * JsVal)) :
  Forall (Logging.cleared fields (rev fields ++ [])%list) m ->
  Logging.allMasked fields (JsObj m) = true.
Proof.
  cbn [Logging.allMasked].
  induction 1 as [|[k x] m [Cx Nx] _ IH]; [reflexivity |].
  cbn [forallb fst snd] in *. rewrite IH, andb_true_r.
  destruct (existsb (String.eqb k) fields) eqn:E; [|exact Cx].
  apply existsb_exists in E as (f & F & E). apply String.eqb_eq in E. subst f.
  rewrite Nx; [reflexivity |].
  rewrite List.app_nil_r. apply List.in_rev in F. exact F.
Qed.

(** X17. After masking, no property named by a sensitive field is left
    with a value of its own, at any depth: every such property of the
    result, of the objects inside it, and of what were arrays inside
    it, holds the mask. *)
Theorem maskSensitiveData_masks_everywhere (sensitiveFields : list string)
  (data : JsVal) :
  Logging.allMasked sensitiveFields
    (Logging.maskSensitiveData sensitiveFields data) = true.
Proof.
  induction data as [ | | b | n | s | items IH | props IH]
    using JsVal_nested_ind; try reflexivity.
  - rewrite mask_array. apply cleared_allMasked, maskFields_cleared,
      descend_cleared.
    apply (indexed_values
             (P := fun d =>
                     Logging.allMasked sensitiveFields
                       (Logging.maskSensitiveData sensitiveFields d) = true)).
    exact IH.
  - rewrite mask_object. apply cleared_allMasked, maskFields_cleared,
      descend_cleared, IH.
Qed.

Lemma maskField_keeps (g k : string) (v : JsVal) (m : list (string * JsVal)) :
  k <> g -> In (k, v) m -> In (k, v) (Logging.maskField m g).
Proof.
  intros N I. unfold Logging.maskField.
  destruct (Logging.hasOwn g m).
  - induction m as [|[k' x] m IH]; [destruct I |].
    cbn [Logging.assign]. destruct I as [E|I]; [|right; apply IH, I].
    injection E as -> ->. left.
    apply String.eqb_neq in N. rewrite N. reflexivity.
  - destruct (Logging.inherits g); [|exact I].
    apply List.in_or_app. left. exact I.
Qed.

Lemma maskFields_keeps (sensitive : list string) (k : string) (v : JsVal) :
  ~ In k sensitive ->
  forall m, In (k, v) m -> In (k, v) (Logging.maskFields sensitive m).
Proof.
  unfold Logging.maskFields.
  induction sensitive as [|g gs IH]; intros N m I; cbn [fold_left]; [exact I |].
  apply IH; [intros G; apply N; right; exact G |].
  apply maskField_keeps; [|exact I]. intros ->. apply N. left. reflexivity.
Qed.

(** X18. Masking goes by the exact name. A property of an object or
    array whose name is not one of the sensitive fields and whose value
    is not itself an object is carried over to the result with its
    value, even when its name contains a sensitive word. *)
Theorem maskSensitiveData_keeps_other_fields (sensitiveFields : list string)
  (data : JsVal) (k : string) (v : JsVal) :
  In (k, v) (Logging.spread data) ->
  Logging.isObject v = false ->
  ~ In k sensitiveFields ->
  exists props,
    Logging.maskSensitiveData sensitiveFields data = JsObj props
    /\ In (k, v) props.
Proof.
  intros I O N.
  assert (D : In (k, v) (Logging.descend sensitiveFields (Logging.spread data))).
  { unfold Logging.descend. apply List.in_map_iff. exists (k, v).
    cbn [fst snd]. rewrite O. split; [reflexivity | exact I]. }
  destruct data as [ | | b | n | s | items | props]; try destruct I.
  - eexists. split; [apply mask_array |].
    apply maskFields_keeps; assumption.
  - eexists. split; [apply mask_object |].
    apply maskFields_keeps; assumption.
Qed.

Lemma maskSensitiveData_keeps_other_fields_witness :
  exists props,
    Logging.maskSensitiveData Logging.defaultSensitiveFields
      (JsObj [("token", JsStr "t1"); ("refreshToken", JsStr "t2")])
    = JsObj props
    /\ In ("refreshToken", JsStr "t2") props.
Proof.
  apply (maskSensitiveData_keeps_other_fields Logging.defaultSensitiveFields
           (JsObj [("token", JsStr "t1"); ("refreshToken", JsStr "t2")])
           "refreshToken" (JsStr "t2")).
  - right. left. reflexivity.
  - reflexivity.
  - intros I. repeat (destruct I as [I|I]; [discriminate I |]). destruct I.
Defined.

(** ** The user service *)

(** X19. [userService.deleteUser] on a reachable store returns [true]
    exactly when the acting user is in the store with the role
    [ADMIN], the target is another user, and the target is in the
    store. It then removes the target's document and nothing else: the
    acting administrator stays, and so do the posts and comments of the
    deleted user. When it throws, the store is as it was. *)
Theorem service_deleteUser_characterised (adminUserId targetUserId : string)
  (db : Db) :
  reachable db = true ->
  let out := UserService.deleteUser adminUserId targetUserId db in
  (fst out = Return true
   <-> (exists a, users db !! adminUserId = Some a
                  /\ PostResolver.roleIsAdmin a = true)
       /\ adminUserId <> targetUserId
       /\ is_Some (users db !! targetUserId))
  /\ (fst out = Return true ->
      users (snd out) = delete targetUserId (users db)
      /\ users (snd out) !! adminUserId = users db !! adminUserId
      /\ posts (snd out) = posts db
      /\ comments (snd out) = comments db)
  /\ (forall e, fst out = Throw e -> snd out = db).
Proof.
  intros R out. subst out.
  unfold UserService.deleteUser, UserService.User_findByIdAndDelete,
    Store.User_findById, Store.guard, bindM, throwM, retM.
  rewrite R. cbn [reachable Store2.withUsers].
  destruct (users db !! adminUserId) as [a|] eqn:A; cbn [UserService.notAdmin].
  2:{ cbn [fst snd]. repeat split; try discriminate.
      intros ((a & E & _) & _). discriminate E. }
  destruct (PostResolver.roleIsAdmin a) eqn:Ad; cbn [negb].
  2:{ cbn [fst snd]. repeat split; try discriminate.
      intros ((a' & E & Ad') & _). congruence. }
  destruct (String.eqb adminUserId targetUserId) eqn:E.
  { apply String.eqb_eq in E. cbn [fst snd]. repeat split; try discriminate.
    intros (_ & N & _). contradiction. }
  apply String.eqb_neq in E.
  destruct db as [us ps cs r]. cbn in R. subst r.
  cbn [users posts comments reachable] in *.
  destruct (us !! targetUserId) as [t|] eqn:T;
    cbn [fst snd users posts comments].
  - repeat split; try discriminate; eauto.
    all: rewrite <- A; apply lookup_delete_ne; congruence.
  - split; [split; [discriminate |] | split; [discriminate |]].
    + intros (_ & _ & [x X]). discriminate X.
    + intros e _. unfold Store2.withUsers. cbn [users posts comments reachable].
      rewrite delete_id by exact T. reflexivity.
Qed.

Lemma service_deleteUser_characterised_witness :
  fst (UserService.deleteUser "u0" "u1" Fixtures.db0) = Return true
  /\ users (snd (UserService.deleteUser "u0" "u1" Fixtures.db0)) !! "u0"
     = users Fixtures.db0 !! "u0".
Proof.
  pose proof (service_deleteUser_characterised "u0" "u1" Fixtures.db0 eq_refl)
    as (I & K & _).
  cbv zeta in I, K.
  assert (T : fst (UserService.deleteUser "u0" "u1" Fixtures.db0) = Return true)
    by (vm_compute; reflexivity).
  split; [exact T | exact (proj1 (proj2 (K T)))].
Defined.

(** X20. [userService.updateUserRole] never changes a role: whoever
    asks and whatever role is asked for, it ends in a throw and the
    store is as it was. The roles it lets through its own list are
    written in lower case, and none of these is a value of the [role]
    enum of the schema, so the update validators refuse what the list
    accepts. *)
Theorem service_updateUserRole_never_succeeds
  (adminUserId targetUserId newRole : string) (db : Db) :
  (exists e,
     UserService.updateUserRole adminUserId targetUserId newRole db
     = (Throw e, db))
  /\ (Js.includes UserService.validRoles (JsStr newRole) = true ->
      UserService.enumRole newRole = None).
Proof.
  assert (V : Js.includes UserService.validRoles (JsStr newRole) = true ->
              UserService.enumRole newRole = None).
  { unfold Js.includes, UserService.validRoles. cbn [existsb Js.strictEqStr].
    intros I. repeat (apply orb_prop in I as [I|I]);
      try (apply String.eqb_eq in I; subst newRole; reflexivity).
    discriminate I. }
  split; [|exact V].
  unfold UserService.updateUserRole, UserService.User_findByIdAndUpdate_role,
    Store.User_findById, Store.guard, bindM, throwM, retM.
  destruct (reachable db); [|eexists; reflexivity].
  destruct (UserService.notAdmin (users db !! adminUserId));
    [eexists; reflexivity |].
  destruct (Js.includes UserService.validRoles (JsStr newRole)) eqn:I;
    cbn [negb]; [|eexists; reflexivity].
  destruct (String.eqb adminUserId targetUserId
            && negb (String.eqb newRole "admin")); [eexists; reflexivity |].
  rewrite (V eq_refl). eexists. reflexivity.
Qed.
